(** * The bootstrap engine of the MCPStack tool template

    A shallow embedding of [scripts/bootstrap.py]: name derivation and
    validation, the placeholder rewriter built on [re.sub], name resolution
    from flags and saved configuration, tree enumeration, [apply] and
    [reset --hard]; followed by the properties proved about them. *)

From Stdlib Require Import NArith Ascii String Permutation Lia.
From stdpp Require Import gmap strings list.

Local Open Scope N_scope.
Local Open Scope list_scope.

(** ** Text

    A Python [str] is a sequence of Unicode code points.  Code points are
    numbers; a literal of the source is written [py "..."]. *)

Definition char : Type := N.
Definition str : Type := list N.

Definition code (a : ascii) : char := N_of_ascii a.
Definition py (s : string) : str := code <$> list_ascii_of_string s.

Definition is_ascii (c : char) : bool := c <? 128.
Definition is_lower (c : char) : bool := (code "a" <=? c) && (c <=? code "z").
Definition is_upper (c : char) : bool := (code "A" <=? c) && (c <=? code "Z").
Definition is_digit (c : char) : bool := (code "0" <=? c) && (c <=? code "9").
Definition is_char (a : ascii) (c : char) : bool := c =? code a.

(** What the source takes from Python's Unicode database and this file does
    not contain: which code points above ASCII are word characters for [\b],
    and what [str.lower] and [str.upper] return on a string that is not pure
    ASCII (their result there depends on context and may change the length). *)
Record Unicode : Type := {
  unicode_word : char -> bool;
  unicode_lower : str -> str;
  unicode_upper : str -> str;
}.

(** [\w] of a [str] pattern: alphanumeric or underscore. *)
Definition is_word (U : Unicode) (c : char) : bool :=
  if is_ascii c
  then is_lower c || is_upper c || is_digit c || is_char "_" c
  else unicode_word U c.

Definition ascii_lower (c : char) : char := if is_upper c then c + 32 else c.
Definition ascii_upper (c : char) : char := if is_lower c then c - 32 else c.

(** [s.lower()] and [s.upper()]. *)
Definition lower (U : Unicode) (s : str) : str :=
  if forallb is_ascii s then ascii_lower <$> s else unicode_lower U s.
Definition upper (U : Unicode) (s : str) : str :=
  if forallb is_ascii s then ascii_upper <$> s else unicode_upper U s.

(** [s.replace(a, b)] for one-character [a] and [b]. *)
Definition replace_char (a b : ascii) (s : str) : str :=
  (fun c => if is_char a c then code b else c) <$> s.

(** ** Names *)

Record NameSet : Type := {
  tool_slug : str;
  class_name : str;
  package_name : str;
  dist_name : str;
  env_prefix : str;
}.

Definition PLACEHOLDERS : NameSet := {|
  tool_slug := py "mimic";
  class_name := py "Mimic";
  package_name := py "mcpstack_mimic";
  dist_name := py "mcpstack-mimic";
  env_prefix := py "MCP_MIMIC";
|}.

(** [x or d] for an optional string [x]: [None] and the empty string are
    both falsy. *)
Definition or_else (x : option str) (d : str) : str :=
  match x with
  | Some (c :: s) => c :: s
  | _ => d
  end.

Definition derive_names (U : Unicode) (tool_slug class_name : str)
    (package_name dist_name env_prefix : option str) : NameSet :=
  let slug_snake := replace_char "-" "_" (lower U tool_slug) in
  let pkg := or_else package_name (py "mcpstack_" ++ slug_snake) in
  let dist := or_else dist_name (py "mcpstack-" ++ replace_char "_" "-" (lower U tool_slug)) in
  let env := or_else env_prefix (py "MCP_" ++ upper U slug_snake) in
  {| tool_slug := slug_snake;
     class_name := class_name;
     package_name := pkg;
     dist_name := dist;
     env_prefix := env |}.

(** [re.fullmatch] of a pattern of the shape [[F][R]*]: one character of the
    class [F], then any number of the class [R]. *)
Definition fullmatch_first_rest (first rest : char -> bool) (s : str) : bool :=
  match s with
  | [] => false
  | c :: s' => first c && forallb rest s'
  end.

Definition snake_rest (c : char) : bool := is_lower c || is_digit c || is_char "_" c.
Definition pascal_rest (c : char) : bool :=
  is_upper c || is_lower c || is_digit c || is_char "_" c.
Definition kebab_first (c : char) : bool := is_lower c || is_digit c.
Definition kebab_rest (c : char) : bool := is_lower c || is_digit c || is_char "-" c.
Definition upper_snake (c : char) : bool := is_upper c || is_digit c || is_char "_" c.

(** [[a-z][a-z0-9_]*] *)
Definition match_snake : str -> bool := fullmatch_first_rest is_lower snake_rest.
(** [[A-Z][A-Za-z0-9_]*] *)
Definition match_pascal : str -> bool := fullmatch_first_rest is_upper pascal_rest.
(** [[a-z0-9][a-z0-9\-]*] *)
Definition match_kebab : str -> bool := fullmatch_first_rest kebab_first kebab_rest.
(** [[A-Z0-9_]+] *)
Definition match_upper_snake : str -> bool := fullmatch_first_rest upper_snake upper_snake.

Definition err_tool_slug : string := "tool-slug must be snake_case: [a-z][a-z0-9_]*".
Definition err_class_name : string := "class-name must be PascalCase: [A-Z][A-Za-z0-9_]*".
Definition err_package_name : string :=
  "package-name must be a valid module name: [a-z][a-z0-9_]*".
Definition err_dist_name : string := "dist-name must be kebab-case: [a-z0-9][a-z0-9-]*".
Definition err_env_prefix : string := "env-prefix must be upper snake: [A-Z0-9_]+".

(** One [if not fullmatch: errs.append(msg)] statement. *)
Definition check (ok : bool) (msg : string) (errs : list string) : list string :=
  if ok then errs else errs ++ [msg].

Definition is_valid_names (names : NameSet) : bool * list string :=
  let errs := [] in
  let errs := check (match_snake (tool_slug names)) err_tool_slug errs in
  let errs := check (match_pascal (class_name names)) err_class_name errs in
  let errs := check (match_snake (package_name names)) err_package_name errs in
  let errs := check (match_kebab (dist_name names)) err_dist_name errs in
  let errs := check (match_upper_snake (env_prefix names)) err_env_prefix errs in
  (Nat.eqb (length errs) 0, errs).

(** ** The rewriter

    Every pattern of [replace_in_text] has the shape [\b literal tail], the
    tail being [\b] or a one-character lookahead [(?=[...])]. *)

Inductive lookahead : Type :=
  | WordBoundary
  | OneOf (cls : char -> bool).

Record pattern : Type := {
  literal : str;
  followed_by : lookahead;
}.

Fixpoint starts_with (p s : str) : bool :=
  match p, s with
  | [], _ => true
  | a :: p', b :: s' => (a =? b) && starts_with p' s'
  | _ :: _, [] => false
  end.

Definition is_word_opt (U : Unicode) (c : option char) : bool :=
  match c with
  | Some c => is_word U c
  | None => false
  end.

(** [\b] between two neighbours, [None] being an end of the string. *)
Definition word_boundary (U : Unicode) (before after : option char) : bool :=
  xorb (is_word_opt U before) (is_word_opt U after).

Definition last_char (before : option char) (s : str) : option char :=
  match last s with
  | Some c => Some c
  | None => before
  end.

(** Does the pattern match at the start of [s], the character in front of
    [s] being [before]? *)
Definition match_at (U : Unicode) (p : pattern) (before : option char) (s : str) : bool :=
  word_boundary U before (head s)
  && starts_with (literal p) s
  && let rest := drop (length (literal p)) s in
     match followed_by p with
     | WordBoundary => word_boundary U (last_char before (literal p)) (head rest)
     | OneOf cls => match rest with c :: _ => cls c | [] => false end
     end.

(** The scan of [re.sub]: leftmost matches, none overlapping; [skip] counts
    the characters of the current match still to be passed over.  The
    literals are not empty, so no match is empty. *)
Fixpoint sub_from (U : Unicode) (p : pattern) (repl : str)
    (before : option char) (skip : nat) (s : str) : str :=
  match s with
  | [] => []
  | c :: s' =>
      match skip with
      | S k => sub_from U p repl (Some c) k s'
      | O =>
          if match_at U p before s
          then repl ++ sub_from U p repl (Some c) (length (literal p) - 1) s'
          else c :: sub_from U p repl (Some c) 0 s'
      end
  end.

Definition sub (U : Unicode) (p : pattern) (repl text : str) : str :=
  sub_from U p repl None 0 text.

(** [re.sub(pat, repl, text)] with a string [repl]: a replacement without a
    backslash is inserted as it is.  One with a backslash is a template that
    [re] parses first (escapes, group references), which is outside this
    model: [None]. *)
Definition re_sub (U : Unicode) (p : pattern) (repl text : str) : option str :=
  if existsb (is_char "\") repl then None else Some (sub U p repl text).

Definition upper_or_underscore (c : char) : bool := is_upper c || is_char "_" c.

Definition whole_word (s : string) : pattern :=
  {| literal := py s; followed_by := WordBoundary |}.
Definition compound (s : string) (cls : char -> bool) : pattern :=
  {| literal := py s; followed_by := OneOf cls |}.

Definition patterns (mapping : NameSet) : list (pattern * str) := [
  (whole_word "mcpstack_your_tool_name", package_name mapping);
  (whole_word "mcpstack-your-tool-name", dist_name mapping);
  (compound "YourTool" upper_or_underscore, class_name mapping);
  (whole_word "YourTool", class_name mapping);
  (whole_word "your_tool_name", tool_slug mapping);
  (compound "MCP_YOUR_TOOL_NAME" upper_snake, env_prefix mapping);
  (whole_word "MCP_YOUR_TOOL_NAME", env_prefix mapping)
].

(** [for pat, repl in patterns: text = re.sub(pat, repl, text)] *)
Definition apply_rules (U : Unicode) (rules : list (pattern * str)) (text : str) : option str :=
  foldl (fun acc rule => acc ≫= re_sub U rule.1 rule.2) (Some text) rules.

Definition replace_in_text (U : Unicode) (text : str) (mapping : NameSet) : option str :=
  apply_rules U (patterns mapping) text.

(** ** Outcomes

    A call returns, or raises: [typer.Exit], [typer.BadParameter], or any
    other exception, which nothing in the script catches. *)

Inductive exn : Type :=
  | Exit (code : nat)
  | BadParameter (lines : list string)
  | Error.

Inductive result (A : Type) : Type :=
  | Return (a : A)
  | Raised (e : exn).
Arguments Return {A} a.
Arguments Raised {A} e.

Definition result_bind {A B : Type} (r : result A) (k : A -> result B) : result B :=
  match r with
  | Return a => k a
  | Raised e => Raised e
  end.

(** ** Name resolution

    What [json.loads] may hand back, as far as the script looks at it:
    a string, a dict, or anything else, of which only its truth value
    counts ([None], numbers, booleans, lists). *)

#[warnings="-register-all"]
Inductive pyval : Type :=
  | PStr (s : str)
  | PDict (items : list (string * pyval))
  | POther (truth : bool).

Definition truthy (v : pyval) : bool :=
  match v with
  | PStr [] => false
  | PStr (_ :: _) => true
  | PDict [] => false
  | PDict (_ :: _) => true
  | POther b => b
  end.

Fixpoint dict_get (items : list (string * pyval)) (key : string) : option pyval :=
  match items with
  | [] => None
  | (k, v) :: rest => if String.eqb k key then Some v else dict_get rest key
  end.

(** [v.get(key, default)]: only a dict has [get]. *)
Definition py_get (v : pyval) (key : string) (default : pyval) : result pyval :=
  match v with
  | PDict items => Return (from_option id default (dict_get items key))
  | _ => Raised Error
  end.

(** [flag or rest]: [rest] is evaluated only when the flag is falsy. *)
Definition flag_or (flag : option str) (rest : result pyval) : result pyval :=
  match flag with
  | Some (c :: s) => Return (PStr (c :: s))
  | _ => rest
  end.

(** A value where the script needs a string: [.lower()] and [re.fullmatch]
    raise on anything else. *)
Definition as_str (v : pyval) : result str :=
  match v with
  | PStr s => Return s
  | _ => Raised Error
  end.

(** An optional argument of [derive_names]: a falsy value gives way to the
    formula; a truthy value is kept, and [re.fullmatch] raises on it later
    unless it is a string. *)
Definition as_optional (v : pyval) : result (option str) :=
  if truthy v then result_bind (as_str v) (fun s => Return (Some s)) else Return None.

Definition default_tool_slug : str := tool_slug PLACEHOLDERS.
Definition default_class_name : str := class_name PLACEHOLDERS.

(** [loaded] is what [_load_config()] returns when called: [None] when the
    file is missing or does not parse. *)
Definition _ensure_names_from_sources (U : Unicode)
    (tool_slug class_name package_name dist_name env_prefix : option str)
    (prefer_config : bool) (loaded : option pyval) : result NameSet :=
  let cfg := if prefer_config then loaded else None in
  result_bind
    (match cfg with
     | Some c => if truthy c then py_get c "names" (PDict []) else Return (PDict [])
     | None => Return (PDict [])
     end) (fun source =>
  result_bind (flag_or tool_slug
                 (py_get source "tool_slug" (PStr default_tool_slug))) (fun v1 =>
  result_bind (flag_or class_name
                 (py_get source "class_name" (PStr default_class_name))) (fun v2 =>
  result_bind (flag_or package_name (py_get source "package_name" (POther false))) (fun v3 =>
  result_bind (flag_or dist_name (py_get source "dist_name" (POther false))) (fun v4 =>
  result_bind (flag_or env_prefix (py_get source "env_prefix" (POther false))) (fun v5 =>
  result_bind (as_str v1) (fun slug =>
  result_bind (as_str v2) (fun cls =>
  result_bind (as_optional v3) (fun pkg =>
  result_bind (as_optional v4) (fun dist =>
  result_bind (as_optional v5) (fun env =>
  let names := derive_names U slug cls pkg dist env in
  let '(ok, errs) := is_valid_names names in
  if ok then Return names else Raised (BadParameter errs)))))))))))).

(** ** The working tree

    Paths are relative to [TEMPLATE_ROOT], one [str] per segment; the tree
    maps each path that exists to what is there.  The root itself is a
    directory.  The text of a file is what [read_text(encoding="utf-8")]
    returns, [None] when the bytes do not decode.  There are no symbolic
    links. *)

Definition path : Type := list str.

Inductive entry : Type :=
  | File (text : option str)
  | Dir.

(** What a run does to the world, in order. *)
Inductive event : Type :=
  | Asked (prompt : string) (answer : bool)
  | Exists (p : path)
  | IsFile (p : path)
  | Rglob (p : path)
  | ReadText (p : path)
  | WriteText (p : path) (text : str)
  | Mkdir (p : path)
  | Move (src dst : path)
  | Rmtree (p : path)
  | Copytree (src dst : path)
  | Copy2 (src dst : path)
  | Printed (title body : string)
  | Applied (changes : nat) (moved_to : option path).

Record state : Type := {
  tree : gmap (list str) entry;
  root_parts : list str;
  trace : list event;
}.

Definition M (A : Type) : Type := state -> result A * state.

Definition ret {A : Type} (a : A) : M A := fun st => (Return a, st).
Definition raise {A : Type} (e : exn) : M A := fun st => (Raised e, st).
Definition bind {A B : Type} (m : M A) (k : A -> M B) : M B :=
  fun st =>
    match m st with
    | (Return a, st') => k a st'
    | (Raised e, st') => (Raised e, st')
    end.

Notation "x <- m ;; k" := (bind m (fun x => k))
  (at level 100, m at next level, right associativity).
Notation "m ;;; k" := (bind m (fun _ => k))
  (at level 100, right associativity).

Definition emit (e : event) : M unit :=
  fun st => (Return tt, {| tree := tree st; root_parts := root_parts st;
                           trace := trace st ++ [e] |}).

Definition get_tree : M (gmap (list str) entry) := fun st => (Return (tree st), st).
Definition set_tree (t : gmap (list str) entry) : M unit :=
  fun st => (Return tt, {| tree := t; root_parts := root_parts st; trace := trace st |}).
Definition get_root_parts : M (list str) := fun st => (Return (root_parts st), st).

Definition lookup_entry (t : gmap (list str) entry) (p : path) : option entry :=
  match p with
  | [] => Some Dir
  | _ => t !! p
  end.

Definition exists_in (t : gmap (list str) entry) (p : path) : bool :=
  match lookup_entry t p with
  | Some _ => true
  | None => false
  end.
Definition is_file_in (t : gmap (list str) entry) (p : path) : bool :=
  match lookup_entry t p with
  | Some (File _) => true
  | _ => false
  end.
Definition is_dir_in (t : gmap (list str) entry) (p : path) : bool :=
  match lookup_entry t p with
  | Some Dir => true
  | _ => false
  end.

Definition parent (p : path) : path := removelast p.
Definition basename (p : path) : str := List.last p [].

(** [q] is [p] or lies below it. *)
Definition within (p q : path) : Prop := p `prefix_of` q.
(** [q] lies strictly below [p]. *)
Definition below (p q : path) : Prop := p `prefix_of` q /\ q <> p.

(** [p.exists()], [p.is_file()] *)
Definition path_exists (p : path) : M bool :=
  emit (Exists p) ;;; t <- get_tree ;; ret (exists_in t p).
Definition is_file (p : path) : M bool :=
  emit (IsFile p) ;;; t <- get_tree ;; ret (is_file_in t p).

(** [list(p.rglob("*"))]: everything below a directory, in the order the
    file system lists it; nothing below what is not a directory. *)
Definition rglob_in (t : gmap (list str) entry) (p : path) : list path :=
  if is_dir_in t p then filter (below p) (map_to_list t).*1 else [].
Definition rglob (p : path) : M (list path) :=
  emit (Rglob p) ;;; t <- get_tree ;; ret (rglob_in t p).

(** [p.read_text(encoding="utf-8")] *)
Definition read_text (p : path) : M str :=
  emit (ReadText p) ;;;
  t <- get_tree ;;
  match lookup_entry t p with
  | Some (File (Some text)) => ret text
  | _ => raise Error
  end.

(** [p.write_text(text, encoding="utf-8")] *)
Definition write_text (p : path) (text : str) : M unit :=
  emit (WriteText p text) ;;;
  t <- get_tree ;;
  match lookup_entry t p with
  | Some Dir => raise Error
  | Some (File _) => set_tree (<[p := File (Some text)]> t)
  | None => if is_dir_in t (parent p) then set_tree (<[p := File (Some text)]> t)
            else raise Error
  end.

(** The directories [os.makedirs(p, exist_ok=True)] leaves behind; [None]
    when a file is in the way. *)
Definition make_dirs (t : gmap (list str) entry) (p : path) : option (gmap (list str) entry) :=
  let chain := (fun n => take n p) <$> seq 1 (length p) in
  if existsb (is_file_in t) chain then None
  else Some (foldr (fun q t' => if exists_in t' q then t' else <[q := Dir]> t') t chain).

(** [p.mkdir(parents=True, exist_ok=True)] *)
Definition mkdir_parents (p : path) : M unit :=
  emit (Mkdir p) ;;;
  t <- get_tree ;;
  match make_dirs t p with
  | Some t' => set_tree t'
  | None => raise Error
  end.

(** The entries at and below [src], re-rooted at [dst]. *)
Definition rebase (src dst : path) (t : gmap (list str) entry) : gmap (list str) entry :=
  list_to_map ((fun kv : list str * entry => (dst ++ drop (length src) kv.1, kv.2))
               <$> map_to_list (filter (fun kv : list str * entry => within src kv.1) t)).

Definition remove_tree (p : path) (t : gmap (list str) entry) : gmap (list str) entry :=
  filter (fun kv : list str * entry => ~ within p kv.1) t.

(** [shutil.rmtree(p)] *)
Definition rmtree (p : path) : M unit :=
  emit (Rmtree p) ;;;
  t <- get_tree ;;
  if is_dir_in t p then set_tree (remove_tree p t) else raise Error.

(** [shutil.copytree(src, dst)]: [dst] must not exist yet. *)
Definition copytree (src dst : path) : M unit :=
  emit (Copytree src dst) ;;;
  t <- get_tree ;;
  if is_dir_in t src && negb (exists_in t dst) then
    match make_dirs t (parent dst) with
    | Some t' => set_tree (rebase src dst t ∪ t')
    | None => raise Error
    end
  else raise Error.

(** [shutil.copy2(src, dst)] *)
Definition copy2 (src dst : path) : M unit :=
  emit (Copy2 src dst) ;;;
  t <- get_tree ;;
  match lookup_entry t src with
  | Some (File content) =>
      let real_dst := if is_dir_in t dst then dst ++ [basename src] else dst in
      if is_dir_in t real_dst then raise Error
      else if is_dir_in t (parent real_dst) then set_tree (<[real_dst := File content]> t)
      else raise Error
  | _ => raise Error
  end.

(** [shutil.move(src, dst)]: into [dst] when that is a directory; a file may
    replace a file; a directory is renamed, or copied to a [dst] whose
    parents do not exist yet. *)
Definition move (src dst : path) : M unit :=
  emit (Move src dst) ;;;
  t <- get_tree ;;
  let real_dst := if is_dir_in t dst then dst ++ [basename src] else dst in
  let renamed := rebase src real_dst t ∪ remove_tree src t in
  match lookup_entry t src with
  | None => raise Error
  | Some (File _) =>
      if is_dir_in t real_dst || negb (is_dir_in t (parent real_dst)) then raise Error
      else if is_dir_in t dst && exists_in t real_dst then raise Error
      else set_tree renamed
  | Some Dir =>
      if exists_in t real_dst || bool_decide (within src real_dst) then raise Error
      else match make_dirs t (parent real_dst) with
           | Some t' => set_tree (rebase src real_dst t ∪ remove_tree src t')
           | None => raise Error
           end
  end.

(** [console.print(Panel.fit(body, title=title))] *)
Definition print_panel (title body : string) : M unit := emit (Printed title body).

(** [Confirm.ask(prompt, default=False)], the user answering [answer]. *)
Definition confirm_ask (prompt : string) (answer : bool) : M bool :=
  emit (Asked prompt answer) ;;; ret answer.

(** ** Tree enumeration *)

Definition SRC : path := [py "src"].
Definition TESTS : path := [py "tests"].
Definition SCAFFOLD_DIR : path := [py "scripts"; py "scaffold"].

Definition IGNORED_PARTS : list str :=
  [py ".venv"; py ".git"; py "__pycache__"; py ".mypy_cache"; py ".pytest_cache";
   py ".ruff_cache"; py "node_modules"].
Definition IGNORED_SUFFIXES : list str := [py ".pyc"; py ".pyo"; py ".DS_Store"].

(** [s.rfind(c)], counting from [i]. *)
Fixpoint rfind_from (c : char) (s : str) (i : nat) : option nat :=
  match s with
  | [] => None
  | x :: s' =>
      match rfind_from c s' (S i) with
      | Some j => Some j
      | None => if x =? c then Some i else None
      end
  end.

(** [PurePath.suffix] of a final component (pathlib up to Python 3.12). *)
Definition suffix (name : str) : str :=
  match rfind_from (code ".") name 0 with
  | Some i => if (0 <? i)%nat && (i <? length name - 1)%nat then drop i name else []
  | None => []
  end.

(** [p.parts] of the absolute path are the parts of the root, then [p]. *)
Definition _skip_path (root : list str) (p : path) : bool :=
  if existsb (fun part => bool_decide (part ∈ IGNORED_PARTS)) (root ++ p) then true
  else if bool_decide (suffix (basename p) ∈ IGNORED_SUFFIXES) then true
  else false.

Fixpoint for_each {A S : Type} (l : list A) (body : A -> S -> M S) (s : S) : M S :=
  match l with
  | [] => ret s
  | a :: l' => s' <- body a s ;; for_each l' body s'
  end.

(** [for p in iter_files(): s = body(p, s)].  [iter_files] is a generator:
    the two listings are taken when the loop starts, and each candidate is
    tested, and [pyproject.toml] looked for, as the loop gets there. *)
Definition for_iter_files {S : Type} (body : path -> S -> M S) (s : S) : M S :=
  src_exists <- path_exists SRC ;;
  both <- (if src_exists then path_exists TESTS else ret false) ;;
  s <- (if both then
          in_src <- rglob SRC ;;
          in_tests <- rglob TESTS ;;
          for_each (in_src ++ in_tests)
            (fun p s =>
               regular <- is_file p ;;
               if negb regular then ret s
               else root <- get_root_parts ;;
                    if _skip_path root p then ret s else body p s) s
        else ret s) ;;
  let pyproj := [py "pyproject.toml"] in
  there <- path_exists pyproj ;;
  regular <- (if there then is_file pyproj else ret false) ;;
  if regular then body pyproj s else ret s.

(** [list(iter_files())] on a tree at rest. *)
Definition iter_files (st : state) : list path :=
  match for_iter_files (fun p acc => ret (acc ++ [p])) [] st with
  | (Return l, _) => l
  | (Raised _, _) => []
  end.

(** ** apply *)

Definition lift {A : Type} (o : option A) : M A :=
  match o with
  | Some a => ret a
  | None => raise Error
  end.

(** The loop of [_do_apply]; gives the final value of [changes]. *)
Definition rewrite_files (U : Unicode) (names : NameSet) : M nat :=
  for_iter_files
    (fun p changes =>
       txt <- read_text p ;;
       new_txt <- lift (replace_in_text U txt names) ;;
       if bool_decide (new_txt <> txt)
       then write_text p new_txt ;;; ret (changes + 1)%nat
       else ret changes) 0%nat.

(** [names] come validated, so [package_name] is one path segment.  The
    closing panel is recorded as [Applied changes moved_to]. *)
Definition _do_apply (U : Unicode) (names : NameSet) (yes : bool) (answer : bool) : M unit :=
  go <- (if yes then ret true else confirm_ask "This will modify files. Continue?" answer) ;;
  if negb go then raise (Exit 0)
  else
    changes <- rewrite_files U names ;;
    let old_pkg_dir := SRC ++ [py "mcpstack_your_tool_name"] in
    let new_pkg_dir := SRC ++ [package_name names] in
    there <- path_exists old_pkg_dir ;;
    moved <- (if there && bool_decide (old_pkg_dir <> new_pkg_dir)
              then mkdir_parents (parent new_pkg_dir) ;;;
                   move old_pkg_dir new_pkg_dir ;;; ret true
              else ret false) ;;
    emit (Applied changes (if moved then Some new_pkg_dir else None)).

(** ** reset *)

Definition warn_skipped (what : string) : M unit :=
  print_panel "[yellow]Warning[/yellow]" (what ++ " not found — skipped.").

(** The statements [reset] runs for [src] and again for [tests]: remove the
    working tree if there is one, then copy the scaffold's if there is one. *)
Definition replace_tree (target member : path) (label : string) : M unit :=
  e <- path_exists target ;;
  (if e then rmtree target else ret tt) ;;;
  e <- path_exists member ;;
  if e then copytree member target else warn_skipped label.

(** The statements [reset] runs for [pyproject.toml] and for the readme. *)
Definition replace_file (member dest : path) (label : string) : M unit :=
  e <- path_exists member ;;
  if e then copy2 member dest else warn_skipped label.

Definition reset (hard : bool) : M unit :=
  if negb hard then
    emit (Printed "" "Tip: use git restore/clean or run with --hard (to overwrite everything — To Your Own Risk!)") ;;;
    raise (Exit 0)
  else
    scaffold <- path_exists SCAFFOLD_DIR ;;
    if negb scaffold then
      print_panel "[red]Missing scaffold[/red]" "scaffold/ not found." ;;;
      raise (Exit 1)
    else
      let scaffold_src := SCAFFOLD_DIR ++ [py "src"] in
      let scaffold_tests := SCAFFOLD_DIR ++ [py "tests"] in
      let scaffold_pyproject := SCAFFOLD_DIR ++ [py "pyproject.toml"] in
      md <- path_exists (SCAFFOLD_DIR ++ [py "README.md"]) ;;
      let scaffold_readme :=
        if md then SCAFFOLD_DIR ++ [py "README.md"] else SCAFFOLD_DIR ++ [py "README.rst"] in
      replace_tree SRC scaffold_src "scaffold/src" ;;;
      replace_tree TESTS scaffold_tests "scaffold/tests" ;;;
      replace_file scaffold_pyproject [py "pyproject.toml"] "scaffold/pyproject.toml" ;;;
      replace_file scaffold_readme [basename scaffold_readme] "scaffold/README" ;;;
      print_panel "[green]Reset complete[/green]"
        "src/, tests/, pyproject.toml and README restored from scaffold.".

(** ** Statements of the specification, in its own words *)

(** The messages the validator owes, one per field that breaks its grammar,
    in the order of the fields. *)
Definition violations (names : NameSet) : list string :=
  (if match_snake (tool_slug names) then [] else [err_tool_slug])
  ++ (if match_pascal (class_name names) then [] else [err_class_name])
  ++ (if match_snake (package_name names) then [] else [err_package_name])
  ++ (if match_kebab (dist_name names) then [] else [err_dist_name])
  ++ (if match_upper_snake (env_prefix names) then [] else [err_env_prefix]).

(** A name set is valid when the validator says so. *)
Definition valid (names : NameSet) : Prop := (is_valid_names names).1 = true.

(** A value counts as supplied when it is there and not empty. *)
Definition supplied (o : option str) : option str :=
  match o with
  | Some (c :: s) => Some (c :: s)
  | _ => None
  end.

(** Explicit override, else stored value, else default. *)
Definition precedence (flag stored : option str) (default : str) : str :=
  match flag with
  | Some v => v
  | None => match stored with
            | Some v => v
            | None => default
            end
  end.

(** The [names] object of the saved configuration, when it is consulted. *)
Definition saved_names (prefer_config : bool) (loaded : option pyval) : list (string * pyval) :=
  match (if prefer_config then loaded else None) with
  | Some (PDict items) =>
      match dict_get items "names" with
      | Some (PDict fields) => fields
      | _ => []
      end
  | _ => []
  end.

Definition stored (fields : list (string * pyval)) (key : string) : option str :=
  match dict_get fields key with
  | Some (PStr s) => Some s
  | _ => None
  end.

Definition field_keys : list string :=
  ["tool_slug"; "class_name"; "package_name"; "dist_name"; "env_prefix"]%string.

Definition string_or_absent (fields : list (string * pyval)) (key : string) : bool :=
  match dict_get fields key with
  | None | Some (PStr _) => true
  | Some _ => false
  end.

(** The saved configuration has the shape [_save_config] writes: an object
    whose [names], if any, is an object with strings under the five keys. *)
Definition well_typed (prefer_config : bool) (loaded : option pyval) : bool :=
  match (if prefer_config then loaded else None) with
  | None => true
  | Some (PDict items) =>
      match dict_get items "names" with
      | None => true
      | Some (PDict fields) => forallb (string_or_absent fields) field_keys
      | Some _ => false
      end
  | Some c => negb (truthy c)
  end.

Definition validated (names : NameSet) : result NameSet :=
  if (is_valid_names names).1 then Return names
  else Raised (BadParameter (is_valid_names names).2).

(** A unicode table to run examples with; they use ASCII text only, where
    the table is never consulted. *)
Definition no_unicode : Unicode := {|
  unicode_word := fun _ => false;
  unicode_lower := fun s => s;
  unicode_upper := fun s => s;
|}.

(** ** Runs

    Notions used to state what a run did. *)

(** The state after some more events. *)
Definition logged (st : state) (evs : list event) : state :=
  {| tree := tree st; root_parts := root_parts st; trace := trace st ++ evs |}.
Definition with_tree (st : state) (t : gmap (list str) entry) : state :=
  {| tree := t; root_parts := root_parts st; trace := trace st |}.

(** [m] leaves the entries at paths in [P] alone and only adds to the trace. *)
Definition frames {A} (P : path -> Prop) (m : M A) : Prop :=
  forall st, (forall p, P p -> tree (m st).2 !! p = tree st !! p)
             /\ exists evs, trace (m st).2 = trace st ++ evs.




(** One candidate of the two listings, as [iter_files] treats it. *)
Definition guarded {S : Type} (body : path -> S -> M S) (p : path) (s : S) : M S :=
  regular <- is_file p ;;
  if negb regular then ret s
  else root <- get_root_parts ;;
       if _skip_path root p then ret s else body p s.

(** A candidate that [iter_files] yields. *)
Definition selected (st : state) (p : path) : bool :=
  is_file_in (tree st) p && negb (_skip_path (root_parts st) p).

Definition pyproject : path := [py "pyproject.toml"].

(** The rewriter without the template check. *)
Definition rewrite (U : Unicode) (names : NameSet) (text : str) : str :=
  foldl (fun t rule => sub U rule.1 rule.2 t) text (patterns names).

Arguments rewrite : simpl never.

Definition text_in (t : gmap (list str) entry) (p : path) : str :=
  match lookup_entry t p with
  | Some (File (Some text)) => text
  | _ => []
  end.

Definition decodable (t : gmap (list str) entry) (p : path) : bool :=
  match lookup_entry t p with
  | Some (File (Some _)) => true
  | _ => false
  end.

(** The files written in a trace, with what was written. *)
Definition written (tr : list event) : list (path * str) :=
  omap (fun e => match e with WriteText p text => Some (p, text) | _ => None end) tr.

(** The head of [for_iter_files]: the two listings, when both roots exist. *)
Definition candidates (t : gmap (list str) entry) : list path :=
  if exists_in t SRC && exists_in t TESTS then rglob_in t SRC ++ rglob_in t TESTS else [].


(** The body of the loop of [_do_apply]. *)
Definition rewrite_body (U : Unicode) (names : NameSet) (p : path) (changes : nat) : M nat :=
  txt <- read_text p ;;
  new_txt <- lift (replace_in_text U txt names) ;;
  if bool_decide (new_txt <> txt)
  then write_text p new_txt ;;; ret (changes + 1)%nat
  else ret changes.

(** A character any of the five grammars admits. *)
Definition name_char (c : char) : bool :=
  is_lower c || is_upper c || is_digit c || is_char "_" c || is_char "-" c.

(** The text the rewriter gives for the file at [p]. *)
Definition new_text (U : Unicode) (names : NameSet) (st : state) (p : path) : str :=
  rewrite U names (text_in (tree st) p).

(** The files of [l] that the rewriter changes. *)
Definition changed (U : Unicode) (names : NameSet) (st : state) (l : list path) : list path :=
  filter (fun p => new_text U names st p <> text_in (tree st) p) l.

(** The names derived from [my_tool] and [MyTool]. *)
Definition my_tool_names : NameSet :=
  {| tool_slug := py "my_tool"; class_name := py "MyTool";
     package_name := py "mcpstack_my_tool"; dist_name := py "mcpstack-my-tool";
     env_prefix := py "MCP_MY_TOOL" |}.

(** A template tree: ten files are enumerated (the compiled file under
    [__pycache__] is not), and three of them hold a placeholder. *)
Definition ten_files : state :=
  let pkg := [py "src"; py "mcpstack_your_tool_name"] in
  {| tree := list_to_map [
       ([py "src"], Dir);
       (pkg, Dir);
       (pkg ++ [py "__init__.py"], File (Some []));
       (pkg ++ [py "tool.py"], File (Some (py "class YourTool(BaseTool): pass")));
       (pkg ++ [py "cli.py"], File (Some (py "class YourToolCLI: help = 'your_tool_name CLI'")));
       (pkg ++ [py "util.py"], File (Some (py "def helper(): return 1")));
       (pkg ++ [py "README.md"], File (Some (py "notes")));
       (pkg ++ [py "py.typed"], File (Some []));
       (pkg ++ [py "__pycache__"], Dir);
       (pkg ++ [py "__pycache__"; py "tool.cpython-312.pyc"], File None);
       ([py "tests"], Dir);
       ([py "tests"; py "test_tool.py"],
        File (Some (py "from mcpstack_your_tool_name.tool import YourTool")));
       ([py "tests"; py "test_misc.py"], File (Some (py "assert True")));
       ([py "tests"; py "conftest.py"], File (Some (py "import pytest")));
       ([py "pyproject.toml"], File (Some (py "[build-system]")))];
     root_parts := [py "/"; py "home"; py "dev"; py "repo"];
     trace := [] |}.

(** [st] is [st0] but for files already rewritten, none of them in [l]. *)
Definition agrees_on (st0 : state) (l : list path) (st : state) : Prop :=
  root_parts st = root_parts st0
  /\ forall q, q ∈ l -> lookup_entry (tree st) q = lookup_entry (tree st0) q.

(** A working tree with [src] and [tests], and a scaffold that has lost its
    [tests]. *)
Definition scaffold_without_tests : state :=
  {| tree := list_to_map [
       ([py "scripts"], Dir);
       ([py "scripts"; py "scaffold"], Dir);
       ([py "scripts"; py "scaffold"; py "src"], Dir);
       ([py "scripts"; py "scaffold"; py "src"; py "tool.py"], File (Some (py "class YourTool: pass")));
       ([py "scripts"; py "scaffold"; py "pyproject.toml"], File (Some (py "[project]")));
       ([py "src"], Dir);
       ([py "src"; py "tool.py"], File (Some (py "class MyTool: pass")));
       ([py "tests"], Dir);
       ([py "tests"; py "test_tool.py"], File (Some (py "from mcpstack_my_tool import MyTool")));
       ([py "pyproject.toml"], File (Some (py "[project]")))];
     root_parts := [py "/"; py "repo"];
     trace := [] |}.

(** ** Words, pieces and the rules on them

    Notions used to state how the rewriter works on a text. *)

(** A text read as its words (maximal runs of word characters) and the
    characters between them. *)
Inductive piece : Type :=
  | Sep (c : char)
  | Tok (w : str).

Definition piece_text (x : piece) : str :=
  match x with
  | Sep c => [c]
  | Tok w => w
  end.

Definition flatten (ps : list piece) : str := concat (piece_text <$> ps).

Fixpoint pieces (U : Unicode) (s : str) : list piece :=
  match s with
  | [] => []
  | c :: s' =>
      if is_word U c
      then match pieces U s' with
           | Tok w :: ps => Tok (c :: w) :: ps
           | ps => Tok [c] :: ps
           end
      else Sep c :: pieces U s'
  end.

(** A word: not empty, word characters only. *)
Definition word (U : Unicode) (w : str) : Prop := w <> [] /\ forallb (is_word U) w = true.

Definition starts_tok (ps : list piece) : bool :=
  match ps with
  | Tok _ :: _ => true
  | _ => false
  end.

(** The pieces of a text: separators are not word characters, words are
    words, and no two words are neighbours. *)
Fixpoint wf (U : Unicode) (ps : list piece) : Prop :=
  match ps with
  | [] => True
  | Sep c :: ps' => is_word U c = false /\ wf U ps'
  | Tok w :: ps' => word U w /\ starts_tok ps' = false /\ wf U ps'
  end.

(** Apply a function to every word. *)
Definition on_words (f : str -> str) (ps : list piece) : list piece :=
  (fun x => match x with Tok w => Tok (f w) | Sep c => Sep c end) <$> ps.

(** A pattern on one word: the literal opens the word, and the tail looks at
    what is left of it. *)
Definition tok_match (p : pattern) (w : str) : bool :=
  starts_with (literal p) w
  && match drop (length (literal p)) w, followed_by p with
     | [], WordBoundary => true
     | c :: _, OneOf cls => cls c
     | _, _ => false
     end.

Definition tok_sub (p : pattern) (repl : str) (w : str) : str :=
  if tok_match p w then repl ++ drop (length (literal p)) w else w.

#[global] Instance piece_eq_dec : EqDecision piece.
Proof. solve_decision. Defined.

(** Replace the occurrences of the piece sequence [Q] by [D], leftmost
    first, none overlapping; [skip] as in [sub_from]. *)
Fixpoint replace_seq (Q D : list piece) (skip : nat) (ps : list piece) : list piece :=
  match ps with
  | [] => []
  | x :: ps' =>
      match skip with
      | S k => replace_seq Q D k ps'
      | O =>
          if bool_decide (Q `prefix_of` ps)
          then D ++ replace_seq Q D (length Q - 1) ps'
          else x :: replace_seq Q D 0 ps'
      end
  end.

(** What the proofs need of a pattern: its literal opens with a word
    character; for a pattern on one word, the literal is a word and the
    lookahead class holds word characters only. *)
Definition opens_with_word (U : Unicode) (p : pattern) : Prop :=
  exists c l, literal p = c :: l /\ is_word U c = true.

Definition word_pattern (U : Unicode) (p : pattern) : Prop :=
  word U (literal p)
  /\ match followed_by p with
     | WordBoundary => True
     | OneOf cls => forall c, cls c = true -> is_word U c = true
     end.

(** The text is empty or opens with a character that is not a word character. *)
Definition opens_with_sep (U : Unicode) (s : str) : Prop :=
  is_word_opt U (head s) = false.

Definition ends_tok (ps : list piece) : bool :=
  match last ps with
  | Some (Tok _) => true
  | _ => false
  end.

(** A pattern that ends on [\b], with a literal that opens and closes on a
    word character, as a sequence of pieces. *)
Definition seq_pattern (U : Unicode) (p : pattern) : Prop :=
  followed_by p = WordBoundary
  /\ opens_with_word U p
  /\ is_word_opt U (last (literal p)) = true.

(** What a rule of the rewriter does to the pieces of a text. *)
Definition prule (U : Unicode) (rule : pattern * str) (ps : list piece) : list piece :=
  if forallb (is_word U) (literal rule.1)
  then on_words (tok_sub rule.1 rule.2) ps
  else replace_seq (pieces U (literal rule.1)) (pieces U rule.2) 0 ps.

(** The rules this theory covers, with replacements that keep words words. *)
Definition rule_ok (U : Unicode) (rule : pattern * str) : Prop :=
  if forallb (is_word U) (literal rule.1)
  then word_pattern U rule.1 /\ word U rule.2
  else seq_pattern U rule.1.

(** One list opens the other. *)
Definition comparable (a b : list piece) : bool :=
  bool_decide (a `prefix_of` b) || bool_decide (b `prefix_of` a).

(** No part of the replacement [D] can open, and no proper end of [Q] can run
    into, an occurrence of [Q]. *)
Definition no_overlap (D Q : list piece) : bool :=
  forallb (fun j => negb (comparable (drop j D) Q)) (seq 0 (length D))
  && forallb (fun o => negb (comparable (drop o Q) D)) (seq 1 (length Q - 1)).

(** One string opens the other. *)
Definition clash (a b : str) : bool := starts_with a b || starts_with b a.


(** The placeholders that are one word, the one that is not, and its words. *)
Definition word_literals : list str :=
  [py "mcpstack_your_tool_name"; py "YourTool"; py "your_tool_name"; py "MCP_YOUR_TOOL_NAME"].
Definition dist_literal : str := py "mcpstack-your-tool-name".
Definition dist_words : list str := [py "mcpstack"; py "your"; py "tool"; py "name"].

(** The replacements that are one word. *)
Definition word_values (names : NameSet) : list str :=
  [package_name names; class_name names; tool_slug names; env_prefix names].

(** The rules on one word, and the rule across words. *)
Definition word_rules (names : NameSet) : list (pattern * str) := [
  (whole_word "mcpstack_your_tool_name", package_name names);
  (compound "YourTool" upper_or_underscore, class_name names);
  (whole_word "YourTool", class_name names);
  (whole_word "your_tool_name", tool_slug names);
  (compound "MCP_YOUR_TOOL_NAME" upper_snake, env_prefix names);
  (whole_word "MCP_YOUR_TOOL_NAME", env_prefix names)
].
Definition dist_rule (names : NameSet) : pattern * str :=
  (whole_word "mcpstack-your-tool-name", dist_name names).

(** Names whose replacements cannot be taken for a placeholder:
    - no one-word replacement opens a one-word placeholder, is opened by one,
      or opens a word of the dist placeholder;
    - no word of the dist name opens with a one-word placeholder;
    - the dist name and the dist placeholder do not overlap, as sequences of
      words and separators. *)
Definition hazard_free (U : Unicode) (names : NameSet) : bool :=
  forallb (fun r => forallb (fun P => negb (clash r P)) word_literals
                    && forallb (fun q => negb (starts_with r q)) dist_words)
          (word_values names)
  && forallb (fun x => match x with
                       | Tok t => forallb (fun P => negb (starts_with P t)) word_literals
                       | Sep _ => true
                       end)
             (pieces U (dist_name names))
  && no_overlap (pieces U (dist_name names)) (pieces U dist_literal).



(** No rule's pattern matches the identifier [w] from its start. *)
Definition unrelated (names : NameSet) (w : str) : bool :=
  forallb (fun rule => negb (tok_match rule.1 w)) (patterns names).

(** [c] is a character that a compound rule for the placeholder [P] admits
    after it. *)
Definition allowed_after (names : NameSet) (P : str) (c : char) : bool :=
  existsb (fun rule => bool_decide (literal rule.1 = P)
                       && match followed_by rule.1 with
                          | OneOf cls => cls c
                          | WordBoundary => false
                          end)
          (patterns names).

(** What the rules after the first [n] make of the word [w]. *)
Definition later_rules (n : nat) (names : NameSet) (w : str) : str :=
  foldl (fun w rule => tok_sub rule.1 rule.2 w) w (drop n (patterns names)).


(** ** Slugs as typed, and names as saved *)

Definition is_letter (c : char) : bool := is_lower c || is_upper c.

(** [[A-Za-z][A-Za-z0-9_-]*]: a slug before [derive_names] normalises it. *)
Definition loose_slug : str -> bool := fullmatch_first_rest is_letter name_char.

(** The dict [derive_names] returns, and the configuration [init] saves:
    [cfg = {"names": names}]. *)
Definition names_dict (names : NameSet) : pyval :=
  PDict [("tool_slug"%string, PStr (tool_slug names));
         ("class_name"%string, PStr (class_name names));
         ("package_name"%string, PStr (package_name names));
         ("dist_name"%string, PStr (dist_name names));
         ("env_prefix"%string, PStr (env_prefix names))].
Definition config_of (names : NameSet) : pyval := PDict [("names"%string, names_dict names)].

(** One character of a slug through [.lower().replace("-", "_")]. *)
Definition snake_char (c : char) : char :=
  if is_char "-" (ascii_lower c) then code "_" else ascii_lower c.

(** ** The repository root

    An absolute path is the list of its parts below the anchor; the anchor,
    [[]], is its own parent.  [exists_ p] says whether there is something at
    [p].  The loop variable [p] of [_find_repo_root] is kept in reverse, its
    last part first, so that [p.parent] is the tail. *)
Fixpoint walk_up (exists_ : path -> bool) (upwards : list str) : option path :=
  match upwards with
  | [] => None
  | _ :: up =>
      let p := reverse upwards in
      if exists_ (p ++ [py "pyproject.toml"]) then Some p else walk_up exists_ up
  end.

Definition _find_repo_root (exists_ : path -> bool) (start : path) : path :=
  from_option id start (walk_up exists_ (reverse start)).

(** The template tree, checked out below a directory [node_modules]. *)
Definition below_node_modules : state :=
  {| tree := tree ten_files;
     root_parts := [py "/"; py "srv"; py "node_modules"; py "template"];
     trace := [] |}.

(** ** More on the rewriter *)

(** [needle in hay] *)
Fixpoint occurs (needle hay : str) : bool :=
  starts_with needle hay
  || match hay with
     | [] => false
     | _ :: rest => occurs needle rest
     end.

(** ** More on reset *)

(** The top-level names [reset] writes to. *)
Definition reset_targets : list str :=
  [py "src"; py "tests"; py "pyproject.toml"; py "README.md"; py "README.rst"].

Definition outside_reset (p : path) : Prop :=
  forall name, head p = Some name -> name ∉ reset_targets.


(** ** More on apply *)

(** Events that create or move a directory. *)
Definition moves_or_creates (e : event) : bool :=
  match e with
  | Move _ _ | Mkdir _ | Rmtree _ | Copytree _ _ | Copy2 _ _ => true
  | _ => false
  end.

(** The run added events to the trace, none of which creates, removes or
    moves anything but by writing a file. *)
Definition only_wrote (st st' : state) : Prop :=
  exists evs, trace st' = trace st ++ evs /\ existsb moves_or_creates evs = false.

(** A tree whose package holds an image besides its sources. *)
Definition with_logo : state :=
  {| tree := list_to_map [
       ([py "src"], Dir);
       ([py "src"; py "mcpstack_your_tool_name"], Dir);
       ([py "src"; py "mcpstack_your_tool_name"; py "tool.py"],
        File (Some (py "class YourTool: pass")));
       ([py "src"; py "mcpstack_your_tool_name"; py "logo.png"], File None);
       ([py "tests"], Dir);
       ([py "pyproject.toml"], File (Some (py "[project]")))];
     root_parts := [py "/"; py "repo"];
     trace := [] |}.

(** The package directory of the template, and where [_do_apply] moves it. *)
Definition old_pkg_dir : path := SRC ++ [py "mcpstack_your_tool_name"].
Definition new_pkg_dir (names : NameSet) : path := SRC ++ [package_name names].

(** What is at [q] once the loop of [_do_apply] has run on [st]. *)
Definition after_loop (U : Unicode) (names : NameSet) (st : state) (q : path) : option entry :=
  if decide (q ∈ changed U names st (iter_files st))
  then Some (File (Some (new_text U names st q)))
  else lookup_entry (tree st) q.

(** The tree once [shutil.move] has renamed the package directory. *)
Definition moved_tree (names : NameSet) (t : gmap (list str) entry) : gmap (list str) entry :=
  rebase old_pkg_dir (new_pkg_dir names) t ∪ remove_tree old_pkg_dir t.

(** ** The two template roots *)

(** [Path(__file__).resolve().parents[1]] *)
Definition parents_1 (file : path) : path := parent (parent file).

(** ** The saved configuration and the commands

    [json.loads] and [json.dumps] are taken as they come: [loads text] is
    [None] when [json.loads] raises, and a JSON [null] is read as a falsy
    value, which nothing in the script tells from [None].  The two template
    roots are taken to agree. *)

Definition CONFIG_PATH : path := [py ".mcpstack-tool.json"].

(** [try: body except Exception: handler] *)
Definition try_except {A : Type} (body : M A) (handler : M A) : M A :=
  fun st =>
    match body st with
    | (Return a, st') => (Return a, st')
    | (Raised _, st') => handler st'
    end.

Definition _save_config (dumps : pyval -> str) (cfg : pyval) : M unit :=
  write_text CONFIG_PATH (dumps cfg).

Definition _load_config (loads : str -> option pyval) : M (option pyval) :=
  there <- path_exists CONFIG_PATH ;;
  if there then
    try_except (text <- read_text CONFIG_PATH ;;
                cfg <- lift (loads text) ;;
                ret (Some cfg))
               (ret None)
  else ret None.

(** A pure outcome as a step of a run. *)
Definition of_result {A : Type} (r : result A) : M A :=
  match r with
  | Return a => ret a
  | Raised e => raise e
  end.

(** [_ensure_names_from_sources] where it stands, the configuration being
    loaded from the tree when it is to be consulted. *)
Definition names_from_sources (loads : str -> option pyval) (U : Unicode)
    (tool_slug class_name package_name dist_name env_prefix : option str)
    (prefer_config : bool) : M NameSet :=
  loaded <- (if prefer_config then _load_config loads else ret None) ;;
  of_result (_ensure_names_from_sources U tool_slug class_name package_name dist_name
               env_prefix prefer_config loaded).

Definition sample_path : path := SRC ++ [py "mcpstack_your_tool_name"; py "tool.py"].

(** [_do_preview] gives what it prints below the names: the sample file
    after replacement, or [None] when it prints that there is no sample.
    The panel with the names is not recorded. *)
Definition _do_preview (U : Unicode) (names : NameSet) : M (option str) :=
  there <- path_exists sample_path ;;
  if there then
    sample <- read_text sample_path ;;
    preview_text <- lift (replace_in_text U sample names) ;;
    ret (Some preview_text)
  else
    emit (Printed "" "[yellow]Example file not found; showing only names.[/yellow]") ;;;
    ret None.

Definition preview (loads : str -> option pyval) (U : Unicode)
    (tool_slug class_name package_name dist_name env_prefix : option str)
    (use_config : bool) : M (option str) :=
  names <- names_from_sources loads U tool_slug class_name package_name dist_name env_prefix
             use_config ;;
  _do_preview U names.

Definition apply (loads : str -> option pyval) (U : Unicode)
    (tool_slug class_name package_name dist_name env_prefix : option str)
    (use_config yes answer : bool) : M unit :=
  names <- names_from_sources loads U tool_slug class_name package_name dist_name env_prefix
             use_config ;;
  _do_apply U names yes answer.

(** The names [init] derives from the flags and the configuration that is
    there: the statements before and after the block of prompts. *)
Definition init_derived (U : Unicode)
    (tool_slug class_name package_name dist_name env_prefix : option str)
    (loaded : option pyval) : result NameSet :=
  let cfg_existing := match loaded with
                      | Some c => if truthy c then c else PDict []
                      | None => PDict []
                      end in
  result_bind (py_get cfg_existing "names" (PDict [])) (fun existing =>
  result_bind (flag_or tool_slug
                 (py_get existing "tool_slug" (PStr default_tool_slug))) (fun v1 =>
  result_bind (flag_or class_name
                 (py_get existing "class_name" (PStr default_class_name))) (fun v2 =>
  result_bind (flag_or package_name (py_get existing "package_name" (POther false))) (fun v3 =>
  result_bind (flag_or dist_name (py_get existing "dist_name" (POther false))) (fun v4 =>
  result_bind (flag_or env_prefix (py_get existing "env_prefix" (POther false))) (fun v5 =>
  result_bind (as_str v1) (fun slug =>
  result_bind (as_str v2) (fun cls =>
  result_bind (as_optional v3) (fun pkg =>
  result_bind (as_optional v4) (fun dist =>
  result_bind (as_optional v5) (fun env =>
  Return (derive_names U slug cls pkg dist env)))))))))))).

(** What [_load_config] finds in a tree. *)
Definition config_in (loads : str -> option pyval) (t : gmap (list str) entry) : option pyval :=
  match lookup_entry t CONFIG_PATH with
  | Some (File (Some text)) => loads text
  | _ => None
  end.

(** ** validate *)

(** [PLACEHOLDERS.values()], in the order of the dict. *)
Definition placeholder_values : list str :=
  [tool_slug PLACEHOLDERS; class_name PLACEHOLDERS; package_name PLACEHOLDERS;
   dist_name PLACEHOLDERS; env_prefix PLACEHOLDERS].

(** A text of ASCII characters as it is printed. *)
Definition show (s : str) : string := string_of_list_ascii (ascii_of_N <$> s).

(** ["\n".join(lines)] *)
Definition join_lines (lines : list string) : string :=
  String.concat (String "010" EmptyString) lines.

(** A loop that [break] may leave: the body says whether it did. *)
Fixpoint for_each_until {A S : Type} (l : list A) (body : A -> S -> M (S * bool)) (s : S)
    : M (S * bool) :=
  match l with
  | [] => ret (s, false)
  | a :: l' => r <- body a s ;; if r.2 then ret r else for_each_until l' body r.1
  end.

(** One candidate of the two listings, in such a loop. *)
Definition guarded_until {S : Type} (body : path -> S -> M (S * bool)) (p : path) (s : S)
    : M (S * bool) :=
  regular <- is_file p ;;
  if negb regular then ret (s, false)
  else root <- get_root_parts ;;
       if _skip_path root p then ret (s, false) else body p s.

(** [for p in iter_files(): s = body(p, s)] with a body that may [break]:
    the generator is then left where it stands, and [pyproject.toml] is not
    looked for. *)
Definition for_iter_files_until {S : Type} (body : path -> S -> M (S * bool)) (s : S) : M S :=
  src_exists <- path_exists SRC ;;
  both <- (if src_exists then path_exists TESTS else ret false) ;;
  r <- (if both then
          in_src <- rglob SRC ;;
          in_tests <- rglob TESTS ;;
          for_each_until (in_src ++ in_tests) (guarded_until body) s
        else ret (s, false)) ;;
  if r.2 then ret r.1
  else
    let pyproj := [py "pyproject.toml"] in
    there <- path_exists pyproj ;;
    regular <- (if there then is_file pyproj else ret false) ;;
    if regular then r' <- body pyproj r.1 ;; ret r'.1 else ret r.1.

(** The body of the inner loop of [validate]. *)
Definition check_file (val : str) (p : path) (found : bool) : M (bool * bool) :=
  txt <- read_text p ;;
  if occurs val txt then ret (true, true) else ret (found, false).

(** The inner loop of [validate]; gives the final value of [found]. *)
Definition look_for (val : str) : M bool :=
  for_iter_files_until (check_file val) false.

(** [validate] gives the list [missing], which it also prints. *)
Definition validate : M (list str) :=
  missing <- for_each placeholder_values
               (fun val missing =>
                  found <- look_for val ;;
                  if found then ret missing else ret (missing ++ [val])) [] ;;
  match missing with
  | _ :: _ => print_panel "[yellow]Some placeholders not found[/yellow]"
                (join_lines (show <$> missing))
  | [] => print_panel "[green]OK[/green]" "All core placeholders present."
  end ;;;
  ret missing.

(** What the inner loop of [validate] comes to on a list of files. *)
Fixpoint search (t : gmap (list str) entry) (val : str) (files : list path) : result bool :=
  match files with
  | [] => Return false
  | p :: rest =>
      match lookup_entry t p with
      | Some (File (Some txt)) => if occurs val txt then Return true else search t val rest
      | _ => Raised Error
      end
  end.

(** Events that only look at the tree. *)
Definition looks (e : event) : bool :=
  match e with
  | Exists _ | IsFile _ | Rglob _ | ReadText _ => true
  | _ => false
  end.

(** What [validate] finds missing among [vals], given the files. *)
Fixpoint report (t : gmap (list str) entry) (files : list path) (vals missing : list str)
    : result (list str) :=
  match vals with
  | [] => Return missing
  | val :: rest =>
      match search t val files with
      | Return found => report t files rest (if found then missing else missing ++ [val])
      | Raised e => Raised e
      end
  end.

(** ** init *)

(** [init --non-interactive], where the block of prompts is not run.
    [preview_now] and [apply_now] are the answers to its two closing
    questions, [answer] the answer to the question [_do_apply] asks in turn.
    Of the panels [init] prints itself, the one that refuses the names is
    recorded. *)
Definition init (loads : str -> option pyval) (dumps : pyval -> str) (U : Unicode)
    (tool_slug class_name package_name dist_name env_prefix : option str)
    (preview_now apply_now answer : bool) : M unit :=
  loaded <- _load_config loads ;;
  names <- of_result (init_derived U tool_slug class_name package_name dist_name env_prefix
                        loaded) ;;
  let '(ok, errs) := is_valid_names names in
  if negb ok then
    print_panel "[red]Invalid names[/red]" (join_lines errs) ;;;
    raise (Exit 1)
  else
    _save_config dumps (config_of names) ;;;
    go <- confirm_ask "👀 Run a preview now?" preview_now ;;
    (if go then _do_preview U names ;;; ret tt else ret tt) ;;;
    go <- confirm_ask "🚀 Apply changes now?" apply_now ;;
    if go then _do_apply U names false answer else ret tt.


(** * Properties *)

(** ** Derivation and validation *)

(** C5: [derive_names("my_tool", "MyTool")] without overrides gives package
    [mcpstack_my_tool], distribution [mcpstack-my-tool] and prefix
    [MCP_MY_TOOL]; and whatever the arguments, derivation returns a name set:
    the normalised slug, the class name as given, and a package, distribution
    and prefix that are never empty. *)
Theorem derive_names_total (U : Unicode) :
  derive_names U (py "my_tool") (py "MyTool") None None None
  = {| tool_slug := py "my_tool"; class_name := py "MyTool";
       package_name := py "mcpstack_my_tool"; dist_name := py "mcpstack-my-tool";
       env_prefix := py "MCP_MY_TOOL" |}
  /\ forall slug cls pkg dist env,
       exists n, derive_names U slug cls pkg dist env = n
         /\ tool_slug n = replace_char "-" "_" (lower U slug)
         /\ class_name n = cls
         /\ package_name n <> [] /\ dist_name n <> [] /\ env_prefix n <> [].
Proof.
  split; [vm_compute; reflexivity|].
  intros slug cls pkg dist env. eexists; split; [reflexivity|].
  repeat split; cbn [derive_names tool_slug class_name package_name dist_name env_prefix].
  - destruct pkg as [[|c s]|]; discriminate.
  - destruct dist as [[|c s]|]; discriminate.
  - destruct env as [[|c s]|]; discriminate.
Qed.

Lemma check_app ok msg errs :
  check ok msg errs = errs ++ (if ok then [] else [msg]).
Proof. destruct ok; simpl; [by rewrite app_nil_r | done]. Qed.

Lemma is_valid_names_errs names : (is_valid_names names).2 = violations names.
Proof.
  unfold is_valid_names, violations. cbn [snd].
  rewrite !check_app. cbn [app]. by rewrite <- !app_assoc.
Qed.

Lemma is_valid_names_ok names :
  (is_valid_names names).1 = true <-> (is_valid_names names).2 = [].
Proof.
  unfold is_valid_names. cbn [fst snd].
  destruct (check _ _ _); cbn; split; congruence.
Qed.

(** C6: the validator runs its five checks one after the other whatever the
    earlier ones found, and returns every failure in the order of the
    fields; two violations (slug [My-Tool], prefix [mcp_x]) give exactly the
    two messages; and [ok] holds exactly when there is no message. *)
Theorem is_valid_names_complete :
  (forall names,
     (is_valid_names names).2 = violations names
     /\ length (is_valid_names names).2
        = length (filter (fun b => b = false)
            [match_snake (tool_slug names); match_pascal (class_name names);
             match_snake (package_name names); match_kebab (dist_name names);
             match_upper_snake (env_prefix names)])
     /\ ((is_valid_names names).1 = true <-> (is_valid_names names).2 = []))
  /\ is_valid_names
       {| tool_slug := py "My-Tool"; class_name := py "MyTool";
          package_name := py "mcpstack_my_tool"; dist_name := py "mcpstack-my-tool";
          env_prefix := py "mcp_x" |}
     = (false, [err_tool_slug; err_env_prefix]).
Proof.
  split; [|vm_compute; reflexivity].
  intros names. split; [apply is_valid_names_errs|]. split; [|apply is_valid_names_ok].
  rewrite is_valid_names_errs. unfold violations.
  destruct (match_snake (tool_slug names)), (match_pascal (class_name names)),
    (match_snake (package_name names)), (match_kebab (dist_name names)),
    (match_upper_snake (env_prefix names)); reflexivity.
Qed.

(** ** Name resolution *)

Lemma or_else_precedence flag st d :
  or_else (match supplied flag with Some v => Some v | None => supplied st end) d
  = precedence (supplied flag) (supplied st) d.
Proof. destruct flag as [[|c s]|], st as [[|c' s']|]; reflexivity. Qed.

Lemma flag_or_get flag fields key d :
  string_or_absent fields key = true ->
  flag_or flag (py_get (PDict fields) key d)
  = Return (match supplied flag with
            | Some v => PStr v
            | None => match stored fields key with Some v => PStr v | None => d end
            end).
Proof.
  unfold string_or_absent, stored, py_get. intros H.
  destruct flag as [[|c s]|]; cbn; try reflexivity;
    destruct (dict_get fields key) as [[]|]; cbn; congruence.
Qed.

Lemma as_str_precedence flag st d :
  as_str (match supplied flag with
          | Some v => PStr v
          | None => match st with Some v => PStr v | None => PStr d end
          end) = Return (precedence (supplied flag) st d).
Proof. destruct flag as [[|c s]|], st; reflexivity. Qed.

Lemma as_optional_precedence flag st :
  as_optional (match supplied flag with
               | Some v => PStr v
               | None => match st with Some v => PStr v | None => POther false end
               end)
  = Return (match supplied flag with Some v => Some v | None => supplied st end).
Proof. destruct flag as [[|c s]|], st as [[|c' s']|]; reflexivity. Qed.

Lemma ensure_from_fields prefer loaded :
  well_typed prefer loaded = true ->
  (match (if prefer then loaded else None) with
   | Some c => if truthy c then py_get c "names" (PDict []) else Return (PDict [])
   | None => Return (PDict [])
   end) = Return (PDict (saved_names prefer loaded))
  /\ forallb (string_or_absent (saved_names prefer loaded)) field_keys = true.
Proof.
  unfold well_typed, saved_names. destruct (if prefer then loaded else None) as [c|]; [|done].
  destruct c as [s|items|b]; cbn.
  - destruct s; [done|discriminate].
  - destruct items as [|kv items]; [done|]. cbn [truthy py_get].
    destruct (dict_get (kv :: items) "names") as [[]|]; cbn; try done.
  - destruct b; [discriminate|done].
Qed.

(** C4, as amended: with a saved configuration of the shape the script
    writes, every field is resolved by the same three tiers, each on its own:
    a non-empty flag, else the stored value, else the default.  The slug and
    the class name fall back on their placeholder when the configuration has
    no such key; package, distribution and prefix take a non-empty stored
    value, else the formula on the resolved slug.  The slug is normalised
    (lower case, hyphens to underscores), and the resolved set is returned
    when valid and refused with the validator's messages otherwise. *)
Theorem resolution_precedence (U : Unicode) (ts cn pn dn ep : option str)
    (prefer_config : bool) (loaded : option pyval) :
  well_typed prefer_config loaded = true ->
  let fields := saved_names prefer_config loaded in
  let slug_in := precedence (supplied ts) (stored fields "tool_slug") default_tool_slug in
  let slug := replace_char "-" "_" (lower U slug_in) in
  _ensure_names_from_sources U ts cn pn dn ep prefer_config loaded
  = validated
      {| tool_slug := slug;
         class_name := precedence (supplied cn) (stored fields "class_name") default_class_name;
         package_name := precedence (supplied pn) (supplied (stored fields "package_name"))
                           (py "mcpstack_" ++ slug);
         dist_name := precedence (supplied dn) (supplied (stored fields "dist_name"))
                        (py "mcpstack-" ++ replace_char "_" "-" (lower U slug_in));
         env_prefix := precedence (supplied ep) (supplied (stored fields "env_prefix"))
                         (py "MCP_" ++ upper U slug) |}.
Proof.
  intros Hwt fields slug_in slug.
  destruct (ensure_from_fields _ _ Hwt) as [Hsrc Hall].
  unfold _ensure_names_from_sources. rewrite Hsrc. cbn [result_bind].
  fold fields in Hall |- *.
  cbn [forallb field_keys] in Hall.
  repeat (apply andb_prop in Hall as [? Hall]).
  rewrite !flag_or_get by assumption. cbn [result_bind].
  rewrite !as_str_precedence, !as_optional_precedence. cbn [result_bind].
  unfold validated, derive_names. rewrite !or_else_precedence.
  fold slug_in. fold slug.
  destruct (is_valid_names _) as [[] errs]; reflexivity.
Qed.

Lemma resolution_precedence_witness :
  well_typed true
    (Some (PDict [("names"%string,
                   PDict [("tool_slug"%string, PStr (py "saved"));
                          ("class_name"%string, PStr (py "Saved"));
                          ("package_name"%string, PStr (py "saved_pkg"));
                          ("dist_name"%string, PStr (py "saved-dist"))])])) = true
  /\ _ensure_names_from_sources no_unicode (Some (py "My-Tool")) None None (Some (py "my-dist")) None true
    (Some (PDict [("names"%string,
                   PDict [("tool_slug"%string, PStr (py "saved"));
                          ("class_name"%string, PStr (py "Saved"));
                          ("package_name"%string, PStr (py "saved_pkg"));
                          ("dist_name"%string, PStr (py "saved-dist"))])]))
  = Return {| tool_slug := py "my_tool"; class_name := py "Saved";
              package_name := py "saved_pkg"; dist_name := py "my-dist";
              env_prefix := py "MCP_MY_TOOL" |}.
Proof.
  split; [reflexivity|].
  rewrite resolution_precedence by reflexivity. vm_compute. reflexivity.
Defined.

(** C4 as stated fails: [--env-prefix ""] is an explicit override, yet the
    stored prefix is used (and the call succeeds, where the empty prefix
    would have been refused). *)
Lemma empty_override_gives_way :
  _ensure_names_from_sources no_unicode None None None None (Some []) true
    (Some (PDict [("names"%string, PDict [("env_prefix"%string, PStr (py "MCP_SAVED"))])]))
  = Return {| tool_slug := py "mimic"; class_name := py "Mimic";
              package_name := py "mcpstack_mimic"; dist_name := py "mcpstack-mimic";
              env_prefix := py "MCP_SAVED" |}.
Proof. vm_compute. reflexivity. Qed.


(** ** apply *)

(** C9: without [--yes], when the user declines, [_do_apply] leaves with
    [typer.Exit()] (status 0) right after the question: the tree is as it
    was, and nothing was read, written or moved. *)
Theorem do_apply_declined (U : Unicode) (names : NameSet) (st : state) :
  _do_apply U names false false st
  = (Raised (Exit 0),
     {| tree := tree st; root_parts := root_parts st;
        trace := trace st ++ [Asked "This will modify files. Continue?" false] |}).
Proof. reflexivity. Qed.

(** ** reset *)

Lemma logged_logged st a b : logged (logged st a) b = logged st (a ++ b).
Proof. unfold logged; cbn. by rewrite app_assoc. Qed.

Lemma run_bind {A B} (m : M A) (k : A -> M B) st :
  bind m k st = match m st with
                | (Return a, st') => k a st'
                | (Raised e, st') => (Raised e, st')
                end.
Proof. reflexivity. Qed.

Lemma run_path_exists p st :
  path_exists p st = (Return (exists_in (tree st) p), logged st [Exists p]).
Proof. reflexivity. Qed.

Lemma run_rmtree p st :
  rmtree p st
  = if is_dir_in (tree st) p
    then (Return tt, with_tree (logged st [Rmtree p]) (remove_tree p (tree st)))
    else (Raised Error, logged st [Rmtree p]).
Proof. unfold rmtree, bind, emit, get_tree, set_tree, raise; cbn. by destruct (is_dir_in _ _). Qed.

Lemma remove_tree_lookup_within p q t : within p q -> remove_tree p t !! q = None.
Proof.
  intros H. unfold remove_tree. apply map_lookup_filter_None. right. intros x _ Hn. by apply Hn.
Qed.

Lemma remove_tree_lookup_other p q t : ~ within p q -> remove_tree p t !! q = t !! q.
Proof.
  intros H. unfold remove_tree. destruct (t !! q) as [e|] eqn:E.
  - apply map_lookup_filter_Some. done.
  - apply map_lookup_filter_None. by left.
Qed.


Lemma frames_ret {A} P (a : A) : frames P (ret a).
Proof. intros st; split; [done|]. exists []. cbn. by rewrite app_nil_r. Qed.

Lemma frames_raise {A} P e : frames P (@raise A e).
Proof. intros st; split; [done|]. exists []. cbn. by rewrite app_nil_r. Qed.

Lemma frames_emit P e : frames P (emit e).
Proof. intros st; split; [done|]. by exists [e]. Qed.

Lemma frames_bind {A B} P (m : M A) (k : A -> M B) :
  frames P m -> (forall a, frames P (k a)) -> frames P (bind m k).
Proof.
  intros Hm Hk st. unfold bind. destruct (Hm st) as [Ht [evs Hevs]].
  destruct (m st) as [[a|e] st1]; cbn in *; [|eauto].
  destruct (Hk a st1) as [Ht' [evs' Hevs']]. split.
  - intros p Hp. rewrite Ht' by done. by apply Ht.
  - exists (evs ++ evs'). by rewrite Hevs', Hevs, app_assoc.
Qed.

Lemma frames_get_tree P : frames P get_tree.
Proof. intros st; split; [done|]. exists []. cbn. by rewrite app_nil_r. Qed.

Lemma frames_path_exists P p : frames P (path_exists p).
Proof. intros st; split; [done|]. by exists [Exists p]. Qed.

Lemma frames_warn_skipped P w : frames P (warn_skipped w).
Proof. apply frames_emit. Qed.

Lemma run_copy2 src dst st :
  copy2 src dst st
  = let st1 := logged st [Copy2 src dst] in
    match lookup_entry (tree st) src with
    | Some (File content) =>
        let real_dst := if is_dir_in (tree st) dst then dst ++ [basename src] else dst in
        if is_dir_in (tree st) real_dst then (Raised Error, st1)
        else if is_dir_in (tree st) (parent real_dst)
        then (Return tt, with_tree st1 (<[real_dst := File content]> (tree st)))
        else (Raised Error, st1)
    | _ => (Raised Error, st1)
    end.
Proof.
  unfold copy2, bind, emit, get_tree, set_tree, raise. cbn.
  destruct (lookup_entry (tree st) src) as [[content|]|]; [|done|done].
  destruct (is_dir_in (tree st) dst);
    (destruct (is_dir_in (tree st) _); [done|]); by destruct (is_dir_in (tree st) (parent _)).
Qed.

Lemma frames_copy2 (P : path -> Prop) src dst :
  (forall p, P p -> p <> dst /\ p <> dst ++ [basename src]) ->
  frames P (copy2 src dst).
Proof.
  intros HP st. rewrite run_copy2. cbn zeta.
  assert (Hev : exists evs, trace st ++ [Copy2 src dst] = trace st ++ evs) by eauto.
  destruct (lookup_entry (tree st) src) as [[content|]|]; [|done|done].
  set (real_dst := if is_dir_in (tree st) dst then _ else _).
  assert (forall p, P p -> real_dst <> p) as Hne.
  { intros p Hp. destruct (HP p Hp). subst real_dst. by destruct (is_dir_in (tree st) dst). }
  destruct (is_dir_in (tree st) real_dst); [done|].
  destruct (is_dir_in (tree st) (parent _)); [|done].
  split; [|done]. intros p Hp. cbn. apply lookup_insert_ne. by apply Hne.
Qed.

Lemma frames_replace_file P member dest label :
  (forall p, P p -> p <> dest /\ p <> dest ++ [basename member]) ->
  frames P (replace_file member dest label).
Proof.
  intros HP. apply frames_bind; [apply frames_path_exists|].
  intros []; [by apply frames_copy2 | apply frames_warn_skipped].
Qed.

Lemma exists_in_lookup t p : p <> [] -> exists_in t p = bool_decide (is_Some (t !! p)).
Proof.
  intros Hp. unfold exists_in, lookup_entry. destruct p; [done|].
  destruct (t !! _); symmetry; [by apply bool_decide_eq_true | apply bool_decide_eq_false].
  by intros [? ?].
Qed.


Lemma rebase_lookup_outside src dst t p : ~ within dst p -> rebase src dst t !! p = None.
Proof.
  intros Hp. unfold rebase. apply not_elem_of_list_to_map_1.
  rewrite <- list_fmap_compose. intros Hin.
  apply list_elem_of_fmap in Hin as [[k v] [-> _]]. cbn in Hp.
  apply Hp. by apply prefix_app_r.
Qed.

Lemma make_dirs_nil t : make_dirs t [] = Some t.
Proof. reflexivity. Qed.


Lemma frames_rmtree (P : path -> Prop) target :
  (forall p, P p -> ~ within target p) -> frames P (rmtree target).
Proof.
  intros HP st. rewrite run_rmtree.
  destruct (is_dir_in (tree st) target); cbn; (split; [|by eauto]); [|done].
  intros p Hp. apply remove_tree_lookup_other. by apply HP.
Qed.

Lemma frames_copytree_top (P : path -> Prop) src name :
  (forall p, P p -> ~ within [name] p) -> frames P (copytree src [name]).
Proof.
  intros HP st. unfold copytree, bind, emit, get_tree, set_tree, raise. cbn.
  destruct (is_dir_in (tree st) src && negb (exists_in (tree st) [name])); cbn;
    (split; [|by eauto]); [|done].
  intros p Hp. rewrite lookup_union_r; [done|]. apply rebase_lookup_outside. by apply HP.
Qed.

Lemma frames_replace_tree (P : path -> Prop) name member label :
  (forall p, P p -> ~ within [name] p) -> frames P (replace_tree [name] member label).
Proof.
  intros HP. unfold replace_tree.
  apply frames_bind; [apply frames_path_exists|]. intros e.
  apply frames_bind; [destruct e; [by apply frames_rmtree | apply frames_ret]|]. intros _.
  apply frames_bind; [apply frames_path_exists|].
  intros []; [by apply frames_copytree_top | apply frames_warn_skipped].
Qed.

Lemma within_top_head a p : within [a] p -> head p = Some a.
Proof. intros [k ->]. reflexivity. Qed.








(** ** Tree enumeration and the loop of apply *)

Lemma run_is_file p st :
  is_file p st = (Return (is_file_in (tree st) p), logged st [IsFile p]).
Proof. reflexivity. Qed.

Lemma run_rglob p st :
  rglob p st = (Return (rglob_in (tree st) p), logged st [Rglob p]).
Proof. reflexivity. Qed.

Lemma for_iter_files_eq {S} (body : path -> S -> M S) (s : S) :
  for_iter_files body s
  = (src_exists <- path_exists SRC ;;
     both <- (if src_exists then path_exists TESTS else ret false) ;;
     s <- (if both then
             in_src <- rglob SRC ;;
             in_tests <- rglob TESTS ;;
             for_each (in_src ++ in_tests) (guarded body) s
           else ret s) ;;
     there <- path_exists pyproject ;;
     regular <- (if there then is_file pyproject else ret false) ;;
     if regular then body pyproject s else ret s).
Proof. reflexivity. Qed.

Lemma run_get_root_parts st : get_root_parts st = (Return (root_parts st), st).
Proof. reflexivity. Qed.

Lemma run_ret {A} (a : A) st : ret a st = (Return a, st).
Proof. reflexivity. Qed.

Lemma run_guarded {S} (body : path -> S -> M S) p s st :
  guarded body p s st
  = if selected st p then body p s (logged st [IsFile p])
    else (Return s, logged st [IsFile p]).
Proof.
  unfold guarded, selected. rewrite run_bind, run_is_file.
  destruct (is_file_in (tree st) p); [|done]. cbn [negb andb].
  rewrite run_bind, run_get_root_parts. cbn [logged root_parts].
  by destruct (_skip_path (root_parts st) p).
Qed.

Lemma collect_loop l acc st :
  exists evs,
    for_each l (guarded (fun p acc => ret (acc ++ [p]))) acc st
    = (Return (acc ++ filter (fun p => selected st p) l), logged st evs).
Proof.
  revert acc st. induction l as [|p l IH]; intros acc st.
  - exists []. cbn. unfold logged. rewrite !app_nil_r. by destruct st.
  - cbn [for_each]. rewrite run_bind, run_guarded.
    destruct (selected st p) eqn:Hs.
    + rewrite run_ret. destruct (IH (acc ++ [p]) (logged st [IsFile p])) as [evs ->].
      exists ([IsFile p] ++ evs). rewrite logged_logged.
      rewrite filter_cons_True by (by rewrite Hs). by rewrite <- app_assoc.
    + destruct (IH acc (logged st [IsFile p])) as [evs ->].
      exists ([IsFile p] ++ evs). rewrite logged_logged.
      rewrite filter_cons_False; [done|]. rewrite Hs. naive_solver.
Qed.

Lemma for_iter_files_run {S} (body : path -> S -> M S) (s : S) st :
  exists evs,
    written evs = [] /\
    for_iter_files body s st
    = (s <- for_each (candidates (tree st)) (guarded body) s ;;
       there <- path_exists pyproject ;;
       regular <- (if there then is_file pyproject else ret false) ;;
       if regular then body pyproject s else ret s) (logged st evs).
Proof.
  rewrite for_iter_files_eq. rewrite run_bind, run_path_exists.
  unfold candidates. destruct (exists_in (tree st) SRC).
  - rewrite run_bind, run_path_exists. cbn [logged tree andb].
    destruct (exists_in (tree st) TESTS).
    + exists [Exists SRC; Exists TESTS; Rglob SRC; Rglob TESTS]. split; [done|].
      rewrite !logged_logged. rewrite !run_bind. rewrite run_rglob.
      rewrite run_bind, run_rglob. cbn [logged tree]. by rewrite !logged_logged.
    + exists [Exists SRC; Exists TESTS]. split; [done|]. by rewrite !logged_logged.
  - exists [Exists SRC]. split; [done|]. reflexivity.
Qed.

Lemma iter_files_eq st :
  iter_files st
  = filter (fun p => selected st p) (candidates (tree st))
    ++ (if is_file_in (tree st) pyproject then [pyproject] else []).
Proof.
  unfold iter_files.
  destruct (for_iter_files_run (fun p acc => ret (acc ++ [p])) [] st) as [evs [_ ->]].
  rewrite run_bind.
  destruct (collect_loop (candidates (tree st)) [] (logged st evs)) as [evs' Hl].
  cbn [logged tree] in Hl. rewrite Hl. cbn [app].
  rewrite run_bind, run_path_exists. cbn [logged tree].
  unfold is_file_in, exists_in.
  destruct (lookup_entry (tree st) pyproject) as [[]|] eqn:E.
  - rewrite run_bind, run_is_file. cbn [logged tree]. unfold is_file_in. rewrite E. done.
  - rewrite run_bind, run_is_file. cbn [logged tree]. unfold is_file_in. rewrite E. cbn.
    by rewrite app_nil_r.
  - cbn. by rewrite app_nil_r.
Qed.

Lemma elem_of_rglob_in t r p :
  p ∈ rglob_in t r <-> is_dir_in t r = true /\ below r p /\ is_Some (t !! p).
Proof.
  unfold rglob_in. destruct (is_dir_in t r).
  - rewrite list_elem_of_filter, list_elem_of_fmap. split.
    + intros [Hb [[k e] [-> Hin%elem_of_map_to_list]]]. cbn in *. eauto.
    + intros (_ & Hb & [e He]). split; [done|]. exists (p, e). split; [done|].
      by apply elem_of_map_to_list.
  - split; [by intros ?%elem_of_nil | by intros [? _]].
Qed.


Lemma selected_iff st p :
  selected st p <-> is_file_in (tree st) p = true /\ _skip_path (root_parts st) p = false.
Proof.
  unfold selected. destruct (is_file_in _ _), (_skip_path _ _); cbn; intuition congruence.
Qed.



Lemma name_char_not_backslash c : name_char c = true -> is_char "\" c = false.
Proof.
  unfold is_char. destruct (N.eqb_spec c (code "\")) as [->|]; [|done].
  vm_compute. discriminate.
Qed.

Lemma fullmatch_name_chars first rest s :
  (forall c, first c = true -> name_char c = true) ->
  (forall c, rest c = true -> name_char c = true) ->
  fullmatch_first_rest first rest s = true -> forallb name_char s = true.
Proof.
  intros Hf Hr. destruct s as [|c s]; [done|]. cbn.
  intros [H1 H2]%andb_prop. apply andb_true_intro; split; [by apply Hf|].
  apply forallb_forall. intros x Hx. apply Hr.
  by apply (proj1 (forallb_forall _ _) H2).
Qed.

Lemma no_backslash s : forallb name_char s = true -> existsb (is_char "\") s = false.
Proof.
  induction s as [|c s IH]; [done|]. cbn. intros [H1 H2]%andb_prop.
  by rewrite (name_char_not_backslash c), IH.
Qed.

Ltac name_char_class :=
  let c := fresh "c" in
  intros c; unfold name_char, snake_rest, pascal_rest, kebab_first, kebab_rest, upper_snake;
  destruct (is_lower c), (is_upper c), (is_digit c), (is_char "_" c), (is_char "-" c);
  cbn; congruence.

Lemma valid_fields names :
  valid names ->
  match_snake (tool_slug names) = true /\ match_pascal (class_name names) = true
  /\ match_snake (package_name names) = true /\ match_kebab (dist_name names) = true
  /\ match_upper_snake (env_prefix names) = true.
Proof.
  unfold valid. rewrite is_valid_names_ok, is_valid_names_errs. unfold violations.
  destruct (match_snake (tool_slug names)), (match_pascal (class_name names)),
    (match_snake (package_name names)), (match_kebab (dist_name names)),
    (match_upper_snake (env_prefix names)); cbn; try discriminate. done.
Qed.

Lemma valid_name_chars names :
  valid names ->
  forallb name_char (tool_slug names) = true /\ forallb name_char (class_name names) = true
  /\ forallb name_char (package_name names) = true /\ forallb name_char (dist_name names) = true
  /\ forallb name_char (env_prefix names) = true.
Proof.
  intros (H1 & H2 & H3 & H4 & H5)%valid_fields.
  repeat split; eapply fullmatch_name_chars; try eassumption; name_char_class.
Qed.

Lemma re_sub_plain U p repl text :
  forallb name_char repl = true -> re_sub U p repl text = Some (sub U p repl text).
Proof. intros H. unfold re_sub. by rewrite no_backslash. Qed.

(** With valid names no replacement is a template: the rewriter returns. *)
Lemma replace_in_text_valid U names text :
  valid names -> replace_in_text U text names = Some (rewrite U names text).
Proof.
  intros (H1 & H2 & H3 & H4 & H5)%valid_name_chars.
  unfold replace_in_text, apply_rules, rewrite, patterns. cbn [foldl fst snd].
  repeat (change (Some ?x ≫= ?f) with (f x); rewrite re_sub_plain by assumption).
  reflexivity.
Qed.

Lemma run_read_text p st :
  read_text p st
  = match lookup_entry (tree st) p with
    | Some (File (Some text)) => (Return text, logged st [ReadText p])
    | _ => (Raised Error, logged st [ReadText p])
    end.
Proof.
  unfold read_text, bind, emit, get_tree, ret, raise. cbn.
  by destruct (lookup_entry (tree st) p) as [[[]|]|].
Qed.

Lemma run_write_text_file p text old st :
  lookup_entry (tree st) p = Some (File old) ->
  write_text p text st
  = (Return tt, with_tree (logged st [WriteText p text]) (<[p := File (Some text)]> (tree st))).
Proof.
  intros H. unfold write_text, bind, emit, get_tree, set_tree. cbn. by rewrite H.
Qed.

Lemma lookup_entry_insert t p q e :
  p <> [] -> lookup_entry (<[p := e]> t) q = if decide (p = q) then Some e else lookup_entry t q.
Proof.
  intros Hp. destruct q as [|a q].
  - cbn. by destruct (decide (p = [])).
  - cbn. by rewrite lookup_insert.
Qed.

Lemma lookup_entry_file_nonempty t p e : lookup_entry t p = Some (File e) -> p <> [].
Proof. by intros H ->. Qed.

(** One turn of the loop on a file that is text. *)
Lemma run_rewrite_body U names p n st txt :
  valid names ->
  lookup_entry (tree st) p = Some (File (Some txt)) ->
  rewrite_body U names p n st
  = if bool_decide (rewrite U names txt <> txt)
    then (Return (n + 1)%nat,
          with_tree (logged st [ReadText p; WriteText p (rewrite U names txt)])
                    (<[p := File (Some (rewrite U names txt))]> (tree st)))
    else (Return n, logged st [ReadText p]).
Proof.
  intros Hv Hp. unfold rewrite_body.
  rewrite run_bind, run_read_text, Hp. rewrite replace_in_text_valid by done.
  cbn [lift]. rewrite run_bind, run_ret.
  destruct (bool_decide _); [|done].
  rewrite run_bind, (run_write_text_file _ _ (Some txt)) by done.
  rewrite run_ret. cbn. unfold logged, with_tree. cbn. by rewrite <- app_assoc.
Qed.

Lemma written_app a b : written (a ++ b) = written a ++ written b.
Proof. unfold written. apply omap_app. Qed.

Lemma rewrite_loop (U : Unicode) (names : NameSet) (st0 : state) (Hvalid : valid names) l :
  NoDup l ->
  (forall p, p ∈ l -> selected st0 p -> decodable (tree st0) p) ->
  forall n st, agrees_on st0 l st ->
  let ch := changed U names st0 (filter (fun p => selected st0 p) l) in
  exists st',
    for_each l (guarded (rewrite_body U names)) n st = (Return (n + length ch)%nat, st')
    /\ root_parts st' = root_parts st0
    /\ written (trace st') = written (trace st) ++ ((fun p => (p, new_text U names st0 p)) <$> ch)
    /\ forall q, lookup_entry (tree st') q
                 = if decide (q ∈ ch) then Some (File (Some (new_text U names st0 q)))
                   else lookup_entry (tree st) q.
Proof.
  induction 1 as [|p l Hp Hl IH]; intros Hdec n st [Hroot Hagree]; cbn zeta.
  - exists st. cbn. rewrite Nat.add_0_r, app_nil_r. repeat split; try done.
  - cbn [for_each]. rewrite run_bind, run_guarded.
    assert (Hsel : selected st p = selected st0 p).
    { unfold selected, is_file_in. rewrite Hroot, Hagree; [done|]. by left. }
    assert (Hdec' : forall q, q ∈ l -> selected st0 q -> decodable (tree st0) q).
    { intros q Hq. apply Hdec. by right. }
    rewrite Hsel. destruct (selected st0 p) eqn:Hs.
    + rewrite filter_cons_True by (by rewrite Hs).
      specialize (Hdec p ltac:(by left) ltac:(by rewrite Hs)).
      unfold decodable in Hdec.
      destruct (lookup_entry (tree st0) p) as [[[txt|]|]|] eqn:E; try done.
      assert (Htxt : text_in (tree st0) p = txt) by (unfold text_in; by rewrite E).
      rewrite (run_rewrite_body U names p n _ txt); [|done|]; cycle 1.
      { cbn. rewrite Hagree; [done|by left]. }
      pose proof (lookup_entry_file_nonempty _ _ _ E) as Hpne.
      assert (Hnew : new_text U names st0 p = rewrite U names txt)
        by (unfold new_text; by rewrite Htxt).
      unfold changed.
      destruct (bool_decide_reflect (rewrite U names txt <> txt)) as [Hne|Heq].
      * rewrite filter_cons_True by (simpl; by rewrite Hnew, Htxt).
        destruct (IH Hdec' (n + 1)%nat
          (with_tree (logged (logged st [IsFile p]) [ReadText p; WriteText p (rewrite U names txt)])
             (<[p := File (Some (rewrite U names txt))]> (tree (logged st [IsFile p])))))
          as (st' & Hrun & Hroot' & Hw & Hlook).
        { split; [done|]. intros q Hq. cbn. rewrite lookup_entry_insert by done.
          rewrite decide_False by (by intros ->). apply Hagree. by right. }
        exists st'. rewrite Hrun. split. { do 2 f_equal. cbn [length]. unfold changed. lia. } split; [done|]. split.
        -- rewrite Hw. cbn. rewrite !written_app. cbn. rewrite Hnew.
           by rewrite <- !app_assoc.
        -- intros q. rewrite Hlook. cbn.
           fold (changed U names st0 (filter (fun p => selected st0 p) l)).
           set (ch := changed U names st0 _).
           assert (p ∉ ch).
           { intros Hin. apply Hp. subst ch. unfold changed in Hin.
             apply list_elem_of_filter in Hin as [_ Hin].
             by apply list_elem_of_filter in Hin as [_ Hin]. }
           rewrite lookup_entry_insert by done.
           change (filter _ (filter _ l)) with ch.
           destruct (decide (q ∈ ch)) as [Hin|Hnin].
           ++ rewrite decide_True; [done|]. apply elem_of_cons. by right.
           ++ destruct (decide (p = q)) as [Heq|Hne'].
              ** subst q. rewrite (decide_True (P := p ∈ p :: ch))
                   by (apply elem_of_cons; by left).
                 rewrite decide_True by done. by rewrite Hnew.
              ** rewrite (decide_False (P := q ∈ p :: ch))
                   by (intros [?|?]%elem_of_cons; congruence).
                 by rewrite decide_False by done.
      * rewrite filter_cons_False by (simpl; rewrite Hnew, Htxt; tauto).
        destruct (IH Hdec' n (logged (logged st [IsFile p]) [ReadText p]))
          as (st' & Hrun & Hroot' & Hw & Hlook).
        { split; [done|]. intros q Hq. cbn. apply Hagree. by right. }
        exists st'. rewrite Hrun. split; [done|]. split; [done|]. split.
        -- rewrite Hw. cbn. rewrite !written_app. cbn. by rewrite !app_nil_r.
        -- intros q. rewrite Hlook. done.
    + rewrite filter_cons_False by (rewrite Hs; tauto).
      destruct (IH Hdec' n (logged st [IsFile p])) as (st' & Hrun & Hroot' & Hw & Hlook).
      { split; [done|]. intros q Hq. cbn. apply Hagree. by right. }
      exists st'. rewrite Hrun. split; [done|]. split; [done|]. split.
      * rewrite Hw. cbn. rewrite !written_app. cbn. by rewrite !app_nil_r.
      * intros q. rewrite Hlook. done.
Qed.

Lemma below_top_head a p : below [a] p -> head p = Some a.
Proof. intros [[k ->] _]. reflexivity. Qed.

Lemma NoDup_rglob_in t r : NoDup (rglob_in t r).
Proof.
  unfold rglob_in. destruct (is_dir_in t r); [|constructor].
  apply NoDup_filter, NoDup_fst_map_to_list.
Qed.

Lemma elem_of_candidates t p :
  p ∈ candidates t -> head p = Some (py "src") \/ head p = Some (py "tests").
Proof.
  unfold candidates. destruct (_ && _); [|by intros ?%elem_of_nil].
  rewrite elem_of_app, !elem_of_rglob_in.
  intros [(_ & H & _)|(_ & H & _)]; apply below_top_head in H; auto.
Qed.

Lemma NoDup_candidates t : NoDup (candidates t).
Proof.
  unfold candidates. destruct (_ && _); [|constructor].
  apply NoDup_app. split; [apply NoDup_rglob_in|]. split; [|apply NoDup_rglob_in].
  intros p (_ & H1 & _)%elem_of_rglob_in (_ & H2 & _)%elem_of_rglob_in.
  apply below_top_head in H1, H2. rewrite H1 in H2. vm_compute in H2. discriminate.
Qed.

Lemma pyproject_not_candidate t : pyproject ∉ candidates t.
Proof. intros [H|H]%elem_of_candidates; vm_compute in H; discriminate. Qed.

Lemma rewrite_files_eq U names :
  rewrite_files U names = for_iter_files (rewrite_body U names) 0%nat.
Proof. reflexivity. Qed.

(** What the loop of [_do_apply] does, file by file. *)
Lemma rewrite_files_run U names st :
  valid names ->
  forallb (decodable (tree st)) (iter_files st) = true ->
  let ch := changed U names st (iter_files st) in
  exists st',
    rewrite_files U names st = (Return (length ch), st')
    /\ written (trace st') = written (trace st) ++ ((fun p => (p, new_text U names st p)) <$> ch)
    /\ forall q, lookup_entry (tree st') q
                 = if decide (q ∈ ch) then Some (File (Some (new_text U names st q)))
                   else lookup_entry (tree st) q.
Proof.
  intros Hv Hdec. cbn zeta. rewrite iter_files_eq in *.
  rewrite forallb_app in Hdec. apply andb_prop in Hdec as [Hdec1 Hdec2].
  unfold changed. rewrite filter_app. fold (changed U names st (filter (fun p => selected st p) (candidates (tree st)))).
  set (ch1 := changed U names st (filter _ _)).
  rewrite rewrite_files_eq.
  destruct (for_iter_files_run (rewrite_body U names) 0%nat st) as [evs [Hevs ->]].
  rewrite run_bind.
  destruct (rewrite_loop U names st Hv (candidates (tree st)) (NoDup_candidates _)) with
    (n := 0%nat) (st := logged st evs) as (st1 & Hrun & Hroot & Hw & Hlook).
  { intros p Hp Hs. apply Is_true_true.
    apply (proj1 (forallb_forall _ _) Hdec1). apply list_elem_of_In.
    apply list_elem_of_filter. done. }
  { split; done. }
  rewrite Hrun. fold ch1 in Hw, Hlook. cbn [logged tree trace] in Hw, Hlook.
  rewrite written_app, Hevs, app_nil_r in Hw.
  assert (Hnot : pyproject ∉ ch1).
  { subst ch1. unfold changed.
    intros [_ [_ H]%list_elem_of_filter]%list_elem_of_filter.
    by apply pyproject_not_candidate in H. }
  assert (Hpy : lookup_entry (tree st1) pyproject = lookup_entry (tree st) pyproject).
  { rewrite Hlook. by rewrite decide_False. }
  rewrite run_bind, run_path_exists.
  unfold is_file_in in *. unfold exists_in. cbn [logged tree]. rewrite Hpy.
  destruct (lookup_entry (tree st) pyproject) as [[content|]|] eqn:E.
  - rewrite run_bind, run_is_file. cbn [logged tree]. unfold is_file_in. rewrite Hpy.
    cbn [forallb] in Hdec2. unfold decodable in Hdec2. rewrite E in Hdec2.
    destruct content as [txt|]; [|done].
    assert (Htxt : text_in (tree st) pyproject = txt) by (unfold text_in; by rewrite E).
    assert (Hnew : new_text U names st pyproject = rewrite U names txt)
      by (unfold new_text; by rewrite Htxt).
    rewrite (run_rewrite_body U names pyproject _ _ txt); [|done|exact Hpy].
    destruct (bool_decide_reflect (rewrite U names txt <> txt)) as [Hne|Heq].
    + rewrite filter_cons_True by (simpl; by rewrite Hnew, Htxt).
      eexists. split; [|split].
      * apply (f_equal2 pair); [f_equal; rewrite length_app, filter_nil; cbn [length]; subst ch1; lia | reflexivity].
      * cbn. rewrite !written_app. cbn. rewrite Hw, fmap_app, !app_nil_r. cbn.
        by rewrite Hnew, <- app_assoc.
      * intros q. cbn [with_tree logged tree]. rewrite filter_nil. rewrite lookup_entry_insert by done. rewrite Hlook.
        destruct (decide (q ∈ ch1)) as [Hin|Hnin].
        -- rewrite decide_False by (intros <-; done).
           rewrite decide_True; [done|]. apply elem_of_app. by left.
        -- destruct (decide (pyproject = q)) as [Hq|Hq].
           ++ subst q. rewrite decide_True by done. rewrite decide_True; [by rewrite Hnew|].
              apply elem_of_app. right. by left.
           ++ rewrite decide_False by done. rewrite decide_False; [done|].
              intros [?|?%list_elem_of_singleton]%elem_of_app; congruence.
    + rewrite filter_cons_False by (simpl; rewrite Hnew, Htxt; tauto).
      rewrite filter_nil, app_nil_r.
      eexists. split; [reflexivity|]. split.
      * cbn. rewrite !written_app. cbn. by rewrite !app_nil_r.
      * intros q. cbn [with_tree logged tree]. by rewrite Hlook.
  - rewrite run_bind, run_is_file. cbn [logged tree]. unfold is_file_in. rewrite Hpy.
    rewrite filter_nil, app_nil_r.
    eexists. split; [reflexivity|]. split.
    * cbn. rewrite !written_app. cbn. by rewrite !app_nil_r.
    * intros q. cbn [with_tree logged tree]. by rewrite Hlook.
  - rewrite run_bind, run_ret. rewrite filter_nil, app_nil_r.
    eexists. split; [reflexivity|]. split.
    * cbn. rewrite !written_app. cbn. by rewrite !app_nil_r.
    * intros q. cbn [with_tree logged tree]. by rewrite Hlook.
Qed.





Example derive_my_tool :
  derive_names no_unicode (py "my_tool") (py "MyTool") None None None
  = {| tool_slug := py "my_tool"; class_name := py "MyTool";
       package_name := py "mcpstack_my_tool"; dist_name := py "mcpstack-my-tool";
       env_prefix := py "MCP_MY_TOOL" |}.
Proof. vm_compute. reflexivity. Qed.

Example rewrite_sample :
  replace_in_text no_unicode
    (py "from mcpstack_your_tool_name import YourToolCLI, YourTool  # MCP_YOUR_TOOL_NAME_X your_tool_name mcpstack-your-tool-name")
    (derive_names no_unicode (py "my_tool") (py "MyTool") None None None)
  = Some (py "from mcpstack_my_tool import MyToolCLI, MyTool  # MCP_MY_TOOL_X my_tool mcpstack-my-tool").
Proof. vm_compute. reflexivity. Qed.

(** ** The rewriter on words *)

Arguments is_word : simpl never.
Arguments match_at : simpl never.
Arguments sub : simpl never.

Lemma starts_with_prefix p s : starts_with p s = true <-> p `prefix_of` s.
Proof.
  revert s. induction p as [|a p IH]; intros s; cbn.
  - split; [intros _; apply prefix_nil | done].
  - destruct s as [|b s]; [split; [done|intros H; by apply prefix_nil_inv in H]|].
    rewrite andb_true_iff, IH, N.eqb_eq. split.
    + intros [-> H]. by apply prefix_cons.
    + intros H. split; [by apply prefix_cons_inv_1 in H | by apply prefix_cons_inv_2 in H].
Qed.

Lemma starts_with_app p k : starts_with p (p ++ k) = true.
Proof. apply starts_with_prefix. by apply prefix_app_r. Qed.

Lemma starts_with_split p s : starts_with p s = true -> s = p ++ drop (length p) s.
Proof. intros [k ->]%starts_with_prefix. by rewrite drop_app_length. Qed.

Lemma last_char_cons before c s : last_char before (c :: s) = last_char (Some c) s.
Proof.
  unfold last_char. destruct s as [|d s]; [done|]. cbn [last].
  by destruct (last (d :: s)) eqn:E; [|apply last_None in E].
Qed.

Lemma last_char_app before a b : last_char before (a ++ b) = last_char (last_char before a) b.
Proof.
  revert before. induction a as [|c a IH]; intros before; [done|].
  cbn [app]. by rewrite !last_char_cons, IH.
Qed.

Section scan.
Context (U : Unicode) (p : pattern) (r : str).

Lemma sub_from_skip x rest before :
  sub_from U p r before (length x) (x ++ rest)
  = sub_from U p r (last_char before x) 0 rest.
Proof.
  revert before. induction x as [|c x IH]; intros before; [by destruct rest|].
  cbn [app length sub_from]. by rewrite IH, last_char_cons.
Qed.

Lemma sub_from_match before s :
  literal p <> [] ->
  match_at U p before s = true ->
  sub_from U p r before 0 s
  = r ++ sub_from U p r (last_char before (literal p)) 0 (drop (length (literal p)) s).
Proof.
  intros Hne Hm.
  assert (Hs : starts_with (literal p) s = true).
  { unfold match_at in Hm. by repeat (apply andb_prop in Hm as [Hm ?]). }
  apply starts_with_split in Hs. revert Hm. rewrite Hs at 1 2. set (rest := drop _ s).
  destruct (literal p) as [|c l] eqn:El; [done|]. intros Hm.
  cbn [app] in Hm |- *. cbn [sub_from]. rewrite Hm, El. f_equal.
  replace (length (c :: l) - 1)%nat with (length l) by (cbn [length]; lia).
  by rewrite sub_from_skip, last_char_cons.
Qed.

Lemma sub_from_no_match before c s :
  match_at U p before (c :: s) = false ->
  sub_from U p r before 0 (c :: s) = c :: sub_from U p r (Some c) 0 s.
Proof. intros H. cbn [sub_from]. by rewrite H. Qed.
End scan.

Lemma word_pattern_opens U p : word_pattern U p -> opens_with_word U p.
Proof.
  intros [[Hne Hall] _]. destruct (literal p) as [|c l] eqn:E; [done|].
  exists c, l. split; [done|]. cbn in Hall. by apply andb_prop in Hall as [? _].
Qed.

Section steps.
Context (U : Unicode) (p : pattern) (r : str).

Lemma match_at_sep before c s :
  opens_with_word U p -> is_word U c = false -> match_at U p before (c :: s) = false.
Proof.
  intros (c0 & l & El & Hc0) Hc. unfold match_at. rewrite El. cbn [starts_with].
  destruct (N.eqb_spec c0 c) as [->|]; [congruence|].
  by rewrite andb_false_r.
Qed.

Lemma sub_from_sep before c s :
  opens_with_word U p -> is_word U c = false ->
  sub_from U p r before 0 (c :: s) = c :: sub_from U p r (Some c) 0 s.
Proof. intros Hp Hc. apply sub_from_no_match. by apply match_at_sep. Qed.

(** In front of a separator, what came before does not matter. *)
Lemma sub_from_before b1 b2 s :
  opens_with_word U p -> opens_with_sep U s ->
  sub_from U p r b1 0 s = sub_from U p r b2 0 s.
Proof.
  intros Hp Hs. destruct s as [|c s]; [done|]. change (is_word U c = false) in Hs.
  by rewrite !sub_from_sep.
Qed.

(** Inside a word nothing matches. *)
Lemma sub_from_inside b w rest :
  is_word U b = true -> forallb (is_word U) w = true ->
  sub_from U p r (Some b) 0 (w ++ rest)
  = w ++ sub_from U p r (last_char (Some b) w) 0 rest.
Proof.
  revert b. induction w as [|c w IH]; intros b Hb Hw; [done|].
  cbn in Hw. apply andb_prop in Hw as [Hc Hw].
  cbn [app]. rewrite sub_from_no_match.
  - rewrite IH by done. by rewrite last_char_cons.
  - unfold match_at, word_boundary. cbn. by rewrite Hb, Hc.
Qed.

Lemma starts_with_word_app l w rest :
  forallb (is_word U) l = true -> opens_with_sep U rest ->
  starts_with l (w ++ rest) = starts_with l w.
Proof.
  intros Hl Hrest. revert w. induction l as [|a l IH]; intros w; [done|].
  cbn in Hl. apply andb_prop in Hl as [Ha Hl].
  destruct w as [|c w]; cbn.
  - destruct rest as [|c rest]; [done|]. change (is_word U c = false) in Hrest.
    destruct (N.eqb_spec a c) as [->|]; [congruence|done].
  - by rewrite IH.
Qed.

Lemma last_char_word before l : word U l -> is_word_opt U (last_char before l) = true.
Proof.
  intros [Hne Hall]. unfold last_char.
  destruct (last l) as [c|] eqn:E; [|by apply last_None in E].
  cbn. apply last_Some_elem_of in E.
  apply (proj1 (forallb_forall _ _) Hall). by apply list_elem_of_In.
Qed.

(** At the start of a word, the pattern matches as [tok_match] says. *)
Lemma match_at_word before w rest :
  word_pattern U p -> is_word_opt U before = false -> word U w -> opens_with_sep U rest ->
  match_at U p before (w ++ rest) = tok_match p w.
Proof.
  intros [Hlit Hcls] Hb [Hne Hw] Hrest. unfold match_at, tok_match.
  assert (word_boundary U before (head (w ++ rest)) = true) as ->.
  { destruct w as [|c w]; [done|]. cbn in Hw. apply andb_prop in Hw as [Hc _].
    unfold word_boundary. cbn. by rewrite Hb, Hc. }
  rewrite starts_with_word_app by (done || apply Hlit). cbn [andb].
  destruct (starts_with (literal p) w) eqn:Hs; [|done]. cbn [andb].
  apply starts_with_prefix in Hs as [d ->]. rewrite <- app_assoc, !drop_app_length.
  rewrite forallb_app in Hw. apply andb_prop in Hw as [_ Hd].
  destruct d as [|c d].
  - cbn [app]. destruct (followed_by p) as [|cls].
    + unfold word_boundary. rewrite (last_char_word before) by done.
      unfold opens_with_sep in Hrest. by rewrite Hrest.
    + destruct rest as [|c rest]; [done|]. change (is_word U c = false) in Hrest.
      destruct (cls c) eqn:E; [|done]. apply Hcls in E. congruence.
  - cbn in Hd. apply andb_prop in Hd as [Hc _]. cbn [app].
    destruct (followed_by p) as [|cls]; [|done].
    unfold word_boundary. rewrite (last_char_word before) by done. cbn. by rewrite Hc.
Qed.

(** One word, then a separator or the end. *)
Lemma sub_from_word before w rest :
  word_pattern U p -> is_word_opt U before = false -> word U w -> opens_with_sep U rest ->
  sub_from U p r before 0 (w ++ rest) = tok_sub p r w ++ sub U p r rest.
Proof.
  intros Hp Hb Hw Hrest. pose proof (word_pattern_opens _ _ Hp) as Hop.
  pose proof (match_at_word before w rest Hp Hb Hw Hrest) as Hm.
  unfold tok_sub, sub. destruct (tok_match p w) eqn:Ht.
  - rewrite sub_from_match by (done || apply Hp).
    unfold tok_match in Ht. apply andb_prop in Ht as [Hs _].
    apply starts_with_prefix in Hs as [d ->].
    rewrite <- (app_assoc (literal p) d rest), !drop_app_length, <- app_assoc. f_equal.
    destruct Hp as [Hlit _].
    pose proof (last_char_word before _ Hlit) as Hl.
    destruct (last_char before (literal p)) as [b|]; [|done].
    destruct Hw as [_ Hw]. rewrite forallb_app in Hw. apply andb_prop in Hw as [_ Hd].
    rewrite sub_from_inside by done. f_equal. by apply sub_from_before.
  - destruct Hw as [Hne Hw]. destruct w as [|c w]; [done|].
    cbn [app] in *. rewrite sub_from_no_match by done.
    cbn in Hw. apply andb_prop in Hw as [Hc Hw].
    rewrite sub_from_inside by done. do 2 f_equal. by apply sub_from_before.
Qed.
End steps.

(** *** Texts and their pieces *)

Lemma flatten_cons x ps : flatten (x :: ps) = piece_text x ++ flatten ps.
Proof. reflexivity. Qed.

Lemma flatten_app a b : flatten (a ++ b) = flatten a ++ flatten b.
Proof. unfold flatten. by rewrite fmap_app, concat_app. Qed.

Lemma flatten_pieces U s : flatten (pieces U s) = s.
Proof.
  induction s as [|c s IH]; [done|]. cbn [pieces].
  destruct (is_word U c); [|by rewrite flatten_cons, IH].
  rewrite <- IH at 2. by destruct (pieces U s) as [|[|w] ps].
Qed.

Lemma wf_pieces U s : wf U (pieces U s).
Proof.
  induction s as [|c s IH]; [done|]. cbn [pieces].
  destruct (is_word U c) eqn:Hc; [|done].
  assert (Hone : word U [c]) by (split; [done|cbn; by rewrite Hc]).
  destruct (pieces U s) as [|[d|w] ps].
  - cbn [wf starts_tok]. auto.
  - destruct IH as [Hd Hwf]. cbn [wf starts_tok]. auto.
  - destruct IH as ([Hne Hw] & Hs & Hwf). cbn [wf]. split; [|auto].
    split; [done|]. cbn. by rewrite Hc, Hw.
Qed.

Lemma opens_with_sep_flatten U ps :
  wf U ps -> starts_tok ps = false -> opens_with_sep U (flatten ps).
Proof. destruct ps as [|[c|w] ps]; [done| |done]. by intros [Hc _] _. Qed.

Lemma pieces_nonempty U s : s <> [] -> pieces U s <> [].
Proof.
  destruct s as [|c s]; [done|]. intros _. cbn.
  destruct (is_word U c); [|done]. by destruct (pieces U s) as [|[|]].
Qed.

Lemma starts_tok_pieces U s : starts_tok (pieces U s) = is_word_opt U (head s).
Proof.
  destruct s as [|c s]; [done|]. cbn.
  destruct (is_word U c); [|done]. by destruct (pieces U s) as [|[|]].
Qed.

Lemma pieces_word U w : word U w -> pieces U w = [Tok w].
Proof.
  intros [Hne Hw]. induction w as [|c w IH]; [done|].
  cbn in Hw. apply andb_prop in Hw as [Hc Hw]. cbn. rewrite Hc.
  destruct w as [|d w]; [done|]. by rewrite IH.
Qed.

(** A text cut where no word runs across is cut between two pieces. *)
Lemma pieces_app U a b :
  is_word_opt U (last a) = false \/ opens_with_sep U b ->
  pieces U (a ++ b) = pieces U a ++ pieces U b.
Proof.
  intros H. induction a as [|c a IH]; [done|]. cbn [app pieces].
  destruct a as [|d a].
  - cbn [app pieces]. destruct (is_word U c) eqn:Hc; [|done].
    destruct H as [H|H]; [cbn in H; congruence|].
    pose proof (starts_tok_pieces U b) as Hb. unfold opens_with_sep in H. rewrite H in Hb.
    by destruct (pieces U b) as [|[|]].
  - rewrite IH by (destruct H as [H|H]; [left|right]; done).
    destruct (is_word U c); [|done].
    pose proof (pieces_nonempty U (d :: a) ltac:(done)).
    by destruct (pieces U (d :: a)) as [|[|]].
Qed.

(** The pieces of a text are the only well-formed way to cut it. *)
Lemma pieces_flatten U ps : wf U ps -> pieces U (flatten ps) = ps.
Proof.
  induction ps as [|[c|w] ps IH]; [done| |].
  - intros [Hc Hwf]. rewrite flatten_cons. cbn [piece_text app pieces]. by rewrite Hc, IH.
  - intros (Hw & Hs & Hwf). rewrite flatten_cons. cbn [piece_text].
    rewrite pieces_app by (right; by apply opens_with_sep_flatten).
    by rewrite pieces_word, IH.
Qed.

Lemma on_words_app f a b : on_words f (a ++ b) = on_words f a ++ on_words f b.
Proof. apply fmap_app. Qed.

(** *** A pattern on one word rewrites word by word *)

Lemma sub_on_words U p r ps before :
  word_pattern U p -> is_word_opt U before = false -> wf U ps ->
  sub_from U p r before 0 (flatten ps) = flatten (on_words (tok_sub p r) ps).
Proof.
  intros Hp. pose proof (word_pattern_opens _ _ Hp) as Hop.
  revert before. induction ps as [|[c|w] ps IH]; intros before Hb; [done| |].
  - intros [Hc Hwf]. cbn [on_words fmap list_fmap]. rewrite !flatten_cons. cbn [piece_text app].
    rewrite sub_from_sep by done. f_equal. apply IH; [|done]. cbn. done.
  - intros (Hw & Hs & Hwf). cbn [on_words fmap list_fmap]. rewrite !flatten_cons. cbn [piece_text].
    rewrite sub_from_word; [|done|done|done|by apply opens_with_sep_flatten].
    f_equal. by apply IH.
Qed.

Lemma sub_text_on_words U p r s :
  word_pattern U p -> sub U p r s = flatten (on_words (tok_sub p r) (pieces U s)).
Proof.
  intros Hp. rewrite <- (flatten_pieces U s) at 1.
  apply sub_on_words; [done|done|apply wf_pieces].
Qed.

(** *** A pattern across words rewrites the sequence of pieces *)

Lemma wf_app U a b :
  wf U a -> wf U b -> (ends_tok a = true -> starts_tok b = false) -> wf U (a ++ b).
Proof.
  induction a as [|x a IH]; [done|]. intros Ha Hb Hj.
  assert (Hj' : ends_tok a = true -> starts_tok b = false).
  { intros H. apply Hj. unfold ends_tok in *. destruct a; [done|]. done. }
  destruct x as [c|w]; cbn [app wf] in *.
  - destruct Ha as [Hc Ha]. auto.
  - destruct Ha as (Hw & Hs & Ha). split; [done|]. split; [|auto].
    destruct a as [|y a]; [|done]. cbn [app]. apply Hj. done.
Qed.

Lemma wf_app_inv U a b :
  wf U (a ++ b) -> wf U a /\ wf U b /\ (ends_tok a = true -> starts_tok b = false).
Proof.
  induction a as [|x a IH]; [done|]. cbn [app]. intros H.
  assert (Hab : wf U (a ++ b)) by (destruct x; cbn in H; tauto).
  destruct (IH Hab) as (Ha & Hb & Hj). split; [|split; [done|]].
  - destruct x as [c|w]; cbn [wf] in *; [tauto|].
    destruct H as (Hw & Hs & _). split; [done|]. split; [|done]. by destruct a.
  - intros He. destruct a as [|y a]; [|apply Hj; by destruct x].
    destruct x as [c|w]; [done|]. cbn in H. tauto.
Qed.

Lemma ends_tok_pieces U s : ends_tok (pieces U s) = is_word_opt U (last s).
Proof.
  induction s as [|c s IH]; [done|]. cbn [pieces].
  destruct s as [|d s].
  - cbn. by destruct (is_word U c).
  - change (last (c :: d :: s)) with (last (d :: s)). rewrite <- IH.
    pose proof (pieces_nonempty U (d :: s) ltac:(done)) as Hne.
    destruct (is_word U c); destruct (pieces U (d :: s)) as [|[e|w] [|y ps]]; done.
Qed.

Lemma replace_seq_skip Q D x rest :
  replace_seq Q D (length x) (x ++ rest) = replace_seq Q D 0 rest.
Proof. induction x as [|y x IH]; [by destruct rest|]. cbn. apply IH. Qed.

Lemma replace_seq_match Q D ps :
  Q <> [] -> Q `prefix_of` ps ->
  replace_seq Q D 0 ps = D ++ replace_seq Q D 0 (drop (length Q) ps).
Proof.
  intros Hne [rest ->]. rewrite drop_app_length.
  destruct Q as [|x Q]; [done|]. cbn [app replace_seq].
  rewrite bool_decide_true by (by exists rest).
  f_equal. replace (length (x :: Q) - 1)%nat with (length Q) by (cbn; lia).
  apply replace_seq_skip.
Qed.

Lemma replace_seq_no_match Q D x ps :
  ~ Q `prefix_of` (x :: ps) -> replace_seq Q D 0 (x :: ps) = x :: replace_seq Q D 0 ps.
Proof. intros H. cbn. by rewrite bool_decide_false. Qed.

Section sequence.
Context (U : Unicode) (p : pattern) (d : str).
Hypothesis Hp : seq_pattern U p.

Let Q := pieces U (literal p).

Lemma seq_pattern_pieces : Q <> [] /\ starts_tok Q = true /\ ends_tok Q = true.
Proof.
  destruct Hp as (_ & (c & l & El & Hc) & Hlast). subst Q. split; [|split].
  - apply pieces_nonempty. by rewrite El.
  - rewrite starts_tok_pieces, El. done.
  - by rewrite ends_tok_pieces.
Qed.

Lemma match_at_seq before ps :
  is_word_opt U before = false -> wf U ps -> starts_tok ps = true ->
  match_at U p before (flatten ps) = bool_decide (Q `prefix_of` ps).
Proof.
  intros Hb Hwf Hs. destruct Hp as (Htail & (c & l & El & Hc) & Hlast).
  destruct seq_pattern_pieces as (HQ & HQs & HQe).
  destruct (bool_decide_reflect (Q `prefix_of` ps)) as [[ps2 ->]|Hno].
  - apply wf_app_inv in Hwf as (_ & Hwf2 & Hj).
    rewrite flatten_app. subst Q. rewrite flatten_pieces.
    unfold match_at. rewrite starts_with_app, drop_app_length, Htail, El.
    unfold word_boundary. cbn [head app is_word_opt]. rewrite Hb, Hc. cbn [xorb andb].
    rewrite <- El. unfold last_char.
    destruct (last (literal p)) as [e|] eqn:E; [|done]. cbn in Hlast |- *. rewrite Hlast.
    pose proof (opens_with_sep_flatten U ps2 Hwf2 (Hj HQe)) as Ho.
    unfold opens_with_sep in Ho. by rewrite Ho.
  - destruct (match_at U p before (flatten ps)) eqn:Hm; [|done]. exfalso. apply Hno.
    unfold match_at in Hm. rewrite Htail in Hm.
    apply andb_prop in Hm as [Hm Hbound]. apply andb_prop in Hm as [_ Hstart].
    apply starts_with_prefix in Hstart as [s2 Hs2]. rewrite Hs2, drop_app_length in Hbound.
    assert (Ho : opens_with_sep U s2).
    { unfold word_boundary, last_char in Hbound.
      destruct (last (literal p)) as [e|] eqn:E; [|done]. cbn in Hlast, Hbound.
      rewrite Hlast in Hbound. unfold opens_with_sep. by destruct (is_word_opt U (head s2)). }
    rewrite <- (pieces_flatten U ps Hwf), Hs2, pieces_app by (by right).
    by apply prefix_app_r.
Qed.

Lemma sub_replace_seq ps before :
  is_word_opt U before = false -> wf U ps ->
  sub_from U p d before 0 (flatten ps) = flatten (replace_seq Q (pieces U d) 0 ps).
Proof.
  destruct seq_pattern_pieces as (HQ & HQs & HQe).
  pose proof Hp as (Htail & Hop & Hlast).
  remember (length ps) as n eqn:Hn. revert ps before Hn.
  induction n as [n IH] using lt_wf_ind. intros ps before -> Hb Hwf.
  destruct ps as [|[c|w] ps]; [done| |].
  - destruct Hwf as [Hc Hwf]. rewrite flatten_cons. cbn [piece_text app].
    rewrite sub_from_sep by done.
    rewrite replace_seq_no_match; cycle 1.
    { intros [k Hk]. destruct Q as [|[|] Q']; try done. }
    rewrite flatten_cons. cbn [piece_text app]. f_equal.
    eapply IH; [|reflexivity|done|done]. cbn. lia.
  - pose proof (match_at_seq before (Tok w :: ps) Hb Hwf eq_refl) as Hm.
    destruct (bool_decide_reflect (Q `prefix_of` (Tok w :: ps))) as [Hpre|Hno].
    + rewrite replace_seq_match by done. destruct Hpre as [ps2 Hps].
      rewrite Hps in *. rewrite drop_app_length.
      apply wf_app_inv in Hwf as (_ & Hwf2 & Hj).
      pose proof (opens_with_sep_flatten U ps2 Hwf2 (Hj HQe)) as Ho.
      rewrite sub_from_match; [|by destruct Hop as (? & ? & -> & _)|done].
      rewrite !flatten_app. subst Q. rewrite !flatten_pieces, drop_app_length. f_equal.
      rewrite (sub_from_before U p d _ None) by done.
      eapply IH; [|reflexivity|done|done].
      rewrite length_app. destruct (pieces U (literal p)); [done|]. cbn. lia.
    + rewrite replace_seq_no_match by done.
      destruct Hwf as ([Hne Hw] & Hs & Hwf).
      pose proof (opens_with_sep_flatten U ps Hwf Hs) as Ho.
      rewrite !flatten_cons. cbn [piece_text]. rewrite flatten_cons in Hm. cbn [piece_text] in Hm.
      destruct w as [|c w]; [done|]. cbn [app] in *.
      rewrite sub_from_no_match by done.
      cbn in Hw. apply andb_prop in Hw as [Hc Hw].
      rewrite sub_from_inside by done. do 2 f_equal.
      rewrite (sub_from_before U p d _ None) by done.
      eapply IH; [|reflexivity|done|done]. cbn. lia.
Qed.
End sequence.

(** *** Rules, piece by piece *)

Lemma ascii_word U c :
  is_lower c || is_upper c || is_digit c || is_char "_" c = true -> is_word U c = true.
Proof.
  intros H. unfold is_word.
  assert (is_ascii c = true) as ->; [|done].
  unfold is_ascii, is_lower, is_upper, is_digit, is_char in *.
  rewrite !orb_true_iff, !andb_true_iff, !N.leb_le, N.eqb_eq in H.
  apply N.ltb_lt. vm_compute code in H. lia.
Qed.

Lemma upper_or_underscore_word U c : upper_or_underscore c = true -> is_word U c = true.
Proof.
  unfold upper_or_underscore. intros H. apply ascii_word.
  destruct (is_lower c), (is_upper c), (is_digit c), (is_char "_" c); done.
Qed.

Lemma upper_snake_word U c : upper_snake c = true -> is_word U c = true.
Proof.
  unfold upper_snake. intros H. apply ascii_word.
  destruct (is_lower c), (is_upper c), (is_digit c), (is_char "_" c); done.
Qed.

Lemma snake_rest_word U c : snake_rest c = true -> is_word U c = true.
Proof.
  unfold snake_rest. intros H. apply ascii_word.
  destruct (is_lower c), (is_upper c), (is_digit c), (is_char "_" c); done.
Qed.

Lemma pascal_rest_word U c : pascal_rest c = true -> is_word U c = true.
Proof.
  unfold pascal_rest. intros H. apply ascii_word.
  destruct (is_lower c), (is_upper c), (is_digit c), (is_char "_" c); done.
Qed.

Lemma fullmatch_word U first rest s :
  (forall c, first c = true -> is_word U c = true) ->
  (forall c, rest c = true -> is_word U c = true) ->
  fullmatch_first_rest first rest s = true -> word U s.
Proof.
  intros Hf Hr. destruct s as [|c s]; [done|]. cbn.
  intros [H1 H2]%andb_prop. split; [done|]. cbn. rewrite (Hf c H1). cbn.
  apply forallb_forall. intros x Hx. apply Hr. by apply (proj1 (forallb_forall _ _) H2).
Qed.

(** The four values that stand for words are words. *)
Lemma valid_words U names :
  valid names ->
  word U (package_name names) /\ word U (class_name names)
  /\ word U (tool_slug names) /\ word U (env_prefix names).
Proof.
  intros (H1 & H2 & H3 & H4 & H5)%valid_fields. split; [|split; [|split]].
  - eapply fullmatch_word; [| |exact H3]; intros c Hc; apply snake_rest_word;
      unfold snake_rest; by rewrite ?Hc.
  - eapply fullmatch_word; [| |exact H2]; intros c Hc; apply pascal_rest_word;
      unfold pascal_rest; by rewrite ?Hc, ?orb_true_r.
  - eapply fullmatch_word; [| |exact H1]; intros c Hc; apply snake_rest_word;
      unfold snake_rest; by rewrite ?Hc.
  - eapply fullmatch_word; [| |exact H5]; intros c Hc; by apply upper_snake_word.
Qed.

Lemma starts_tok_on_words f ps : starts_tok (on_words f ps) = starts_tok ps.
Proof. by destruct ps as [|[|] ps]. Qed.

Lemma wf_on_words U f ps :
  (forall w, word U w -> word U (f w)) -> wf U ps -> wf U (on_words f ps).
Proof.
  intros Hf. induction ps as [|[c|w] ps IH]; [done| |].
  - intros [Hc Hwf]. split; [done|]. by apply IH.
  - intros (Hw & Hs & Hwf).
    change (on_words f (Tok w :: ps)) with (Tok (f w) :: on_words f ps). cbn [wf].
    split; [by apply Hf|]. split; [|by apply IH].
    by rewrite (starts_tok_on_words f ps).
Qed.

Lemma forallb_drop {A} (f : A -> bool) n l :
  forallb f l = true -> forallb f (drop n l) = true.
Proof.
  revert n. induction l as [|x l IH]; intros [|n] H; try done.
  cbn in H. apply andb_prop in H as [_ H]. by apply IH.
Qed.

Lemma tok_sub_word U p r w : word U r -> word U w -> word U (tok_sub p r w).
Proof.
  intros [Hr1 Hr2] [Hw1 Hw2]. unfold tok_sub. destruct (tok_match p w); [|done].
  split; [by destruct r|]. rewrite forallb_app. apply andb_true_intro. split; [exact Hr2|].
  by apply forallb_drop.
Qed.

Lemma wf_replace_seq U Q D ps :
  Q <> [] -> starts_tok Q = true -> ends_tok Q = true -> wf U D -> wf U ps ->
  wf U (replace_seq Q D 0 ps)
  /\ (starts_tok ps = false -> starts_tok (replace_seq Q D 0 ps) = false).
Proof.
  intros HQ HQs HQe HD.
  remember (length ps) as n eqn:Hn. revert ps Hn.
  induction n as [n IH] using lt_wf_ind. intros ps -> Hwf.
  destruct ps as [|x ps]; [done|].
  destruct (decide (Q `prefix_of` (x :: ps))) as [Hpre|Hno].
  - rewrite replace_seq_match by done. destruct Hpre as [ps2 Hps]. rewrite Hps in *.
    rewrite drop_app_length. apply wf_app_inv in Hwf as (_ & Hwf2 & Hj).
    destruct (IH (length ps2)) with (ps := ps2) as [IH1 IH2]; [|done|done|].
    { rewrite length_app. destruct Q; [done|]. cbn. lia. }
    split.
    + apply wf_app; [done|done|]. intros _. apply IH2. by apply Hj.
    + destruct Q as [|[|] Q']; done.
  - rewrite replace_seq_no_match by done.
    destruct (IH (length ps)) with (ps := ps) as [IH1 IH2]; [cbn; lia|done| |].
    { destruct x; cbn in Hwf; tauto. }
    split; [|by destruct x].
    destruct x as [c|w]; cbn [wf] in *; [tauto|].
    destruct Hwf as (Hw & Hs & Hwf). auto.
Qed.

Lemma prule_wf U rule ps : rule_ok U rule -> wf U ps -> wf U (prule U rule ps).
Proof.
  unfold rule_ok, prule. destruct (forallb (is_word U) (literal rule.1)).
  - intros [_ Hr] Hwf. apply wf_on_words; [|done]. intros w. by apply tok_sub_word.
  - intros Hp Hwf. destruct (seq_pattern_pieces U rule.1 Hp) as (HQ & HQs & HQe).
    by apply wf_replace_seq; [| | |apply wf_pieces|].
Qed.

(** One rule on a text is the rule on its pieces. *)
Lemma prule_sub U rule ps :
  rule_ok U rule -> wf U ps ->
  sub U rule.1 rule.2 (flatten ps) = flatten (prule U rule ps).
Proof.
  unfold rule_ok, prule, sub. destruct (forallb (is_word U) (literal rule.1)).
  - intros [Hp _] Hwf. by apply sub_on_words.
  - intros Hp Hwf. by apply sub_replace_seq.
Qed.

(** A list of rules on a text is the rules on its pieces, one after the other. *)
Lemma foldl_prule U rules ps :
  Forall (rule_ok U) rules -> wf U ps ->
  foldl (fun t rule => sub U rule.1 rule.2 t) (flatten ps) rules
  = flatten (foldl (fun ps rule => prule U rule ps) ps rules)
  /\ wf U (foldl (fun ps rule => prule U rule ps) ps rules).
Proof.
  intros Hok. revert ps. induction Hok as [|rule rules Hr Hok IH]; intros ps Hwf; [done|].
  cbn [foldl]. rewrite prule_sub by done. apply IH. by apply prule_wf.
Qed.

Lemma whole_word_ok U s r :
  forallb (is_word U) (py s) = true -> py s <> [] -> word U r ->
  rule_ok U (whole_word s, r).
Proof. intros H Hne Hr. unfold rule_ok. cbn [fst snd literal whole_word]. by rewrite H. Qed.

Lemma compound_ok U s cls r :
  forallb (is_word U) (py s) = true -> py s <> [] ->
  (forall c, cls c = true -> is_word U c = true) -> word U r ->
  rule_ok U (compound s cls, r).
Proof. intros H Hne Hc Hr. unfold rule_ok. cbn [fst snd literal compound]. by rewrite H. Qed.

Lemma patterns_ok U names : valid names -> Forall (rule_ok U) (patterns names).
Proof.
  intros (Hpkg & Hcls & Hslug & Henv)%(valid_words U). unfold patterns.
  repeat apply Forall_cons_2; try apply Forall_nil_2.
  - by apply whole_word_ok.
  - unfold rule_ok. cbn [fst snd literal whole_word].
    assert (forallb (is_word U) (py "mcpstack-your-tool-name") = false) as ->
      by (vm_compute; reflexivity).
    split; [done|]. split; [|vm_compute; reflexivity].
    eexists _, _. split; [reflexivity|]. vm_compute. reflexivity.
  - apply compound_ok; try done. apply upper_or_underscore_word.
  - by apply whole_word_ok.
  - by apply whole_word_ok.
  - apply compound_ok; try done. apply upper_snake_word.
  - by apply whole_word_ok.
Qed.

(** With valid names, the rewriter is its rules on the pieces of the text. *)
Lemma rewrite_on_pieces U names s :
  valid names ->
  rewrite U names s
  = flatten (foldl (fun ps rule => prule U rule ps) (pieces U s) (patterns names)).
Proof.
  intros Hv. unfold rewrite. rewrite <- (flatten_pieces U s) at 1.
  apply foldl_prule; [by apply patterns_ok | apply wf_pieces].
Qed.

(** *** Replacing a sequence of pieces *)

(** A piece that the sequence does not contain is never part of a match. *)
Lemma replace_seq_frame Q D x a b k :
  Q <> [] -> x ∉ Q -> (k <= length a)%nat ->
  replace_seq Q D k (a ++ x :: b) = replace_seq Q D k a ++ x :: replace_seq Q D 0 b.
Proof.
  intros HQ Hx. revert k. induction a as [|y a IH]; intros k Hk.
  - cbn in Hk. replace k with 0%nat by lia. cbn [app replace_seq].
    rewrite bool_decide_false; [done|].
    intros [rest Hrest]. destruct Q as [|q Q]; [done|]. injection Hrest as -> _.
    apply Hx. by left.
  - cbn [app replace_seq]. destruct k as [|k].
    + assert (Hiff : Q `prefix_of` (y :: a ++ x :: b) <-> Q `prefix_of` (y :: a)).
      { split.
        - intros Hpre. destruct (decide (length Q <= length (y :: a))%nat) as [Hle|Hgt].
          + destruct Hpre as [rest Hrest].
            exists (drop (length Q) (y :: a)).
            transitivity (take (length Q) (y :: a) ++ drop (length Q) (y :: a));
              [by rewrite take_drop|]. f_equal.
            rewrite <- (take_app_le (y :: a) (x :: b)) by done.
            change ((y :: a) ++ x :: b) with (y :: a ++ x :: b). rewrite Hrest.
            by rewrite take_app_length.
          + exfalso. apply Hx. destruct Hpre as [rest Hrest].
            assert (Hl : (y :: a ++ x :: b) !! length (y :: a) = Some x).
            { change (y :: a ++ x :: b) with ((y :: a) ++ x :: b).
              by rewrite lookup_app_r, Nat.sub_diag by done. }
            rewrite Hrest, lookup_app_l in Hl by lia.
            by eapply list_elem_of_lookup_2.
        - intros [rest Hrest]. exists (rest ++ x :: b).
          change (y :: a ++ x :: b) with ((y :: a) ++ x :: b).
          rewrite Hrest. by rewrite <- app_assoc. }
      destruct (bool_decide_reflect (Q `prefix_of` (y :: a ++ x :: b))) as [Hpre|Hno].
      * rewrite bool_decide_true by (by apply Hiff). rewrite <- app_assoc. f_equal.
        apply IH. apply Hiff, prefix_length in Hpre. cbn in Hpre. destruct Q; [done|].
        cbn in *. lia.
      * rewrite bool_decide_false by (by rewrite <- Hiff). cbn. f_equal. apply IH. lia.
    + apply IH. cbn in Hk. lia.
Qed.




Section occurrences.
Context (Q D : list piece).
Hypothesis HQ : Q <> [].
Hypothesis Hno : no_overlap D Q = true.







End occurrences.

(** *** Word rules on one word *)

Lemma tok_match_starts p w : tok_match p w = true -> starts_with (literal p) w = true.
Proof. unfold tok_match. by intros [H _]%andb_prop. Qed.

Lemma tok_match_clash p r rest :
  tok_match p (r ++ rest) = true -> clash r (literal p) = true.
Proof.
  intros H%tok_match_starts%starts_with_prefix. unfold clash.
  destruct (prefix_weak_total r (literal p) (r ++ rest)) as [Hp|Hp];
    [by apply prefix_app_r|done| |]; apply starts_with_prefix in Hp; rewrite Hp;
    by rewrite ?orb_true_r.
Qed.

Lemma tok_sub_inert p r rest :
  clash r (literal p) = false -> forall s, tok_sub p s (r ++ rest) = r ++ rest.
Proof.
  intros Hc s. unfold tok_sub. destruct (tok_match p (r ++ rest)) eqn:Hm; [|done].
  apply tok_match_clash in Hm. congruence.
Qed.








(** *** A fold of commuting steps *)



Lemma foldl_fixed {A X} (g : A -> X -> X) (l : list A) x :
  (forall a, a ∈ l -> g a x = x) -> foldl (fun x a => g a x) x l = x.
Proof.
  induction l as [|a l IH]; intros H; [done|]. cbn. rewrite H by (by left).
  apply IH. intros; apply H; by right.
Qed.


(** *** The seven rules *)

Lemma hazard_free_spec U names :
  hazard_free U names = true ->
  (forall r P, r ∈ word_values names -> P ∈ word_literals -> clash r P = false)
  /\ (forall r q, r ∈ word_values names -> q ∈ dist_words -> starts_with r q = false)
  /\ (forall t P, Tok t ∈ pieces U (dist_name names) -> P ∈ word_literals ->
        starts_with P t = false)
  /\ no_overlap (pieces U (dist_name names)) (pieces U dist_literal) = true.
Proof.
  unfold hazard_free. intros [[H1 H2]%andb_prop H3]%andb_prop.
  rewrite forallb_forall in H1, H2. repeat split; [| | |done].
  - intros r P Hr%list_elem_of_In HP%list_elem_of_In.
    apply H1 in Hr. apply andb_prop in Hr as [Hr _].
    rewrite forallb_forall in Hr. by apply negb_true_iff, Hr.
  - intros r q Hr%list_elem_of_In Hq%list_elem_of_In.
    apply H1 in Hr. apply andb_prop in Hr as [_ Hr].
    rewrite forallb_forall in Hr. by apply negb_true_iff, Hr.
  - intros t P Ht%list_elem_of_In HP%list_elem_of_In.
    apply H2 in Ht. rewrite forallb_forall in Ht. by apply negb_true_iff, Ht.
Qed.

Lemma patterns_split names rule :
  rule ∈ patterns names <-> rule ∈ word_rules names \/ rule = dist_rule names.
Proof.
  unfold patterns, word_rules, dist_rule. rewrite !elem_of_cons, !elem_of_nil. tauto.
Qed.

Lemma dist_pieces U :
  pieces U dist_literal
  = [Tok (py "mcpstack"); Sep (code "-"); Tok (py "your"); Sep (code "-");
     Tok (py "tool"); Sep (code "-"); Tok (py "name")].
Proof. vm_compute. reflexivity. Qed.

Lemma dist_pieces_words U q : Tok q ∈ pieces U dist_literal -> q ∈ dist_words.
Proof.
  rewrite dist_pieces. unfold dist_words. rewrite !elem_of_cons, !elem_of_nil.
  intros [H|[H|[H|[H|[H|[H|[H|[]]]]]]]]; try discriminate H; injection H as ->; tauto.
Qed.

Lemma word_rule_inv names rule :
  rule ∈ word_rules names ->
  literal rule.1 ∈ word_literals /\ rule.2 ∈ word_values names
  /\ (forall U, forallb (is_word U) (literal rule.1) = true)
  /\ (forall q, q ∈ dist_words -> tok_match rule.1 q = false).
Proof.
  unfold word_rules, word_literals, word_values, dist_words.
  rewrite !elem_of_cons, !elem_of_nil.
  intros [->|[->|[->|[->|[->|[->|[]]]]]]]; cbn [fst snd literal whole_word compound];
    (split; [rewrite ?elem_of_cons; tauto|]);
    (split; [rewrite ?elem_of_cons; tauto|]);
    (split; [intros U; vm_compute; reflexivity|]);
    intros q; rewrite ?elem_of_cons, ?elem_of_nil;
    intros [->|[->|[->|[->|[]]]]]; vm_compute; reflexivity.
Qed.


Lemma prule_word U names rule ps :
  rule ∈ word_rules names -> prule U rule ps = on_words (tok_sub rule.1 rule.2) ps.
Proof. intros (_ & _ & H & _)%word_rule_inv. unfold prule. by rewrite H. Qed.

Lemma prule_dist U names ps :
  prule U (dist_rule names) ps
  = replace_seq (pieces U dist_literal) (pieces U (dist_name names)) 0 ps.
Proof.
  unfold prule, dist_rule. cbn [fst snd literal whole_word].
  by assert (forallb (is_word U) (py "mcpstack-your-tool-name") = false) as ->
    by (vm_compute; reflexivity).
Qed.

Section hazard_free.
Context (U : Unicode) (names : NameSet).
Hypothesis Hfree : hazard_free U names = true.





End hazard_free.

(** *** The rewriter *)











Lemma foldl_words_frame U names rules A w B :
  (forall rule, rule ∈ rules -> rule ∈ word_rules names) ->
  foldl (fun ps rule => prule U rule ps) (A ++ Tok w :: B) rules
  = foldl (fun ps rule => prule U rule ps) A rules
    ++ Tok (foldl (fun w rule => tok_sub rule.1 rule.2 w) w rules)
    :: foldl (fun ps rule => prule U rule ps) B rules.
Proof.
  revert A w B. induction rules as [|rule rules IH]; intros A w B H; [done|].
  cbn [foldl]. rewrite !(prule_word U names rule) by (apply H; by left).
  rewrite on_words_app.
  change (on_words ?f (Tok w :: B)) with (Tok (f w) :: on_words f B).
  apply IH. intros; apply H; by right.
Qed.

Lemma rewrite_frame U names pre w post :
  valid names ->
  is_word_opt U (last pre) = false -> word U w -> is_word_opt U (head post) = false ->
  tok_match (whole_word "mcpstack_your_tool_name") w = false -> w ∉ dist_words ->
  rewrite U names (pre ++ w ++ post)
  = rewrite U names pre ++ later_rules 2 names w ++ rewrite U names post.
Proof.
  intros Hv Hpre Hw Hpost Hm Hd. rewrite !rewrite_on_pieces by done.
  rewrite pieces_app by (by left). rewrite pieces_app by (by right).
  rewrite (pieces_word U w) by done. cbn [app].
  unfold later_rules.
  assert (Hrest : forall rule, rule ∈ drop 2 (patterns names) -> rule ∈ word_rules names).
  { intros rule. unfold word_rules, patterns. cbn [drop].
    rewrite !elem_of_cons, !elem_of_nil. tauto. }
  set (rest := drop 2 (patterns names)) in *.
  change (patterns names)
    with ((whole_word "mcpstack_your_tool_name", package_name names)
          :: dist_rule names :: rest).
  clearbody rest.
  cbn [foldl].
  rewrite !(prule_word U names (whole_word "mcpstack_your_tool_name", package_name names))
    by (unfold word_rules; by left).
  rewrite on_words_app.
  change (on_words ?f (Tok w :: ?B)) with (Tok (f w) :: on_words f B).
  cbn [fst snd].
  assert (tok_sub (whole_word "mcpstack_your_tool_name") (package_name names) w = w) as ->
    by (unfold tok_sub; by rewrite Hm).
  rewrite !prule_dist.
  rewrite replace_seq_frame; [|by rewrite dist_pieces| |cbn; lia].
  2:{ intros Hin%dist_pieces_words. by apply Hd. }
  rewrite (foldl_words_frame U names) by done.
  by rewrite flatten_app, flatten_cons.
Qed.

Lemma unrelated_spec names w rule :
  unrelated names w = true -> rule ∈ patterns names -> tok_match rule.1 w = false.
Proof.
  unfold unrelated. rewrite forallb_forall. intros H Hr%list_elem_of_In.
  by apply negb_true_iff, H.
Qed.

Lemma later_rules_unrelated names w : unrelated names w = true -> later_rules 2 names w = w.
Proof.
  intros H. unfold later_rules. apply (foldl_fixed (fun rule w => tok_sub rule.1 rule.2 w)).
  intros rule Hr. unfold tok_sub. rewrite (unrelated_spec names w rule); [done|done|].
  revert Hr. unfold patterns. cbn [drop]. rewrite !elem_of_cons. tauto.
Qed.

Lemma infix_not_dist_word a P b :
  P ∈ word_literals -> a <> [] \/ b <> [] -> a ++ P ++ b ∉ dist_words.
Proof.
  intros HP Hab Hin.
  assert (Hlen : (8 <= length P)%nat).
  { revert HP. unfold word_literals. rewrite !elem_of_cons, elem_of_nil.
    intros [->|[->|[->|[->|[]]]]]; vm_compute; lia. }
  assert (Hq : (length (a ++ P ++ b) <= 8)%nat).
  { revert Hin. generalize (a ++ P ++ b). intros q. unfold dist_words.
    rewrite !elem_of_cons, elem_of_nil. intros [->|[->|[->|[->|[]]]]]; vm_compute; lia. }
  rewrite !length_app in Hq.
  destruct Hab as [Ha|Hb]; [destruct a|destruct b]; try done; cbn in Hq; lia.
Qed.

Lemma later_rules_class U names c b :
  hazard_free U names = true ->
  later_rules 3 names (class_name names ++ c :: b) = class_name names ++ c :: b.
Proof.
  intros (Hclash & _)%hazard_free_spec. unfold later_rules, patterns. cbn [drop foldl fst snd].
  assert (Hc : class_name names ∈ word_values names)
    by (unfold word_values; rewrite !elem_of_cons; tauto).
  rewrite !tok_sub_inert; [done|apply Hclash; [done|]..];
    unfold word_literals; rewrite !elem_of_cons; tauto.
Qed.

Lemma later_rules_env U names c b :
  hazard_free U names = true ->
  later_rules 6 names (env_prefix names ++ c :: b) = env_prefix names ++ c :: b.
Proof.
  intros (Hclash & _)%hazard_free_spec. unfold later_rules, patterns. cbn [drop foldl fst snd].
  assert (Hc : env_prefix names ∈ word_values names)
    by (unfold word_values; rewrite !elem_of_cons; tauto).
  rewrite !tok_sub_inert; [done|apply Hclash; [done|]..];
    unfold word_literals; rewrite !elem_of_cons; tauto.
Qed.

Lemma not_allowed_unrelated names P c b :
  P ∈ word_literals -> allowed_after names P c = false -> unrelated names (P ++ c :: b) = true.
Proof.
  unfold word_literals. rewrite !elem_of_cons, elem_of_nil.
  unfold allowed_after, unrelated, patterns.
  cbn [existsb forallb fst snd literal followed_by whole_word compound].
  intros [->|[->|[->|[->|[]]]]] H.
  all: repeat match type of H with
       | context [bool_decide (?x = ?y)] =>
           first [rewrite (bool_decide_true (x = y)) in H by reflexivity
                 |rewrite (bool_decide_false (x = y)) in H by (vm_compute; discriminate)]
       end.
  all: cbn [andb orb] in H.
  all: unfold tok_match; cbn [literal followed_by whole_word compound].
  all: repeat match goal with
       | |- context [starts_with (py ?x) (py ?y ++ ?t)] =>
           let v := eval vm_compute in (starts_with (py x) (py y)) in
           match v with
           | false => replace (starts_with (py x) (py y ++ t)) with false by reflexivity
           | true => replace (starts_with (py x) (py y ++ t)) with true by reflexivity
           end
       end.
  all: cbn [andb negb].
  all: repeat match goal with
       | |- context [drop (length (py ?x)) (py ?x ++ ?t)] =>
           change (drop (length (py x)) (py x ++ t)) with t
       end.
  all: cbv beta iota.
  all: try reflexivity.
  all: try (apply orb_false_elim in H as [H1 H2]; rewrite ?H1, ?H2; reflexivity).
  all: try (rewrite H; reflexivity).
Qed.

Lemma word_cons U c b :
  is_word U c = true -> forallb (is_word U) b = true -> forall P,
  forallb (is_word U) P = true -> word U (P ++ c :: b).
Proof.
  intros Hc Hb P HP. split; [by destruct P|].
  rewrite forallb_app. cbn. by rewrite HP, Hc, Hb.
Qed.

(** C8: around a whole identifier (the text before it does not end, and the
    text after it does not open, on a word character) the rewriter works on
    [pre] and [post] by themselves, and
    - an identifier that is longer than a one-word placeholder it holds, and
      that no rule matches from its start, is left as it is;
    - a one-word placeholder followed by a character that no compound rule
      admits after it is such an identifier, and so is every identifier that
      does not open with a placeholder;
    - [YourTool] followed by an uppercase letter or underscore becomes the
      class name followed by the same characters, and
      [MCP_YOUR_TOOL_NAME] followed by an uppercase letter, digit or underscore
      becomes the env prefix followed by the same characters (up to the rules
      that come later, which leave it alone when the names are hazard-free). *)
Theorem word_boundary_safety (U : Unicode) (names : NameSet) (pre post : str) :
  valid names ->
  is_word_opt U (last pre) = false -> is_word_opt U (head post) = false ->
  (forall a P b,
     P ∈ word_literals -> a <> [] \/ b <> [] -> word U (a ++ P ++ b) ->
     unrelated names (a ++ P ++ b) = true ->
     replace_in_text U (pre ++ (a ++ P ++ b) ++ post) names
     = Some (rewrite U names pre ++ (a ++ P ++ b) ++ rewrite U names post))
  /\ (forall P c b,
        P ∈ word_literals -> allowed_after names P c = false ->
        unrelated names (P ++ c :: b) = true)
  /\ (forall w,
        forallb (fun rule => negb (starts_with (literal rule.1) w)) (patterns names) = true ->
        unrelated names w = true)
  /\ (forall c b,
        upper_or_underscore c = true -> forallb (is_word U) b = true ->
        replace_in_text U (pre ++ (py "YourTool" ++ c :: b) ++ post) names
        = Some (rewrite U names pre
                ++ later_rules 3 names (class_name names ++ c :: b)
                ++ rewrite U names post)
        /\ (hazard_free U names = true ->
            later_rules 3 names (class_name names ++ c :: b) = class_name names ++ c :: b))
  /\ (forall c b,
        upper_snake c = true -> forallb (is_word U) b = true ->
        replace_in_text U (pre ++ (py "MCP_YOUR_TOOL_NAME" ++ c :: b) ++ post) names
        = Some (rewrite U names pre
                ++ later_rules 6 names (env_prefix names ++ c :: b)
                ++ rewrite U names post)
        /\ (hazard_free U names = true ->
            later_rules 6 names (env_prefix names ++ c :: b) = env_prefix names ++ c :: b)).
Proof.
  intros Hv Hpre Hpost. repeat split.
  - intros a P b HP Hab Hw Hun. rewrite replace_in_text_valid by done. f_equal.
    rewrite rewrite_frame; try done.
    + by rewrite later_rules_unrelated.
    + apply (unrelated_spec names _ (whole_word "mcpstack_your_tool_name", package_name names));
        [done|]. unfold patterns. by left.
    + by apply infix_not_dist_word.
  - intros P c b. apply not_allowed_unrelated.
  - intros w Hw. unfold unrelated. rewrite forallb_forall in Hw |- *.
    intros rule Hr. specialize (Hw rule Hr). apply negb_true_iff in Hw.
    apply negb_true_iff. unfold tok_match. by rewrite Hw.
  - rewrite replace_in_text_valid by done. f_equal.
    rewrite rewrite_frame; try done.
    + do 2 f_equal. unfold later_rules, patterns. cbn [drop foldl fst snd].
      f_equal. unfold tok_sub, tok_match. cbn [literal followed_by compound].
      replace (starts_with (py "YourTool") (py "YourTool" ++ c :: b)) with true by reflexivity.
      change (drop (length (py "YourTool")) (py "YourTool" ++ c :: b)) with (c :: b).
      cbn [andb]. by rewrite H.
    + apply word_cons; [by apply upper_or_underscore_word|done|reflexivity].
    + unfold dist_words. rewrite !elem_of_cons, elem_of_nil.
      intros [Hq|[Hq|[Hq|[Hq|[]]]]]; discriminate Hq.
  - intros. by apply (later_rules_class U).
  - rewrite replace_in_text_valid by done. f_equal.
    rewrite rewrite_frame; try done.
    + do 2 f_equal. unfold later_rules, patterns. cbn [drop foldl fst snd].
      unfold tok_sub at 5, tok_match. cbn [literal followed_by compound whole_word].
      replace (starts_with (py "YourTool") (py "MCP_YOUR_TOOL_NAME" ++ c :: b))
        with false by reflexivity. cbn [andb].
      unfold tok_sub at 4, tok_match. cbn [literal followed_by compound whole_word].
      replace (starts_with (py "YourTool") (py "MCP_YOUR_TOOL_NAME" ++ c :: b))
        with false by reflexivity. cbn [andb].
      unfold tok_sub at 3, tok_match. cbn [literal followed_by compound whole_word].
      replace (starts_with (py "your_tool_name") (py "MCP_YOUR_TOOL_NAME" ++ c :: b))
        with false by reflexivity. cbn [andb].
      f_equal. unfold tok_sub, tok_match. cbn [literal followed_by compound].
      replace (starts_with (py "MCP_YOUR_TOOL_NAME") (py "MCP_YOUR_TOOL_NAME" ++ c :: b))
        with true by reflexivity.
      change (drop (length (py "MCP_YOUR_TOOL_NAME")) (py "MCP_YOUR_TOOL_NAME" ++ c :: b))
        with (c :: b).
      cbn [andb]. by rewrite H.
    + apply word_cons; [by apply upper_snake_word|done|reflexivity].
    + unfold dist_words. rewrite !elem_of_cons, elem_of_nil.
      intros [Hq|[Hq|[Hq|[Hq|[]]]]]; discriminate Hq.
  - intros. by apply (later_rules_env U).
Qed.

Lemma word_boundary_safety_witness :
  (valid my_tool_names
   /\ is_word_opt no_unicode (last (py "class ")) = false
   /\ is_word_opt no_unicode (head (py "(Base):")) = false)
  /\ replace_in_text no_unicode (py "class " ++ (py "My" ++ py "YourTool" ++ []) ++ py "(Base):")
       my_tool_names
     = Some (py "class MyYourTool(Base):")
  /\ replace_in_text no_unicode (py "class " ++ ([] ++ py "YourTool" ++ py "s") ++ py "(Base):")
       my_tool_names
     = Some (py "class YourTools(Base):")
  /\ replace_in_text no_unicode (py "class " ++ (py "YourTool" ++ py "Config") ++ py "(Base):")
       my_tool_names
     = Some (py "class MyToolConfig(Base):")
  /\ replace_in_text no_unicode (py "class " ++ (py "MCP_YOUR_TOOL_NAME" ++ py "_KEY") ++ py "(Base):")
       my_tool_names
     = Some (py "class MCP_MY_TOOL_KEY(Base):").
Proof.
  assert (Hv : valid my_tool_names) by (vm_compute; reflexivity).
  assert (Hpre : is_word_opt no_unicode (last (py "class ")) = false) by reflexivity.
  assert (Hpost : is_word_opt no_unicode (head (py "(Base):")) = false) by reflexivity.
  destruct (word_boundary_safety no_unicode my_tool_names (py "class ") (py "(Base):")
              Hv Hpre Hpost) as (Hin & _ & _ & Hclass & Henv).
  split; [done|]. split; [|split; [|split]].
  - rewrite Hin; [vm_compute; reflexivity| | | |].
    + unfold word_literals. right. by left.
    + by left.
    + split; [done|vm_compute; reflexivity].
    + vm_compute. reflexivity.
  - rewrite Hin; [vm_compute; reflexivity| | | |].
    + unfold word_literals. right. by left.
    + by right.
    + split; [done|vm_compute; reflexivity].
    + vm_compute. reflexivity.
  - destruct (Hclass (code "C") (py "onfig")) as [Hc _]; [reflexivity..|].
    etrans; [exact Hc|]. vm_compute. reflexivity.
  - destruct (Henv (code "_") (py "KEY")) as [He _]; [reflexivity..|].
    etrans; [exact He|]. vm_compute. reflexivity.
Defined.

(** ** Character classes *)

Ltac char_classes :=
  unfold name_char, is_letter, snake_rest, pascal_rest, kebab_first, kebab_rest, upper_snake,
    upper_or_underscore, ascii_lower, ascii_upper, is_lower, is_upper, is_digit, is_char,
    is_ascii in *;
  change (code "a") with 97 in *; change (code "z") with 122 in *;
  change (code "A") with 65 in *; change (code "Z") with 90 in *;
  change (code "0") with 48 in *; change (code "9") with 57 in *;
  change (code "_") with 95 in *; change (code "-") with 45 in *;
  repeat (match goal with
          | H : context [?a <=? ?b] |- _ => destruct (N.leb_spec a b)
          | H : context [?a <? ?b] |- _ => destruct (N.ltb_spec a b)
          | H : context [?a =? ?b] |- _ => destruct (N.eqb_spec a b)
          | |- context [?a <=? ?b] => destruct (N.leb_spec a b)
          | |- context [?a <? ?b] => destruct (N.ltb_spec a b)
          | |- context [?a =? ?b] => destruct (N.eqb_spec a b)
          end;
          cbn [andb orb negb] in *; try discriminate; try lia);
  cbn in *; try congruence; try lia.

Lemma name_char_ascii c : name_char c = true -> is_ascii c = true.
Proof. intros H. char_classes. Qed.

Lemma forallb_fmap_imp {A B} (f : A -> B) (P : A -> bool) (Q : B -> bool) l :
  (forall a, P a = true -> Q (f a) = true) ->
  forallb P l = true -> forallb Q (f <$> l) = true.
Proof.
  intros H. induction l as [|a l IH]; [done|]. cbn.
  intros [Ha Hl]%andb_prop. by rewrite H, IH.
Qed.

Lemma forallb_imp {A} (P Q : A -> bool) l :
  (forall a, P a = true -> Q a = true) -> forallb P l = true -> forallb Q l = true.
Proof.
  intros H. induction l as [|a l IH]; [done|]. cbn.
  intros [Ha Hl]%andb_prop. by rewrite H, IH.
Qed.

Lemma lower_ascii U s : forallb is_ascii s = true -> lower U s = ascii_lower <$> s.
Proof. intros H. unfold lower. by rewrite H. Qed.

Lemma upper_ascii U s : forallb is_ascii s = true -> upper U s = ascii_upper <$> s.
Proof. intros H. unfold upper. by rewrite H. Qed.

Lemma slug_snake_chars U s :
  forallb is_ascii s = true -> replace_char "-" "_" (lower U s) = snake_char <$> s.
Proof.
  intros H. rewrite lower_ascii by done. unfold replace_char.
  rewrite <- list_fmap_compose. done.
Qed.

Lemma snake_char_rest c : name_char c = true -> snake_rest (snake_char c) = true.
Proof. intros H. unfold snake_char. char_classes. Qed.

Lemma snake_char_first c : is_letter c = true -> is_lower (snake_char c) = true.
Proof. intros H. unfold snake_char. char_classes. Qed.

Lemma snake_rest_ascii c : snake_rest c = true -> is_ascii c = true.
Proof. intros H. char_classes. Qed.

Lemma snake_rest_upper c : snake_rest c = true -> upper_snake (ascii_upper c) = true.
Proof. intros H. char_classes. Qed.

Lemma kebab_char_rest c :
  name_char c = true ->
  kebab_rest (if is_char "_" (ascii_lower c) then code "-" else ascii_lower c) = true.
Proof. intros H. char_classes. Qed.

(** X1: a slug of letters, digits, underscores and hyphens that opens with a
    letter, in either case, and a PascalCase class name give valid names when
    nothing is overridden: the slug in lower case with its hyphens turned
    into underscores, and the three names built on it. *)
Theorem derived_defaults_valid (U : Unicode) (slug cls : str) :
  loose_slug slug = true -> match_pascal cls = true ->
  valid (derive_names U slug cls None None None)
  /\ tool_slug (derive_names U slug cls None None None) = snake_char <$> slug.
Proof.
  intros Hslug Hcls.
  assert (Hchars : forallb name_char slug = true).
  { destruct slug as [|c s]; [done|]. cbn in Hslug |- *.
    apply andb_prop in Hslug as [Hc Hs]. rewrite Hs, andb_true_r. char_classes. }
  assert (Hascii : forallb is_ascii slug = true)
    by (eapply forallb_imp; [apply name_char_ascii|done]).
  assert (Hsnake : forallb snake_rest (snake_char <$> slug) = true)
    by (eapply forallb_fmap_imp; [apply snake_char_rest|done]).
  split; [|by apply slug_snake_chars].
  unfold valid. apply is_valid_names_ok. rewrite is_valid_names_errs.
  unfold violations, derive_names. cbn [tool_slug class_name package_name dist_name env_prefix or_else].
  rewrite slug_snake_chars by done. rewrite Hcls.
  assert (match_snake (snake_char <$> slug) = true) as ->.
  { destruct slug as [|c s]; [done|]. cbn in Hslug, Hsnake |- *.
    apply andb_prop in Hslug as [Hc _]. apply andb_prop in Hsnake as [_ Hs].
    by rewrite snake_char_first, Hs. }
  assert (match_snake (py "mcpstack_" ++ (snake_char <$> slug)) = true) as ->.
  { change (forallb snake_rest (py "cpstack_" ++ (snake_char <$> slug)) = true).
    rewrite forallb_app. apply andb_true_intro; split; [reflexivity|exact Hsnake]. }
  assert (match_kebab (py "mcpstack-" ++ replace_char "_" "-" (lower U slug)) = true) as ->.
  { change (forallb kebab_rest (py "cpstack-" ++ replace_char "_" "-" (lower U slug)) = true).
    rewrite forallb_app. cbn [forallb py]. rewrite lower_ascii by done.
    unfold replace_char. rewrite <- list_fmap_compose.
    apply andb_true_intro; split; [reflexivity|].
    eapply forallb_fmap_imp; [|exact Hchars]. intros c Hc. by apply kebab_char_rest. }
  assert (match_upper_snake (py "MCP_" ++ upper U (snake_char <$> slug)) = true) as ->.
  { change (forallb upper_snake (py "CP_" ++ upper U (snake_char <$> slug)) = true).
    rewrite forallb_app. apply andb_true_intro; split; [reflexivity|].
    rewrite upper_ascii by (eapply forallb_imp; [apply snake_rest_ascii|done]).
    eapply forallb_fmap_imp; [apply snake_rest_upper|done]. }
  reflexivity.
Qed.

Lemma derived_defaults_valid_witness :
  (loose_slug (py "My-Tool2") = true /\ match_pascal (py "MyTool") = true)
  /\ valid (derive_names no_unicode (py "My-Tool2") (py "MyTool") None None None)
  /\ tool_slug (derive_names no_unicode (py "My-Tool2") (py "MyTool") None None None)
     = py "my_tool2".
Proof.
  split; [split; reflexivity|].
  destruct (derived_defaults_valid no_unicode (py "My-Tool2") (py "MyTool") eq_refl eq_refl)
    as [Hv Hs].
  split; [exact Hv|]. rewrite Hs. reflexivity.
Defined.

Lemma snake_char_ascii c : is_ascii c = true -> is_ascii (snake_char c) = true.
Proof. intros H. unfold snake_char. char_classes. Qed.

Lemma snake_char_idempotent c : is_ascii c = true -> snake_char (snake_char c) = snake_char c.
Proof. intros H. unfold snake_char. char_classes. Qed.

Lemma or_else_nonempty x d : d <> [] -> or_else x d <> [].
Proof. intros Hd. by destruct x as [[|c s]|]. Qed.

Lemma or_else_some x d : x <> [] -> or_else (Some x) d = x.
Proof. by destruct x. Qed.

(** X2: for a slug of ASCII characters, deriving again from a derived name
    set, every field given, returns the same name set: the normalised slug
    is left as it is, and the package, distribution and prefix, which are
    never empty, are taken as given. *)
Theorem derive_names_again (U : Unicode) (slug cls : str) (pkg dist env : option str) :
  forallb is_ascii slug = true ->
  let n := derive_names U slug cls pkg dist env in
  derive_names U (tool_slug n) (class_name n)
    (Some (package_name n)) (Some (dist_name n)) (Some (env_prefix n)) = n.
Proof.
  intros Hascii n.
  assert (Hslug : tool_slug n = snake_char <$> slug) by (by apply slug_snake_chars).
  assert (Hagain : replace_char "-" "_" (lower U (tool_slug n)) = tool_slug n).
  { rewrite Hslug, slug_snake_chars
      by (eapply forallb_fmap_imp; [apply snake_char_ascii|done]).
    rewrite <- list_fmap_compose. apply list_fmap_ext. intros i c Hc. cbn.
    apply snake_char_idempotent.
    apply list_elem_of_lookup_2, list_elem_of_In in Hc.
    by apply (proj1 (forallb_forall _ _) Hascii). }
  unfold derive_names at 1. rewrite Hagain.
  rewrite !or_else_some.
  - by destruct n.
  - subst n. cbn. by apply or_else_nonempty.
  - subst n. cbn. by apply or_else_nonempty.
  - subst n. cbn. by apply or_else_nonempty.
Qed.

Lemma derive_names_again_witness :
  forallb is_ascii (py "My-Tool") = true
  /\ derive_names no_unicode (py "my_tool") (py "MyTool")
       (Some (py "mcpstack_my_tool")) (Some (py "my-dist")) (Some (py "MCP_MY_TOOL"))
     = derive_names no_unicode (py "My-Tool") (py "MyTool") None (Some (py "my-dist")) None.
Proof.
  split; [reflexivity|].
  exact (derive_names_again no_unicode (py "My-Tool") (py "MyTool") None (Some (py "my-dist")) None
           eq_refl).
Defined.

Lemma snake_fixed c : snake_rest c = true -> snake_char c = c.
Proof. intros H. unfold snake_char. char_classes. Qed.

Lemma match_snake_rest s : match_snake s = true -> forallb snake_rest s = true /\ s <> [].
Proof.
  destruct s as [|c s]; [done|]. cbn. intros [Hc Hs]%andb_prop. split; [|done].
  rewrite Hs, andb_true_r. char_classes.
Qed.

Lemma valid_slug_normal U names :
  valid names -> replace_char "-" "_" (lower U (tool_slug names)) = tool_slug names.
Proof.
  intros (H1 & _)%valid_fields. apply match_snake_rest in H1 as [H1 _].
  rewrite slug_snake_chars by (eapply forallb_imp; [apply snake_rest_ascii|done]).
  rewrite <- (list_fmap_id (tool_slug names)) at 2.
  apply list_fmap_ext. intros i c Hc. apply snake_fixed.
  apply list_elem_of_lookup_2, list_elem_of_In in Hc.
  by apply (proj1 (forallb_forall _ _) H1).
Qed.

Lemma fullmatch_nonempty first rest s : fullmatch_first_rest first rest s = true -> s <> [].
Proof. by destruct s. Qed.

(** X3: a valid name set saved as [{"names": names}] is resolved to itself
    when no flag is given: what [init] saves is what [preview] and [apply]
    use. *)
Theorem saved_names_resolve (U : Unicode) (names : NameSet) :
  valid names ->
  _ensure_names_from_sources U None None None None None true (Some (config_of names))
  = Return names.
Proof.
  intros Hv. pose proof (valid_slug_normal U names Hv) as Hslug.
  pose proof Hv as (H1 & H2 & H3 & H4 & H5)%valid_fields.
  apply fullmatch_nonempty in H3, H4, H5.
  unfold _ensure_names_from_sources, config_of, names_dict.
  cbn [truthy py_get dict_get String.eqb Ascii.eqb Bool.eqb from_option id result_bind flag_or
       as_str as_optional].
  destruct (package_name names) as [|c3 s3] eqn:E3; [done|].
  destruct (dist_name names) as [|c4 s4] eqn:E4; [done|].
  destruct (env_prefix names) as [|c5 s5] eqn:E5; [done|].
  unfold as_optional. cbn [truthy result_bind as_str].
  match goal with |- context [derive_names U ?a ?b ?c ?d ?e] =>
    assert (derive_names U a b c d e = names) as -> end.
  { unfold derive_names. rewrite Hslug. cbn [or_else]. rewrite <- E3, <- E4, <- E5.
    by destruct names. }
  unfold valid in Hv. destruct (is_valid_names names) as [ok errs]. cbn in Hv. by subst ok.
Qed.

Lemma saved_names_resolve_witness :
  valid my_tool_names
  /\ _ensure_names_from_sources no_unicode None None None None None true
       (Some (config_of my_tool_names)) = Return my_tool_names.
Proof. split; [reflexivity|]. apply saved_names_resolve. reflexivity. Defined.

Lemma walk_up_spec e up :
  match walk_up e up with
  | Some r => exists k, (k < length up)%nat /\ r = reverse (drop k up)
                /\ e (r ++ [py "pyproject.toml"]) = true
                /\ forall j, (j < k)%nat -> e (reverse (drop j up) ++ [py "pyproject.toml"]) = false
  | None => forall j, (j < length up)%nat ->
              e (reverse (drop j up) ++ [py "pyproject.toml"]) = false
  end.
Proof.
  induction up as [|a up IH]; [intros j Hj; cbn in Hj; lia|].
  cbn [walk_up]. destruct (e (reverse (a :: up) ++ _)) eqn:E.
  - exists 0%nat. cbn. repeat split; [lia|done|]. intros j Hj. lia.
  - destruct (walk_up e up) as [r|].
    + destruct IH as (k & Hk & -> & Hr & Hbelow). exists (S k). cbn.
      repeat split; [lia|done|]. intros [|j] Hj; [done|]. apply Hbelow. lia.
    + intros [|j] Hj; [done|]. cbn. apply IH. cbn in Hj. lia.
Qed.

Lemma reverse_drop_reverse {A} (l : list A) k :
  reverse (drop k (reverse l)) = take (length l - k) l.
Proof. by rewrite reverse_drop, length_reverse, reverse_involutive. Qed.

Lemma prefix_is_take {A} (mid l : list A) : mid `prefix_of` l -> mid = take (length mid) l.
Proof. intros [k ->]. by rewrite take_app_length. Qed.

(** X4: [_find_repo_root] returns the nearest ancestor of [start], [start]
    included, that holds a [pyproject.toml], and [start] itself when there is
    none; the anchor of the path is never looked at, so a [pyproject.toml]
    right below it changes nothing. *)
Theorem find_repo_root_nearest (exists_ exists' : path -> bool) (start : path) :
  let r := _find_repo_root exists_ start in
  ((r `prefix_of` start /\ r <> [] /\ exists_ (r ++ [py "pyproject.toml"]) = true
    /\ forall mid, r `prefix_of` mid -> mid `prefix_of` start -> mid <> r ->
         exists_ (mid ++ [py "pyproject.toml"]) = false)
   \/ (r = start
       /\ forall mid, mid `prefix_of` start -> mid <> [] ->
            exists_ (mid ++ [py "pyproject.toml"]) = false))
  /\ ((forall p, p <> [py "pyproject.toml"] -> exists_ p = exists' p) ->
      _find_repo_root exists' start = r).
Proof.
  cbv zeta. split.
  - unfold _find_repo_root. pose proof (walk_up_spec exists_ (reverse start)) as H.
    destruct (walk_up exists_ (reverse start)) as [r|]; cbn [from_option id].
    + left. destruct H as (k & Hk & -> & Hr & Hbelow).
      rewrite length_reverse in Hk. rewrite reverse_drop_reverse in Hr |- *.
      split; [apply prefix_take|]. split.
      { intros E%(f_equal length). rewrite length_take in E. cbn in E. lia. }
      split; [done|]. intros mid Hrm Hms Hne.
      rewrite (prefix_is_take mid start Hms).
      assert (Hlen : (length start - k < length mid)%nat).
      { apply prefix_length in Hrm as Hl. rewrite length_take in Hl.
        destruct (decide (length mid = length start - k)%nat) as [E|]; [|lia].
        exfalso. apply Hne. rewrite (prefix_is_take mid start Hms), E. done. }
      apply prefix_length in Hms.
      specialize (Hbelow (length start - length mid)%nat ltac:(lia)).
      rewrite reverse_drop_reverse in Hbelow.
      by replace (length start - (length start - length mid))%nat with (length mid) in Hbelow
        by lia.
    + right. split; [done|]. intros mid Hms Hne.
      rewrite (prefix_is_take mid start Hms). apply prefix_length in Hms as Hl.
      assert (0 < length mid)%nat by (destruct mid; [done|cbn; lia]).
      rewrite length_reverse in H.
      specialize (H (length start - length mid)%nat ltac:(lia)).
      rewrite reverse_drop_reverse in H.
      by replace (length start - (length start - length mid))%nat with (length mid) in H
        by lia.
  - intros Hsame. unfold _find_repo_root. f_equal.
    induction (reverse start) as [|a up IH]; [done|]. cbn [walk_up].
    rewrite <- Hsame, IH; [done|].
    rewrite reverse_cons. intros E%(f_equal length). rewrite !length_app in E. cbn in E. lia.
Qed.

(** ** What [_skip_path] skips *)

Lemma rfind_from_none c s i : c ∉ s -> rfind_from c s i = None.
Proof.
  revert i. induction s as [|x s IH]; intros i H; [done|]. cbn.
  rewrite IH by (intros ?; apply H; by right).
  destruct (N.eqb_spec x c) as [->|]; [|done]. exfalso. apply H. by left.
Qed.

Lemma rfind_from_last c stem e i :
  c ∉ e -> rfind_from c (stem ++ c :: e) i = Some (i + length stem)%nat.
Proof.
  intros He. revert i. induction stem as [|x stem IH]; intros i.
  - cbn. rewrite rfind_from_none by done. rewrite N.eqb_refl. f_equal. lia.
  - cbn. rewrite IH. f_equal. lia.
Qed.

Lemma rfind_from_bound c s i j : rfind_from c s i = Some j -> (i <= j < i + length s)%nat.
Proof.
  revert i. induction s as [|x s IH]; intros i; [done|]. cbn.
  destruct (rfind_from c s (S i)) as [k|] eqn:E.
  - intros [= ->]. apply IH in E. lia.
  - destruct (x =? c); [|done]. intros [= ->]. lia.
Qed.

(** The suffix is one of the ignored ones exactly when the name is one of
    them after a stem that is not empty. *)
Lemma suffix_ignored name :
  suffix name ∈ IGNORED_SUFFIXES
  <-> exists stem ext, stem <> [] /\ ext ∈ IGNORED_SUFFIXES /\ name = stem ++ ext.
Proof.
  split.
  - intros Hin. unfold suffix in Hin.
    destruct (rfind_from (code ".") name 0) as [i|] eqn:E.
    + destruct ((0 <? i)%nat && (i <? length name - 1)%nat) eqn:Hi.
      * apply andb_prop in Hi as [H0%Nat.ltb_lt H1%Nat.ltb_lt].
        exists (take i name), (drop i name). split; [|split; [done|by rewrite take_drop]].
        intros E0%(f_equal length). rewrite length_take in E0. cbn in E0. lia.
      * exfalso. revert Hin. unfold IGNORED_SUFFIXES.
        rewrite !elem_of_cons, elem_of_nil. intros [H|[H|[H|[]]]]; discriminate H.
    + exfalso. revert Hin. unfold IGNORED_SUFFIXES.
      rewrite !elem_of_cons, elem_of_nil. intros [H|[H|[H|[]]]]; discriminate H.
  - intros (stem & ext & Hstem & Hext & ->).
    assert (exists e, ext = code "." :: e /\ (code "." ∉ e) /\ e <> []) as (e & -> & He & Hne).
    { revert Hext. unfold IGNORED_SUFFIXES. rewrite !elem_of_cons, elem_of_nil.
      intros [->|[->|[->|[]]]]; eexists; (split; [reflexivity|]); (split; [|done]);
        rewrite !elem_of_cons, elem_of_nil; vm_compute; intuition discriminate. }
    unfold suffix. rewrite rfind_from_last by done. cbn [Nat.add].
    match goal with |- context [if ?b then _ else _] => assert (b = true) as -> end.
    { destruct stem as [|x stem]; [done|]. destruct e as [|y e]; [done|].
      apply andb_true_intro. split; apply Nat.ltb_lt.
      - cbn. lia.
      - cbn [app length]. rewrite length_app. cbn [length]. unfold char. lia. }
    by rewrite drop_app_length.
Qed.

(** X5: [_skip_path] skips a path exactly when one of its parts, those of
    the root included, is an ignored directory name, or when its last part is
    [.pyc], [.pyo] or [.DS_Store] after a stem that is not empty; a file
    named just [.DS_Store] has no suffix and is not skipped for its name. *)
Theorem skip_path_iff (root : list str) (p : path) :
  (_skip_path root p = true
   <-> (exists part, part ∈ root ++ p /\ part ∈ IGNORED_PARTS)
       \/ (exists stem ext, stem <> [] /\ ext ∈ IGNORED_SUFFIXES /\ basename p = stem ++ ext))
  /\ ((forall part, part ∈ root ++ p -> part ∉ IGNORED_PARTS) ->
      basename p = py ".DS_Store" -> _skip_path root p = false).
Proof.
  assert (Hparts : existsb (fun part => bool_decide (part ∈ IGNORED_PARTS)) (root ++ p) = true
                   <-> exists part, part ∈ root ++ p /\ part ∈ IGNORED_PARTS).
  { rewrite existsb_exists. split.
    - intros (x & Hx%list_elem_of_In & Hd%bool_decide_eq_true). eauto.
    - intros (x & Hx & Hd). exists x. split; [by apply list_elem_of_In|].
      by apply bool_decide_eq_true. }
  split.
  - unfold _skip_path. rewrite <- suffix_ignored, <- Hparts.
    destruct (existsb _ (root ++ p)); [intuition|].
    destruct (bool_decide_reflect (suffix (basename p) ∈ IGNORED_SUFFIXES)); intuition congruence.
  - intros Hno Hname. unfold _skip_path.
    destruct (existsb _ (root ++ p)) eqn:E.
    + destruct (proj1 Hparts eq_refl) as (part & Hin & Hig). by destruct (Hno part Hin).
    + rewrite Hname. reflexivity.
Qed.

Lemma filter_none {A} (P : A -> Prop) `{forall x, Decision (P x)} (l : list A) :
  (forall x, x ∈ l -> ~ P x) -> filter P l = [].
Proof.
  induction l as [|a l IH]; intros Hl; [done|].
  rewrite filter_cons_False by (apply Hl; by left). apply IH. intros x Hx. apply Hl. by right.
Qed.

(** X6: when a part of the root is an ignored directory name (the template
    checked out below a [node_modules], say), every file below [src] and
    [tests] is skipped, and [pyproject.toml], which is not filtered, is all
    that is enumerated. *)
Theorem ignored_root_silences (st : state) :
  (exists part, part ∈ root_parts st /\ part ∈ IGNORED_PARTS) ->
  iter_files st = if is_file_in (tree st) pyproject then [pyproject] else [].
Proof.
  intros (part & Hin & Hig). rewrite iter_files_eq.
  assert (Hnone : filter (fun p => selected st p) (candidates (tree st)) = []); [|by rewrite Hnone].
  apply filter_none. intros p _ Hsel.
  apply selected_iff in Hsel as [_ Hskip].
  unfold _skip_path in Hskip.
  assert (existsb (fun part => bool_decide (part ∈ IGNORED_PARTS)) (root_parts st ++ p) = true)
    as E; [|by rewrite E in Hskip].
  apply existsb_exists. exists part. split.
  - apply list_elem_of_In, elem_of_app. by left.
  - by apply bool_decide_eq_true.
Qed.

Lemma ignored_root_silences_witness :
  (exists part, part ∈ root_parts below_node_modules /\ part ∈ IGNORED_PARTS)
  /\ iter_files below_node_modules = [pyproject].
Proof.
  assert (H : exists part, part ∈ root_parts below_node_modules /\ part ∈ IGNORED_PARTS).
  { exists (py "node_modules"). unfold IGNORED_PARTS. cbn [root_parts below_node_modules].
    rewrite !elem_of_cons. tauto. }
  split; [exact H|].
  rewrite (ignored_root_silences below_node_modules H). reflexivity.
Defined.

(** X7: [iter_files] yields no path twice, and [pyproject.toml], when it is
    yielded, comes last, after the files of [src] and [tests]. *)
Theorem iter_files_once (st : state) :
  NoDup (iter_files st)
  /\ (pyproject ∈ iter_files st ->
      iter_files st = filter (fun p => selected st p) (candidates (tree st)) ++ [pyproject]).
Proof.
  rewrite iter_files_eq.
  assert (Hnot : pyproject ∉ filter (fun p => selected st p) (candidates (tree st))).
  { intros [_ H]%list_elem_of_filter. by apply pyproject_not_candidate in H. }
  split.
  - apply NoDup_app. split; [apply NoDup_filter, NoDup_candidates|]. split.
    + intros p Hp. destruct (is_file_in (tree st) pyproject); [|by intros ?%elem_of_nil].
      intros ->%list_elem_of_singleton. done.
    + destruct (is_file_in (tree st) pyproject); [apply NoDup_singleton|constructor].
  - destruct (is_file_in (tree st) pyproject); [done|].
    rewrite app_nil_r. intros H. by destruct (Hnot H).
Qed.

Lemma sub_from_absent U p r before s :
  occurs (literal p) s = false -> sub_from U p r before 0 s = s.
Proof.
  revert before. induction s as [|c s IH]; intros before H; [done|].
  cbn [occurs] in H. apply orb_false_elim in H as [Hhere Hrest].
  cbn [sub_from]. unfold match_at. rewrite Hhere, andb_false_r. cbn [andb].
  by rewrite IH.
Qed.

(** X8: a text in which none of the five placeholder literals occurs is
    returned as it is, whatever the valid names. *)
Theorem replace_in_text_absent (U : Unicode) (names : NameSet) (text : str) :
  valid names ->
  existsb (fun rule => occurs (literal rule.1) text) (patterns names) = false ->
  replace_in_text U text names = Some text.
Proof.
  intros Hv Habsent. rewrite replace_in_text_valid by done. f_equal.
  unfold rewrite. revert Habsent. generalize (patterns names). intros rules.
  induction rules as [|rule rules IH]; [done|]. cbn [existsb foldl].
  intros [Hr Hrest]%orb_false_elim. unfold sub at 2. rewrite sub_from_absent by done.
  by apply IH.
Qed.

Lemma replace_in_text_absent_witness :
  (valid my_tool_names
   /\ existsb (fun rule => occurs (literal rule.1) (py "def helper(): return your_tool"))
        (patterns my_tool_names) = false)
  /\ replace_in_text no_unicode (py "def helper(): return your_tool") my_tool_names
     = Some (py "def helper(): return your_tool").
Proof.
  split; [split; reflexivity|]. apply replace_in_text_absent; reflexivity.
Defined.

Lemma prule_sep U names rule A c B :
  rule ∈ patterns names -> c <> code "-" ->
  prule U rule (A ++ Sep c :: B) = prule U rule A ++ Sep c :: prule U rule B.
Proof.
  intros [Hr| ->]%patterns_split Hc.
  - rewrite !(prule_word U names rule) by done. by rewrite on_words_app.
  - rewrite !prule_dist. apply replace_seq_frame; [by rewrite dist_pieces| |lia].
    rewrite dist_pieces, !elem_of_cons, elem_of_nil.
    intros [H|[H|[H|[H|[H|[H|[H|[]]]]]]]]; try discriminate H; injection H as ->; done.
Qed.

Lemma foldl_prule_sep U names rules A c B :
  (forall rule, rule ∈ rules -> rule ∈ patterns names) -> c <> code "-" ->
  foldl (fun ps rule => prule U rule ps) (A ++ Sep c :: B) rules
  = foldl (fun ps rule => prule U rule ps) A rules
    ++ Sep c :: foldl (fun ps rule => prule U rule ps) B rules.
Proof.
  intros Hin Hc. revert A B. induction rules as [|rule rules IH]; intros A B; [done|].
  cbn [foldl]. rewrite (prule_sep U names) by (done || apply Hin; by left).
  apply IH. intros r Hr. apply Hin. by right.
Qed.

(** X9: no match reaches across a character that is neither a word
    character nor a hyphen (a space, a newline, a dot, a quote): the text
    before it and the text after it are rewritten each on its own. *)
Theorem rewrite_at_separator (U : Unicode) (names : NameSet) (a b : str) (c : char) :
  valid names -> is_word U c = false -> c <> code "-" ->
  replace_in_text U (a ++ c :: b) names = Some (rewrite U names a ++ c :: rewrite U names b).
Proof.
  intros Hv Hw Hc. rewrite replace_in_text_valid by done. f_equal.
  rewrite !rewrite_on_pieces by done.
  rewrite pieces_app by (right; exact Hw).
  change (pieces U (c :: b)) with (if is_word U c
                                    then match pieces U b with
                                         | Tok w :: ps => Tok (c :: w) :: ps
                                         | ps => Tok [c] :: ps
                                         end
                                    else Sep c :: pieces U b).
  rewrite Hw. rewrite (foldl_prule_sep U names) by done.
  by rewrite flatten_app, flatten_cons.
Qed.

Lemma rewrite_at_separator_witness :
  (valid my_tool_names /\ is_word no_unicode (code " ") = false /\ code " " <> code "-")
  /\ replace_in_text no_unicode (py "import your_tool_name" ++ code " " :: py "as YourTool")
       my_tool_names
     = Some (py "import my_tool as MyTool").
Proof.
  split; [split; [reflexivity|split; [reflexivity|discriminate]]|].
  rewrite rewrite_at_separator; [|reflexivity|reflexivity|discriminate].
  vm_compute. reflexivity.
Defined.

(** X10: every field of a valid name set is a non-empty run of ASCII
    letters, digits, underscores and hyphens: no field holds a path
    separator, a dot or a backslash.  So [re.sub] reads no replacement as a
    template, and [replace_in_text] returns for every text. *)
Theorem valid_names_plain (U : Unicode) (names : NameSet) :
  valid names ->
  (forall field,
     field ∈ [tool_slug names; class_name names; package_name names; dist_name names;
              env_prefix names] ->
     field <> [] /\ forallb name_char field = true
     /\ (code "/" ∉ field) /\ (code "." ∉ field) /\ (code "\" ∉ field))
  /\ forall text, replace_in_text U text names = Some (rewrite U names text).
Proof.
  intros Hv. split; [|intros text; by apply replace_in_text_valid].
  pose proof Hv as (N1 & N2 & N3 & N4 & N5)%valid_fields.
  apply fullmatch_nonempty in N1, N2, N3, N4, N5.
  pose proof Hv as (H1 & H2 & H3 & H4 & H5)%valid_name_chars.
  assert (Hno : forall s (x : char), forallb name_char s = true -> name_char x = false -> x ∉ s).
  { intros s x Hs Hx Hin%list_elem_of_In.
    rewrite forallb_forall in Hs. apply Hs in Hin. congruence. }
  intros field. rewrite !elem_of_cons, elem_of_nil.
  intros [->|[->|[->|[->|[->|[]]]]]]; (split; [done|]); (split; [done|]);
    repeat split; by apply Hno.
Qed.

Lemma valid_names_plain_witness :
  valid my_tool_names
  /\ (code "/" ∉ package_name my_tool_names)
  /\ replace_in_text no_unicode (py "YourTool") my_tool_names
     = Some (rewrite no_unicode my_tool_names (py "YourTool")).
Proof.
  destruct (valid_names_plain no_unicode my_tool_names eq_refl) as [Hf Hr].
  split; [reflexivity|]. split; [|apply Hr].
  apply (Hf (package_name my_tool_names)). rewrite !elem_of_cons. tauto.
Defined.

Lemma frames_reset hard : frames outside_reset (reset hard).
Proof.
  assert (Hout : forall name, name ∈ reset_targets ->
            forall p, outside_reset p -> ~ within [name] p).
  { intros name Hname p Hp Hw%within_top_head. by apply (Hp name). }
  assert (Hfile : forall name, name ∈ reset_targets ->
            forall member p, outside_reset p -> p <> [name] /\ p <> [name] ++ [basename member]).
  { intros name Hname member p Hp. split; intros ->; by apply (Hp name). }
  unfold reset. destruct hard; cbn [negb].
  2:{ apply frames_bind; [apply frames_emit|]. intros _. apply frames_raise. }
  apply frames_bind; [apply frames_path_exists|]. intros scaffold.
  destruct scaffold; cbn [negb].
  2:{ apply frames_bind; [apply frames_emit|]. intros _. apply frames_raise. }
  apply frames_bind; [apply frames_path_exists|]. intros md.
  apply frames_bind.
  { apply frames_replace_tree, Hout. unfold reset_targets. rewrite !elem_of_cons. tauto. }
  intros _. apply frames_bind.
  { apply frames_replace_tree, Hout. unfold reset_targets. rewrite !elem_of_cons. tauto. }
  intros _. apply frames_bind.
  { apply frames_replace_file. intros p Hp.
    apply (Hfile (py "pyproject.toml")); [|done].
    unfold reset_targets. rewrite !elem_of_cons. tauto. }
  intros _. apply frames_bind; [|intros _; apply frames_emit].
  apply frames_replace_file. intros p Hp.
  destruct md; [apply (Hfile (py "README.md"))|apply (Hfile (py "README.rst"))]; try done;
    unfold reset_targets; rewrite !elem_of_cons; tauto.
Qed.

(** X11: whatever [reset] does and however it ends, with [--hard] or
    without, it leaves every path alone whose first part is not [src],
    [tests], [pyproject.toml], [README.md] or [README.rst]: the scaffold, the
    saved configuration and the rest of the checkout stay as they were. *)
Theorem reset_touches_only (hard : bool) (st : state) (p : path) :
  (forall name, head p = Some name -> name ∉ reset_targets) ->
  tree (reset hard st).2 !! p = tree st !! p.
Proof. intros Hp. by apply (frames_reset hard st). Qed.

Lemma reset_touches_only_witness :
  (forall name, head [py "scripts"; py "scaffold"; py "src"; py "tool.py"] = Some name ->
     name ∉ reset_targets)
  /\ tree (reset true scaffold_without_tests).2 !! [py "scripts"; py "scaffold"; py "src"; py "tool.py"]
     = Some (File (Some (py "class YourTool: pass"))).
Proof.
  assert (H : forall name, head [py "scripts"; py "scaffold"; py "src"; py "tool.py"] = Some name ->
            name ∉ reset_targets).
  { intros name [= <-]. unfold reset_targets. rewrite !elem_of_cons, elem_of_nil.
    intros [E|[E|[E|[E|[E|[]]]]]]; discriminate E. }
  split; [exact H|].
  etrans; [exact (reset_touches_only true scaffold_without_tests _ H)|reflexivity].
Defined.

(** What was at [src ++ q] is at [dst ++ q] in the re-rooted copy. *)
Lemma rebase_lookup_inside src dst t q : rebase src dst t !! (dst ++ q) = t !! (src ++ q).
Proof.
  unfold rebase.
  set (f := fun kv : list str * entry => (dst ++ drop (length src) kv.1, kv.2)).
  set (l := map_to_list (filter (fun kv : list str * entry => within src kv.1) t)).
  assert (Hin : forall k e, (k, e) ∈ l <-> t !! k = Some e /\ within src k).
  { intros k e. subst l. rewrite elem_of_map_to_list. apply map_lookup_filter_Some. }
  assert (Hnd : NoDup (f <$> l).*1).
  { rewrite <- list_fmap_compose. apply NoDup_fmap_2_strong; [|apply NoDup_map_to_list].
    intros [k1 e1] [k2 e2] [H1 [r1 ->]]%Hin [H2 [r2 ->]]%Hin. cbn.
    rewrite !drop_app_length. intros ->%(inj (app dst)).
    pose proof (eq_trans (eq_sym H1) H2) as Hx. by injection Hx as ->. }
  destruct (t !! (src ++ q)) as [e|] eqn:E.
  - apply elem_of_list_to_map; [done|]. apply list_elem_of_fmap.
    exists (src ++ q, e). split.
    + subst f. cbn. by rewrite drop_app_length.
    + apply Hin. split; [done|]. by exists q.
  - apply not_elem_of_list_to_map_1. rewrite <- list_fmap_compose.
    intros ([k e] & Hk & [He [r ->]]%Hin)%list_elem_of_fmap. cbn in Hk.
    rewrite drop_app_length in Hk. apply (inj (app dst)) in Hk as ->.
    pose proof (eq_trans (eq_sym He) E) as Hx. discriminate Hx.
Qed.

Lemma lookup_union_first (m1 m2 : gmap (list str) entry) k :
  (m1 ∪ m2) !! k = match m1 !! k with Some e => Some e | None => m2 !! k end.
Proof.
  destruct (m1 !! k) as [e|] eqn:E.
  - by apply lookup_union_Some_l.
  - by apply lookup_union_r.
Qed.

Lemma first_or_none {A} (x y : option A) :
  (x = None -> y = None) -> match x with Some e => Some e | None => y end = x.
Proof. destruct x; [done|]. intros H. by apply H. Qed.




Lemma only_wrote_refl st : only_wrote st st.
Proof. exists []. by rewrite app_nil_r. Qed.

Lemma only_wrote_logged st evs : existsb moves_or_creates evs = false -> only_wrote st (logged st evs).
Proof. intros H. by exists evs. Qed.

Lemma only_wrote_trans a b c : only_wrote a b -> only_wrote b c -> only_wrote a c.
Proof.
  intros (e1 & H1 & Q1) (e2 & H2 & Q2). exists (e1 ++ e2). split.
  - by rewrite H2, H1, app_assoc.
  - by rewrite existsb_app, Q1, Q2.
Qed.

(** The loop of [_do_apply] on a list of candidates: it returns, having
    met text files only, or stops with the error of the first file that
    does not decode. *)
Lemma rewrite_loop_outcome (U : Unicode) (names : NameSet) (st0 : state) (Hvalid : valid names) l :
  NoDup l ->
  forall n st, agrees_on st0 l st ->
  exists r st',
    for_each l (guarded (rewrite_body U names)) n st = (r, st')
    /\ only_wrote st st'
    /\ match r with
       | Return _ =>
           (forall p, p ∈ l -> selected st0 p -> decodable (tree st0) p)
           /\ root_parts st' = root_parts st
           /\ forall q, q ∉ l -> lookup_entry (tree st') q = lookup_entry (tree st) q
       | Raised e => e = Error
       end.
Proof.
  induction 1 as [|p l Hp Hl IH]; intros n st [Hroot Hagree].
  - exists (Return n), st. split; [done|]. split; [apply only_wrote_refl|].
    split; [by intros p ?%elem_of_nil|done].
  - cbn [for_each]. rewrite run_bind, run_guarded.
    assert (Hsel : selected st p = selected st0 p).
    { unfold selected, is_file_in. rewrite Hroot, Hagree; [done|]. by left. }
    rewrite Hsel. destruct (selected st0 p) eqn:Hs.
    + pose proof Hs as [Hfile _]%Is_true_true%selected_iff.
      unfold is_file_in in Hfile.
      destruct (lookup_entry (tree st0) p) as [[[txt|]|]|] eqn:E; try done.
      * rewrite (run_rewrite_body U names p n _ txt); [|done|]; cycle 1.
        { cbn. rewrite Hagree; [done|by left]. }
        pose proof (lookup_entry_file_nonempty _ _ _ E) as Hpne.
        set (st1 := if bool_decide (rewrite U names txt <> txt)
                    then with_tree (logged (logged st [IsFile p])
                                      [ReadText p; WriteText p (rewrite U names txt)])
                           (<[p := File (Some (rewrite U names txt))]> (tree (logged st [IsFile p])))
                    else logged (logged st [IsFile p]) [ReadText p]).
        set (n1 := if bool_decide (rewrite U names txt <> txt) then (n + 1)%nat else n).
        assert (Hstep : (if bool_decide (rewrite U names txt <> txt)
                         then (Return (n + 1)%nat,
                               with_tree (logged (logged st [IsFile p])
                                            [ReadText p; WriteText p (rewrite U names txt)])
                                 (<[p := File (Some (rewrite U names txt))]>
                                    (tree (logged st [IsFile p]))))
                         else (Return n, logged (logged st [IsFile p]) [ReadText p]))
                        = (Return n1, st1)).
        { subst n1 st1. by destruct (bool_decide _). }
        rewrite Hstep.
        assert (Hw1 : only_wrote st st1).
        { subst st1. destruct (bool_decide _).
          - exists [IsFile p; ReadText p; WriteText p (rewrite U names txt)]. split; [|done].
            cbn. by rewrite <- app_assoc.
          - exists [IsFile p; ReadText p]. split; [|done]. cbn. by rewrite <- app_assoc. }
        assert (Hroot1 : root_parts st1 = root_parts st)
          by (subst st1; by destruct (bool_decide _)).
        assert (Hlook1 : forall q, q <> p -> lookup_entry (tree st1) q = lookup_entry (tree st) q).
        { intros q Hq. subst st1. destruct (bool_decide _); [|done].
          cbn. rewrite lookup_entry_insert by done. by rewrite decide_False. }
        destruct (IH n1 st1) as (r & st' & Hrun & Hw & Hr).
        { split; [congruence|]. intros q Hq. rewrite Hlook1 by (by intros ->).
          apply Hagree. by right. }
        exists r, st'. split; [done|]. split; [by eapply only_wrote_trans|].
        destruct r as [m|e]; [|done]. destruct Hr as (Hdec & Hroot' & Hlook').
        split; [|split; [congruence|]].
        -- intros q [->|Hq]%elem_of_cons Hq'; [|by apply Hdec].
           unfold decodable. by rewrite E.
        -- intros q Hq. rewrite Hlook' by (intros ?; apply Hq; by right).
           apply Hlook1. intros ->. apply Hq. by left.
      * exists (Raised Error), (logged (logged st [IsFile p]) [ReadText p]).
        split; [|split; [|done]].
        -- unfold rewrite_body. rewrite run_bind, run_read_text. cbn [logged tree].
           rewrite Hagree by (by left). by rewrite E.
        -- exists [IsFile p; ReadText p]. split; [|done]. cbn. by rewrite <- app_assoc.
    + destruct (IH n (logged st [IsFile p])) as (r & st' & Hrun & Hw & Hr).
      { split; [done|]. intros q Hq. cbn. apply Hagree. by right. }
      exists r, st'. split; [done|]. split.
      { eapply only_wrote_trans; [|exact Hw]. by apply only_wrote_logged. }
      destruct r as [m|e]; [|done]. destruct Hr as (Hdec & Hroot' & Hlook').
      split; [|split; [done|]].
      * intros q [->|Hq]%elem_of_cons Hq'; [|by apply Hdec]. by rewrite Hs in Hq'.
      * intros q Hq. rewrite Hlook' by (intros ?; apply Hq; by right). done.
Qed.

Lemma for_iter_files_prelude {S} (body : path -> S -> M S) (s : S) st :
  exists evs,
    existsb moves_or_creates evs = false /\
    for_iter_files body s st
    = (s <- for_each (candidates (tree st)) (guarded body) s ;;
       there <- path_exists pyproject ;;
       regular <- (if there then is_file pyproject else ret false) ;;
       if regular then body pyproject s else ret s) (logged st evs).
Proof.
  rewrite for_iter_files_eq. rewrite run_bind, run_path_exists.
  unfold candidates. destruct (exists_in (tree st) SRC).
  - rewrite run_bind, run_path_exists. cbn [logged tree andb].
    destruct (exists_in (tree st) TESTS).
    + exists [Exists SRC; Exists TESTS; Rglob SRC; Rglob TESTS]. split; [done|].
      rewrite !logged_logged. rewrite !run_bind. rewrite run_rglob.
      rewrite run_bind, run_rglob. cbn [logged tree]. by rewrite !logged_logged.
    + exists [Exists SRC; Exists TESTS]. split; [done|]. by rewrite !logged_logged.
  - exists [Exists SRC]. split; [done|]. reflexivity.
Qed.

(** X13: with [--yes], when one of the enumerated files does not decode as
    UTF-8, [_do_apply] ends with the error of reading it: the closing panel
    is not reached, and no directory has been created or moved; the run has
    done nothing but look at files and write some of them. *)
Theorem apply_stops_at_undecodable (U : Unicode) (names : NameSet) (answer : bool)
    (st : state) (p : path) :
  valid names -> p ∈ iter_files st -> decodable (tree st) p = false ->
  exists st',
    _do_apply U names true answer st = (Raised Error, st')
    /\ exists evs, trace st' = trace st ++ evs /\ existsb moves_or_creates evs = false.
Proof.
  intros Hv Hp Hbad.
  assert (Hloop : exists st', rewrite_files U names st = (Raised Error, st') /\ only_wrote st st').
  { rewrite rewrite_files_eq.
    destruct (for_iter_files_prelude (rewrite_body U names) 0%nat st) as (evs & Hevs & ->).
    rewrite run_bind.
    destruct (rewrite_loop_outcome U names st Hv (candidates (tree st)) (NoDup_candidates _)
                0%nat (logged st evs)) as (r & st1 & Hrun & Hw & Hr); [by split|].
    rewrite Hrun.
    assert (Hw0 : only_wrote st st1).
    { eapply only_wrote_trans; [|exact Hw]. by apply only_wrote_logged. }
    destruct r as [m|e]; [|subst e; eauto].
    destruct Hr as (Hdec & _ & Hlook).
    rewrite iter_files_eq, elem_of_app, list_elem_of_filter in Hp.
    destruct Hp as [[Hsel Hin]|Hpy].
    { specialize (Hdec p Hin Hsel). rewrite Hbad in Hdec. done. }
    destruct (is_file_in (tree st) pyproject) eqn:Hfile; [|by apply elem_of_nil in Hpy].
    apply list_elem_of_singleton in Hpy as ->.
    assert (Hpy : lookup_entry (tree st1) pyproject = Some (File None)).
    { rewrite Hlook by apply pyproject_not_candidate. cbn [logged tree].
      unfold is_file_in, decodable in *.
      by destruct (lookup_entry (tree st) pyproject) as [[[]|]|]. }
    rewrite run_bind, run_path_exists. unfold exists_in. rewrite Hpy.
    rewrite run_bind, run_is_file. cbn [logged tree]. unfold is_file_in. rewrite Hpy.
    unfold rewrite_body. rewrite run_bind, run_read_text. cbn [logged tree]. rewrite Hpy.
    eexists. split; [reflexivity|].
    eapply only_wrote_trans; [exact Hw0|].
    exists [Exists pyproject; IsFile pyproject; ReadText pyproject]. split; [|done].
    cbn. by rewrite <- !app_assoc. }
  destruct Hloop as (st' & Hrun & Hw). exists st'. split; [|exact Hw].
  unfold _do_apply. rewrite run_bind, run_ret. cbn [negb]. by rewrite run_bind, Hrun.
Qed.

Lemma apply_stops_at_undecodable_witness :
  (valid my_tool_names
   /\ [py "src"; py "mcpstack_your_tool_name"; py "logo.png"] ∈ iter_files with_logo
   /\ decodable (tree with_logo) [py "src"; py "mcpstack_your_tool_name"; py "logo.png"] = false)
  /\ (_do_apply no_unicode my_tool_names true false with_logo).1 = Raised Error
  /\ is_dir_in (tree (_do_apply no_unicode my_tool_names true false with_logo).2)
       [py "src"; py "mcpstack_your_tool_name"] = true.
Proof.
  assert (Hin : [py "src"; py "mcpstack_your_tool_name"; py "logo.png"] ∈ iter_files with_logo).
  { apply list_elem_of_In. vm_compute. tauto. }
  split; [split; [reflexivity|split; [exact Hin|reflexivity]]|].
  destruct (apply_stops_at_undecodable no_unicode my_tool_names false with_logo _
              eq_refl Hin eq_refl) as (st' & Hrun & _).
  split; [by rewrite Hrun|]. vm_compute. reflexivity.
Defined.

Lemma make_dirs_there t a : is_dir_in t [a] = true -> make_dirs t [a] = Some t.
Proof.
  intros H. unfold make_dirs. cbn.
  assert (is_file_in t [a] = false) as ->.
  { unfold is_file_in, is_dir_in in *. by destruct (lookup_entry t [a]) as [[]|]. }
  assert (exists_in t [a] = true) as ->.
  { unfold exists_in, is_dir_in in *. by destruct (lookup_entry t [a]) as [[]|]. }
  done.
Qed.

Lemma run_mkdir_parents_there a st :
  is_dir_in (tree st) [a] = true -> mkdir_parents [a] st = (Return tt, logged st [Mkdir [a]]).
Proof.
  intros H. unfold mkdir_parents, bind, emit, get_tree, set_tree. cbn.
  by rewrite make_dirs_there.
Qed.

Lemma run_move_dir src dst st :
  lookup_entry (tree st) src = Some Dir ->
  exists_in (tree st) dst = false ->
  ~ within src dst ->
  make_dirs (tree st) (parent dst) = Some (tree st) ->
  move src dst st
  = (Return tt,
     with_tree (logged st [Move src dst]) (rebase src dst (tree st) ∪ remove_tree src (tree st))).
Proof.
  intros Hsrc Hdst Hnot Hmk. unfold move, bind, emit, get_tree, set_tree, raise. cbn.
  assert (is_dir_in (tree st) dst = false) as ->.
  { unfold exists_in, is_dir_in in *. by destruct (lookup_entry (tree st) dst). }
  rewrite Hsrc, Hdst. rewrite bool_decide_false by done. cbn. by rewrite Hmk.
Qed.

Lemma changed_is_file U names st q :
  q ∈ changed U names st (iter_files st) -> is_file_in (tree st) q = true.
Proof.
  unfold changed. intros [_ Hq]%list_elem_of_filter.
  rewrite iter_files_eq, elem_of_app, list_elem_of_filter in Hq.
  destruct Hq as [[Hsel _]|Hpy].
  - by apply selected_iff in Hsel as [? _].
  - destruct (is_file_in (tree st) pyproject) eqn:E; [|by apply elem_of_nil in Hpy].
    by apply list_elem_of_singleton in Hpy as ->.
Qed.

Lemma after_loop_not_file U names st q :
  is_file_in (tree st) q = false -> after_loop U names st q = lookup_entry (tree st) q.
Proof.
  intros H. unfold after_loop. rewrite decide_False; [done|].
  intros Hq%changed_is_file. congruence.
Qed.

Lemma within_pkg_dirs a b p : a <> b -> within (SRC ++ [a]) p -> ~ within (SRC ++ [b]) p.
Proof. intros Hab [r ->] [r' Hr]. cbn in Hr. injection Hr as Hr _. by apply Hab. Qed.

Lemma after_loop_free U names st st1 :
  (forall p, within (new_pkg_dir names) p -> tree st !! p = None) ->
  (forall q, lookup_entry (tree st1) q = after_loop U names st q) ->
  forall q, tree st1 !! (new_pkg_dir names ++ q) = None.
Proof.
  intros Hfree Hlook q. specialize (Hlook (new_pkg_dir names ++ q)).
  assert (Hq : tree st !! (new_pkg_dir names ++ q) = None) by (apply Hfree; by exists q).
  rewrite after_loop_not_file in Hlook.
  - etrans; [exact Hlook|exact Hq].
  - unfold is_file_in. change (lookup_entry (tree st) (new_pkg_dir names ++ q))
      with (tree st !! (new_pkg_dir names ++ q)). by rewrite Hq.
Qed.

Lemma moved_tree_new names t q :
  package_name names <> py "mcpstack_your_tool_name" ->
  (forall q, t !! (new_pkg_dir names ++ q) = None) ->
  moved_tree names t !! (new_pkg_dir names ++ q) = t !! (old_pkg_dir ++ q).
Proof.
  intros Hpkg Hfree. unfold moved_tree. rewrite lookup_union_first, rebase_lookup_inside.
  apply first_or_none. intros _.
  rewrite remove_tree_lookup_other; [apply Hfree|].
  intros Hw. eapply (within_pkg_dirs (py "mcpstack_your_tool_name") (package_name names));
    [congruence|exact Hw|]. by exists q.
Qed.

(** The run of [_do_apply] that moves the package directory. *)
Lemma do_apply_moving U names answer st :
  valid names ->
  forallb (decodable (tree st)) (iter_files st) = true ->
  is_dir_in (tree st) SRC = true ->
  is_dir_in (tree st) old_pkg_dir = true ->
  package_name names <> py "mcpstack_your_tool_name" ->
  (forall p, within (new_pkg_dir names) p -> tree st !! p = None) ->
  exists st1,
    (forall q, lookup_entry (tree st1) q = after_loop U names st q)
    /\ _do_apply U names true answer st
       = (Return tt,
          logged (with_tree (logged (logged (logged st1 [Exists old_pkg_dir]) [Mkdir SRC])
                               [Move old_pkg_dir (new_pkg_dir names)])
                    (moved_tree names (tree st1)))
            [Applied (length (changed U names st (iter_files st))) (Some (new_pkg_dir names))]).
Proof.
  intros Hv Hdec Hsrc Hold Hpkg Hfree.
  destruct (rewrite_files_run U names st Hv Hdec) as (st1 & Hrun & _ & Hlook0).
  assert (Hlook : forall q, lookup_entry (tree st1) q = after_loop U names st q)
    by (intros q; unfold after_loop; apply Hlook0).
  clear Hlook0. exists st1. split; [exact Hlook|].
  assert (Hold1 : lookup_entry (tree st1) old_pkg_dir = Some Dir).
  { rewrite Hlook, after_loop_not_file; unfold is_dir_in, is_file_in in *;
      by destruct (lookup_entry (tree st) old_pkg_dir) as [[]|]. }
  assert (Hsrc1 : is_dir_in (tree st1) SRC = true).
  { unfold is_dir_in at 1. rewrite Hlook, after_loop_not_file; unfold is_dir_in, is_file_in in *;
      by destruct (lookup_entry (tree st) SRC) as [[]|]. }
  pose proof (after_loop_free U names st st1 Hfree Hlook) as Hfree1.
  unfold _do_apply. rewrite run_bind, run_ret. cbn [negb]. rewrite run_bind, Hrun.
  fold old_pkg_dir. fold (new_pkg_dir names).
  rewrite run_bind, run_path_exists.
  unfold exists_in at 1. rewrite Hold1. rewrite bool_decide_true; cycle 1.
  { unfold old_pkg_dir, new_pkg_dir. intros E. apply (inj (app SRC)) in E. congruence. }
  cbn [andb]. rewrite run_bind.
  change (parent (new_pkg_dir names)) with [py "src"].
  rewrite run_bind, (run_mkdir_parents_there (py "src")) by exact Hsrc1.
  rewrite run_bind, run_move_dir; [reflexivity|exact Hold1| | |].
  - unfold exists_in. cbn [logged tree].
    change (lookup_entry (tree st1) (new_pkg_dir names))
      with (tree st1 !! (new_pkg_dir names)).
    rewrite <- (app_nil_r (new_pkg_dir names)). by rewrite Hfree1.
  - intros Hw. eapply (within_pkg_dirs (py "mcpstack_your_tool_name") (package_name names));
      [congruence|exact Hw|]. by exists [].
  - change (parent (new_pkg_dir names)) with [py "src"]. by apply make_dirs_there.
Qed.

(** X14: with [--yes], valid names, a tree whose enumerated files all decode,
    a package directory [src/mcpstack_your_tool_name], a package name other
    than the placeholder and nothing yet at [src/<package_name>]:
    [_do_apply] returns; the package directory is then at
    [src/<package_name>], file by file as the loop left it, and nothing
    remains at or below the old name; every other path is as the loop left
    it; and the closing panel names the new directory. *)
Theorem apply_moves_package (U : Unicode) (names : NameSet) (answer : bool) (st : state) :
  valid names ->
  forallb (decodable (tree st)) (iter_files st) = true ->
  is_dir_in (tree st) SRC = true ->
  is_dir_in (tree st) old_pkg_dir = true ->
  package_name names <> py "mcpstack_your_tool_name" ->
  (forall p, within (new_pkg_dir names) p -> tree st !! p = None) ->
  exists st',
    _do_apply U names true answer st = (Return tt, st')
    /\ (forall q, tree st' !! (new_pkg_dir names ++ q) = after_loop U names st (old_pkg_dir ++ q))
    /\ (forall p, within old_pkg_dir p -> tree st' !! p = None)
    /\ (forall p, ~ within old_pkg_dir p -> ~ within (new_pkg_dir names) p ->
          lookup_entry (tree st') p = after_loop U names st p)
    /\ last (trace st')
       = Some (Applied (length (changed U names st (iter_files st))) (Some (new_pkg_dir names))).
Proof.
  intros Hv Hdec Hsrc Hold Hpkg Hfree.
  destruct (do_apply_moving U names answer st Hv Hdec Hsrc Hold Hpkg Hfree)
    as (st1 & Hlook & Hrun).
  pose proof (after_loop_free U names st st1 Hfree Hlook) as Hfree1.
  eexists. split; [exact Hrun|]. cbn [logged with_tree tree trace].
  split; [|split; [|split]].
  - intros q. rewrite moved_tree_new by done. apply (Hlook (old_pkg_dir ++ q)).
  - intros p Hp. unfold moved_tree. rewrite lookup_union_r.
    + by apply remove_tree_lookup_within.
    + apply rebase_lookup_outside.
      by apply (within_pkg_dirs (py "mcpstack_your_tool_name") (package_name names)).
  - intros p Hpo Hpn. rewrite <- Hlook. destruct p as [|a p]; [done|].
    cbn [lookup_entry]. unfold moved_tree. rewrite lookup_union_r.
    + by apply remove_tree_lookup_other.
    + by apply rebase_lookup_outside.
  - apply last_snoc.
Qed.

Lemma apply_moves_package_witness :
  (valid my_tool_names
   /\ forallb (decodable (tree ten_files)) (iter_files ten_files) = true
   /\ is_dir_in (tree ten_files) SRC = true
   /\ is_dir_in (tree ten_files) old_pkg_dir = true
   /\ package_name my_tool_names <> py "mcpstack_your_tool_name"
   /\ forall p, within (new_pkg_dir my_tool_names) p -> tree ten_files !! p = None)
  /\ tree (_do_apply no_unicode my_tool_names true false ten_files).2
       !! (new_pkg_dir my_tool_names ++ [py "tool.py"])
     = Some (File (Some (py "class MyTool(BaseTool): pass")))
  /\ tree (_do_apply no_unicode my_tool_names true false ten_files).2
       !! (old_pkg_dir ++ [py "tool.py"]) = None.
Proof.
  assert (Hfree : forall p, within (new_pkg_dir my_tool_names) p -> tree ten_files !! p = None).
  { intros p [r ->]. apply not_elem_of_list_to_map_1.
    intros Hin%list_elem_of_In. vm_compute in Hin.
    repeat (destruct Hin as [Hin|Hin]; [discriminate Hin|]). done. }
  assert (Hpkg : package_name my_tool_names <> py "mcpstack_your_tool_name") by discriminate.
  split; [repeat split; try reflexivity; done|].
  destruct (apply_moves_package no_unicode my_tool_names false ten_files
              eq_refl eq_refl eq_refl eq_refl Hpkg Hfree) as (st' & Hrun & Hnew & Hgone & _).
  rewrite Hrun. cbn [snd]. split.
  - rewrite Hnew. vm_compute. reflexivity.
  - apply Hgone. by exists [py "tool.py"].
Defined.

(** X15: the root that [_find_repo_root] gives for [SCAFFOLD_DIR] and
    [CONFIG_PATH] is the directory above the script's, which is the root of
    [SRC] and [TESTS], exactly when that directory is not the anchor and
    holds a [pyproject.toml], and neither the script's directory nor the
    script's own path does. *)
Theorem template_roots_agree (exists_ : path -> bool) (root : path) (dir file : str) :
  _find_repo_root exists_ (root ++ [dir; file]) = parents_1 (root ++ [dir; file])
  <-> root <> []
      /\ exists_ (root ++ [py "pyproject.toml"]) = true
      /\ exists_ (root ++ [dir; py "pyproject.toml"]) = false
      /\ exists_ (root ++ [dir; file; py "pyproject.toml"]) = false.
Proof.
  assert (Hp : parents_1 (root ++ [dir; file]) = root).
  { unfold parents_1, parent. change [dir; file] with ([dir] ++ [file]).
    rewrite app_assoc, !removelast_last. done. }
  rewrite Hp. unfold _find_repo_root.
  rewrite reverse_app. change (reverse [dir; file]) with [file; dir]. cbn [app].
  assert (H2 : reverse (dir :: reverse root) = root ++ [dir])
    by (by rewrite reverse_cons, reverse_involutive).
  assert (H3 : reverse (file :: dir :: reverse root) = root ++ [dir; file]).
  { rewrite reverse_cons, H2, <- app_assoc. done. }
  cbn [walk_up]. rewrite H3, H2.
  rewrite <- !app_assoc. cbn [app].
  destruct (exists_ (root ++ [dir; file; py "pyproject.toml"])) eqn:E3.
  { cbn. split.
    - intros E%(f_equal length). rewrite length_app in E. cbn in E. lia.
    - intros (_ & _ & _ & ?). done. }
  destruct (exists_ (root ++ [dir; py "pyproject.toml"])) eqn:E2.
  { cbn. split.
    - intros E%(f_equal length). rewrite length_app in E. cbn in E. lia.
    - intros (_ & _ & ? & _). done. }
  destruct root as [|a root] using rev_ind.
  { cbn. split; [discriminate|]. by intros (? & _). }
  clear IHroot. rewrite reverse_snoc. cbn [walk_up]. rewrite reverse_cons, reverse_involutive.
  destruct (exists_ ((root ++ [a]) ++ [py "pyproject.toml"])) eqn:E1.
  { cbn. split; [|done]. intros _. split; [by destruct root|done]. }
  split; [|by intros (_ & ? & _)].
  intros E. exfalso.
  pose proof (walk_up_spec exists_ (reverse root)) as Hs.
  destruct (walk_up exists_ (reverse root)) as [r|]; cbn in E.
  - destruct Hs as (k & _ & -> & _). rewrite reverse_drop_reverse in E.
    apply (f_equal length) in E. rewrite length_take, length_app in E. cbn in E. lia.
  - apply (f_equal length) in E. rewrite !length_app in E. cbn in E. lia.
Qed.

Lemma run_load_config loads st :
  _load_config loads st
  = (Return (config_in loads (tree st)),
     logged st (Exists CONFIG_PATH
                :: if exists_in (tree st) CONFIG_PATH then [ReadText CONFIG_PATH] else [])).
Proof.
  unfold _load_config, config_in. rewrite run_bind, run_path_exists.
  unfold exists_in. destruct (lookup_entry (tree st) CONFIG_PATH) as [e|] eqn:E; [|done].
  unfold try_except. rewrite run_bind, run_read_text. cbn [logged tree]. rewrite E.
  destruct e as [[text|]|]; try (by rewrite logged_logged).
  rewrite run_bind. destruct (loads text) as [cfg|]; cbn; by rewrite logged_logged.
Qed.

(** X16: [_load_config] never raises and changes nothing: it returns what
    [json.loads] makes of the file when there is one that reads as text and
    parses, and [None] in every other case: no file, a directory, bytes that
    do not decode, text that does not parse. *)
Theorem load_config_safe (loads : str -> option pyval) (st : state) :
  exists st',
    _load_config loads st
    = (Return match tree st !! CONFIG_PATH with
              | Some (File (Some text)) => loads text
              | _ => None
              end, st')
    /\ tree st' = tree st
    /\ exists evs, trace st' = trace st ++ evs
                   /\ forall e, e ∈ evs -> e = Exists CONFIG_PATH \/ e = ReadText CONFIG_PATH.
Proof.
  rewrite run_load_config. eexists. split; [reflexivity|]. split; [done|].
  eexists. split; [reflexivity|].
  intros e He. destruct (exists_in (tree st) CONFIG_PATH);
    repeat (apply elem_of_cons in He as [->|He]; [tauto|]); by apply elem_of_nil in He.
Qed.



(** ** The commands check the names first *)

Lemma ensured_names_valid U ts cn pn dn ep prefer loaded names :
  _ensure_names_from_sources U ts cn pn dn ep prefer loaded = Return names -> valid names.
Proof.
  unfold _ensure_names_from_sources.
  repeat (match goal with
          | |- result_bind ?r _ = _ -> _ => destruct r as [?|?]; cbn [result_bind]; [|done]
          end).
  unfold valid.
  destruct (is_valid_names _) as [[] errs] eqn:E; [|done].
  intros [= <-]. by rewrite E.
Qed.

(** X18: [apply] and [preview] settle the names before anything else.  All
    they have done by then is look for the saved configuration and read it.
    When the names do not resolve, or are not valid, the command ends there
    with that error: nothing asked, nothing written.  Otherwise the names are
    valid, and the command goes on as [_do_apply], or [_do_preview], on these
    names. *)
Theorem commands_validate_first (loads : str -> option pyval) (U : Unicode)
    (ts cn pn dn ep : option str) (use_config yes answer : bool) (st : state) :
  exists evs,
    (forall e, e ∈ evs -> e = Exists CONFIG_PATH \/ e = ReadText CONFIG_PATH)
    /\ match _ensure_names_from_sources U ts cn pn dn ep use_config
                (if use_config then config_in loads (tree st) else None) with
       | Return names =>
           valid names
           /\ apply loads U ts cn pn dn ep use_config yes answer st
              = _do_apply U names yes answer (logged st evs)
           /\ preview loads U ts cn pn dn ep use_config st = _do_preview U names (logged st evs)
       | Raised e =>
           apply loads U ts cn pn dn ep use_config yes answer st = (Raised e, logged st evs)
           /\ preview loads U ts cn pn dn ep use_config st = (Raised e, logged st evs)
       end.
Proof.
  assert (Hload : exists evs,
             (forall e, e ∈ evs -> e = Exists CONFIG_PATH \/ e = ReadText CONFIG_PATH)
             /\ (if use_config then _load_config loads else ret None) st
                = (Return (if use_config then config_in loads (tree st) else None),
                   logged st evs)).
  { destruct use_config.
    - eexists. split; [|apply run_load_config].
      intros e He. destruct (exists_in (tree st) CONFIG_PATH);
        repeat (apply elem_of_cons in He as [->|He]; [tauto|]); by apply elem_of_nil in He.
    - exists []. split; [by intros e ?%elem_of_nil|]. unfold ret, logged.
      rewrite app_nil_r. by destruct st. }
  destruct Hload as (evs & Hevs & Hload). exists evs. split; [exact Hevs|].
  unfold apply, preview, names_from_sources. rewrite !run_bind, Hload.
  destruct (_ensure_names_from_sources _ _ _ _ _ _ _ _) as [names|e] eqn:E; [|done].
  split; [by eapply ensured_names_valid|]. done.
Qed.

(** ** What the preview shows *)




Lemma run_guarded_until {S} (body : path -> S -> M (S * bool)) p s st :
  guarded_until body p s st
  = if selected st p then body p s (logged st [IsFile p])
    else (Return (s, false), logged st [IsFile p]).
Proof.
  unfold guarded_until, selected. rewrite run_bind, run_is_file.
  destruct (is_file_in (tree st) p); [|done]. cbn [negb andb].
  rewrite run_bind, run_get_root_parts. cbn [logged root_parts].
  by destruct (_skip_path (root_parts st) p).
Qed.

Lemma run_check_file val p found st :
  check_file val p found st
  = (match lookup_entry (tree st) p with
     | Some (File (Some txt)) => Return (if occurs val txt then (true, true) else (found, false))
     | _ => Raised Error
     end, logged st [ReadText p]).
Proof.
  unfold check_file. rewrite run_bind, run_read_text.
  destruct (lookup_entry (tree st) p) as [[[txt|]|]|]; try done.
  by destruct (occurs val txt).
Qed.

Lemma search_loop val l st :
  exists evs,
    forallb looks evs = true /\
    for_each_until l (guarded_until (check_file val)) false st
    = (match search (tree st) val (filter (fun p => selected st p) l) with
       | Return b => Return (b, b)
       | Raised e => Raised e
       end, logged st evs).
Proof.
  revert st. induction l as [|p l IH]; intros st.
  - exists []. split; [done|]. cbn. unfold logged. rewrite app_nil_r. by destruct st.
  - cbn [for_each_until]. rewrite run_bind, run_guarded_until.
    destruct (IH (logged st [IsFile p; ReadText p])) as (evs1 & Hevs1 & IH1).
    destruct (IH (logged st [IsFile p])) as (evs2 & Hevs2 & IH2).
    destruct (selected st p) eqn:Hs.
    + rewrite filter_cons_True by (by rewrite Hs).
      rewrite run_check_file. cbn [logged tree search]. rewrite logged_logged. cbn [app].
      destruct (lookup_entry (tree st) p) as [[[txt|]|]|].
      * destruct (occurs val txt); cbn [snd fst].
        -- exists [IsFile p; ReadText p]. by split.
        -- exists ([IsFile p; ReadText p] ++ evs1). split; [by rewrite forallb_app, Hevs1|].
           rewrite <- logged_logged. exact IH1.
      * exists [IsFile p; ReadText p]. by split.
      * exists [IsFile p; ReadText p]. by split.
      * exists [IsFile p; ReadText p]. by split.
    + rewrite filter_cons_False by (rewrite Hs; naive_solver). cbn [snd fst].
      exists ([IsFile p] ++ evs2). split; [by rewrite forallb_app, Hevs2|].
      rewrite <- logged_logged. exact IH2.
Qed.

Lemma search_app t val a b :
  search t val (a ++ b)
  = match search t val a with
    | Return false => search t val b
    | r => r
    end.
Proof.
  induction a as [|p a IH]; [done|]. cbn [app search].
  destruct (lookup_entry t p) as [[[txt|]|]|]; try done. by destruct (occurs val txt).
Qed.

Lemma for_iter_files_until_prelude {S} (body : path -> S -> M (S * bool)) (s : S) st :
  exists evs,
    forallb looks evs = true /\
    for_iter_files_until body s st
    = (r <- for_each_until (candidates (tree st)) (guarded_until body) s ;;
       if r.2 then ret r.1
       else
         there <- path_exists pyproject ;;
         regular <- (if there then is_file pyproject else ret false) ;;
         if regular then r' <- body pyproject r.1 ;; ret r'.1 else ret r.1) (logged st evs).
Proof.
  unfold for_iter_files_until. rewrite run_bind, run_path_exists.
  unfold candidates. destruct (exists_in (tree st) SRC).
  - rewrite run_bind, run_path_exists. cbn [logged tree andb].
    destruct (exists_in (tree st) TESTS).
    + exists [Exists SRC; Exists TESTS; Rglob SRC; Rglob TESTS]. split; [done|].
      rewrite !logged_logged. rewrite !run_bind. rewrite run_rglob.
      rewrite run_bind, run_rglob. cbn [logged tree]. by rewrite !logged_logged.
    + exists [Exists SRC; Exists TESTS]. split; [done|]. by rewrite !logged_logged.
  - exists [Exists SRC]. split; [done|]. reflexivity.
Qed.

(** The inner loop of [validate] changes nothing, and finds what [search]
    finds in the files that [iter_files] lists. *)
Lemma look_for_run val st :
  exists evs,
    forallb looks evs = true /\
    look_for val st = (search (tree st) val (iter_files st), logged st evs).
Proof.
  unfold look_for.
  destruct (for_iter_files_until_prelude (check_file val) false st) as (evs0 & Hevs0 & ->).
  rewrite run_bind.
  destruct (search_loop val (candidates (tree st)) (logged st evs0)) as (evs1 & Hevs1 & ->).
  rewrite iter_files_eq, search_app. cbn [logged tree].
  change (filter (fun p => selected (logged st evs0) p) (candidates (tree st)))
    with (filter (fun p => selected st p) (candidates (tree st))).
  destruct (search (tree st) val (filter _ _)) as [[]|e]; cbn [fst snd].
  - exists (evs0 ++ evs1). split; [by rewrite forallb_app, Hevs0, Hevs1|].
    by rewrite run_ret, logged_logged.
  - rewrite run_bind, run_path_exists. cbn [logged tree]. rewrite !logged_logged.
    unfold exists_in, is_file_in.
    destruct (lookup_entry (tree st) pyproject) as [[txt|]|] eqn:E.
    + rewrite run_bind, run_is_file. cbn [logged tree]. unfold is_file_in. rewrite E.
      rewrite run_bind, run_check_file. cbn [logged tree search]. rewrite E.
      exists (evs0 ++ evs1 ++ [Exists pyproject; IsFile pyproject; ReadText pyproject]).
      split; [by rewrite !forallb_app, Hevs0, Hevs1|].
      rewrite ?logged_logged, <- ?app_assoc. cbn [app].
      destruct txt as [txt|]; [|done]. by destruct (occurs val txt).
    + rewrite run_bind, run_is_file. cbn [logged tree]. unfold is_file_in. rewrite E.
      exists (evs0 ++ evs1 ++ [Exists pyproject; IsFile pyproject]).
      split; [by rewrite !forallb_app, Hevs0, Hevs1|].
      by rewrite run_ret, ?logged_logged, <- ?app_assoc.
    + exists (evs0 ++ evs1 ++ [Exists pyproject]).
      split; [by rewrite !forallb_app, Hevs0, Hevs1|].
      by rewrite ?run_bind, ?run_ret, ?logged_logged, <- ?app_assoc.
  - exists (evs0 ++ evs1). split; [by rewrite forallb_app, Hevs0, Hevs1|].
    by rewrite logged_logged.
Qed.

Lemma iter_files_logged st evs : iter_files (logged st evs) = iter_files st.
Proof. by rewrite !iter_files_eq. Qed.

Lemma validate_loop vals missing st :
  exists evs,
    forallb looks evs = true /\
    for_each vals
      (fun val missing =>
         found <- look_for val ;;
         if found then ret missing else ret (missing ++ [val])) missing st
    = (report (tree st) (iter_files st) vals missing, logged st evs).
Proof.
  revert missing st. induction vals as [|val vals IH]; intros missing st.
  - exists []. split; [done|]. cbn. unfold logged. rewrite app_nil_r. by destruct st.
  - cbn [for_each report]. rewrite !run_bind.
    destruct (look_for_run val st) as (evs & Hevs & ->).
    destruct (search (tree st) val (iter_files st)) as [found|e]; [|by exists evs].
    destruct (IH (if found then missing else missing ++ [val]) (logged st evs))
      as (evs' & Hevs' & IH').
    rewrite iter_files_logged in IH'. cbn [logged tree] in IH'.
    exists (evs ++ evs'). split; [by rewrite forallb_app, Hevs, Hevs'|].
    rewrite <- logged_logged, <- IH'. by destruct found.
Qed.

Lemma search_decodable t val files :
  forallb (decodable t) files = true ->
  search t val files = Return (existsb (fun p => occurs val (text_in t p)) files).
Proof.
  induction files as [|p files IH]; [done|]. cbn [forallb search existsb].
  intros [Hp Hrest]%andb_prop. unfold decodable, text_in in *.
  destruct (lookup_entry t p) as [[[txt|]|]|]; try done.
  destruct (occurs val txt); [done|]. by apply IH.
Qed.

Lemma report_decodable t files vals missing :
  forallb (decodable t) files = true ->
  report t files vals missing
  = Return (missing
            ++ filter (fun val => existsb (fun p => occurs val (text_in t p)) files = false) vals).
Proof.
  intros Hdec. revert missing. induction vals as [|val vals IH]; intros missing.
  - cbn. by rewrite app_nil_r.
  - cbn [report]. rewrite search_decodable by done. rewrite IH.
    destruct (existsb _ files) eqn:E.
    + by rewrite filter_cons_False by (by rewrite E).
    + rewrite filter_cons_True by done. by rewrite <- app_assoc.
Qed.

(** X20: on a tree whose enumerated files all decode, [validate] returns
    and changes nothing; what it reports missing are the values of
    [PLACEHOLDERS], in their order, that occur in the text of no file that
    [iter_files] lists; and it prints the panel "All core placeholders
    present." exactly when each of the five occurs in some listed file. *)
Theorem validate_reports (st : state) :
  forallb (decodable (tree st)) (iter_files st) = true ->
  exists st',
    validate st
    = (Return (filter (fun val => existsb (fun p => occurs val (text_in (tree st) p))
                                    (iter_files st) = false) placeholder_values), st')
    /\ tree st' = tree st
    /\ (last (trace st') = Some (Printed "[green]OK[/green]" "All core placeholders present.")
        <-> forall val, val ∈ placeholder_values ->
              exists p, p ∈ iter_files st /\ occurs val (text_in (tree st) p) = true).
Proof.
  intros Hdec. unfold validate. rewrite run_bind.
  destruct (validate_loop placeholder_values [] st) as (evs & _ & ->).
  rewrite report_decodable by done. cbn [app].
  set (missing := filter _ placeholder_values).
  assert (Hall : missing = [] <->
                 forall val, val ∈ placeholder_values ->
                   exists p, p ∈ iter_files st /\ occurs val (text_in (tree st) p) = true).
  { subst missing. split.
    - intros Hnil val Hval.
      destruct (existsb (fun p => occurs val (text_in (tree st) p)) (iter_files st)) eqn:E.
      + apply existsb_exists in E as (p & Hp & Hocc). exists p. by rewrite list_elem_of_In.
      + exfalso. eapply elem_of_nil. rewrite <- Hnil. by apply list_elem_of_filter.
    - intros H. apply filter_none. intros val Hval E.
      destruct (H val Hval) as (p & Hp & Hocc).
      assert (existsb (fun p => occurs val (text_in (tree st) p)) (iter_files st) = true);
        [|congruence].
      apply existsb_exists. exists p. by rewrite <- list_elem_of_In. }
  clearbody missing. destruct missing as [|m rest].
  - eexists. split; [reflexivity|]. split; [done|]. cbn [logged trace].
    rewrite last_snoc. split; [intros _; by apply Hall|done].
  - eexists. split; [reflexivity|]. split; [done|]. cbn [logged trace].
    rewrite last_snoc. split; [done|]. intros H. by apply Hall in H.
Qed.

Lemma validate_reports_witness :
  forallb (decodable (tree ten_files)) (iter_files ten_files) = true
  /\ (validate ten_files).1 = Return placeholder_values.
Proof.
  split; [reflexivity|].
  destruct (validate_reports ten_files eq_refl) as (st' & Hrun & _).
  rewrite Hrun. vm_compute. reflexivity.
Defined.

Lemma search_outcome t val files :
  search t val files = Raised Error \/ exists found, search t val files = Return found.
Proof.
  induction files as [|p files IH]; [right; by exists false|]. cbn [search].
  destruct (lookup_entry t p) as [[[txt|]|]|]; try (by left).
  destruct (occurs val txt); [right; by exists true|done].
Qed.

Lemma search_absent t val files p :
  p ∈ files -> decodable t p = false ->
  (forall q, q ∈ files -> occurs val (text_in t q) = false) ->
  search t val files = Raised Error.
Proof.
  induction files as [|q files IH]; [by intros ?%elem_of_nil|].
  intros Hp Hbad Habs. cbn [search].
  assert (Hq := Habs q (list_elem_of_here _ _)). unfold text_in, decodable in *.
  destruct (lookup_entry t q) as [[[txt|]|]|] eqn:E; try done.
  rewrite Hq. apply IH; [|done|].
  - apply elem_of_cons in Hp as [->|Hp]; [|done]. by rewrite E in Hbad.
  - intros q' Hq'. apply Habs. by right.
Qed.

Lemma report_raises t files vals missing val :
  val ∈ vals -> search t val files = Raised Error -> report t files vals missing = Raised Error.
Proof.
  revert missing. induction vals as [|v vals IH]; intros missing Hval Hs;
    [by apply elem_of_nil in Hval|].
  cbn [report]. destruct (search_outcome t v files) as [->|[found Hf]]; [done|].
  rewrite Hf. apply elem_of_cons in Hval as [->|Hval]; [congruence|]. by apply IH.
Qed.

(** X21: [validate] needs every file it meets to be text.  When one of the
    enumerated files does not decode as UTF-8 and one of the placeholder
    values occurs in no enumerated file, the search for that value, or an
    earlier one, reaches the file: [validate] ends with the error of reading
    it, nothing reported and nothing changed. *)
Theorem validate_needs_text (st : state) (p : path) (val : str) :
  p ∈ iter_files st -> decodable (tree st) p = false ->
  val ∈ placeholder_values ->
  (forall q, q ∈ iter_files st -> occurs val (text_in (tree st) q) = false) ->
  exists st',
    validate st = (Raised Error, st')
    /\ tree st' = tree st
    /\ exists evs, trace st' = trace st ++ evs /\ forallb looks evs = true.
Proof.
  intros Hp Hbad Hval Habs. unfold validate. rewrite run_bind.
  destruct (validate_loop placeholder_values [] st) as (evs & Hevs & ->).
  rewrite (report_raises _ _ _ _ val Hval) by (by eapply search_absent).
  eexists. split; [reflexivity|]. split; [done|]. by exists evs.
Qed.

Lemma validate_needs_text_witness :
  ([py "src"; py "mcpstack_your_tool_name"; py "logo.png"] ∈ iter_files with_logo
   /\ decodable (tree with_logo) [py "src"; py "mcpstack_your_tool_name"; py "logo.png"] = false
   /\ py "mimic" ∈ placeholder_values
   /\ forall q, q ∈ iter_files with_logo -> occurs (py "mimic") (text_in (tree with_logo) q) = false)
  /\ (validate with_logo).1 = Raised Error.
Proof.
  assert (Hin : [py "src"; py "mcpstack_your_tool_name"; py "logo.png"] ∈ iter_files with_logo).
  { apply list_elem_of_In. vm_compute. tauto. }
  assert (Hval : py "mimic" ∈ placeholder_values) by (by left).
  assert (Habs : forall q, q ∈ iter_files with_logo ->
                   occurs (py "mimic") (text_in (tree with_logo) q) = false).
  { intros q Hq%list_elem_of_In. vm_compute in Hq.
    repeat (destruct Hq as [<-|Hq]; [vm_compute; reflexivity|]). done. }
  split; [split; [exact Hin|split; [reflexivity|split; [exact Hval|exact Habs]]]|].
  destruct (validate_needs_text with_logo _ _ Hin eq_refl Hval Habs) as (st' & Hrun & _).
  by rewrite Hrun.
Defined.

(** [init] derives the names as [_ensure_names_from_sources] does. *)
Lemma init_derived_agrees U ts cn pn dn ep loaded :
  _ensure_names_from_sources U ts cn pn dn ep true loaded
  = result_bind (init_derived U ts cn pn dn ep loaded) (fun names =>
      let '(ok, errs) := is_valid_names names in
      if ok then Return names else Raised (BadParameter errs)).
Proof.
  unfold init_derived, _ensure_names_from_sources.
  assert (Hsrc : (match loaded with
                  | Some c => if truthy c then py_get c "names" (PDict []) else Return (PDict [])
                  | None => Return (PDict [])
                  end)
                 = py_get (match loaded with
                           | Some c => if truthy c then c else PDict []
                           | None => PDict []
                           end) "names" (PDict [])).
  { destruct loaded as [c|]; [|done]. by destruct (truthy c). }
  rewrite Hsrc.
  repeat (match goal with
          | |- result_bind ?r _ = result_bind (result_bind ?r _) _ =>
              destruct r as [?|?]; cbn [result_bind]; [|reflexivity]
          end).
  reflexivity.
Qed.

Lemma py_get_raises v key d e : py_get v key d = Raised e -> e = Error.
Proof. destruct v; cbn; congruence. Qed.

Lemma flag_or_raises flag r e :
  (forall e, r = Raised e -> e = Error) -> flag_or flag r = Raised e -> e = Error.
Proof. intros Hr. destruct flag as [[|c s]|]; cbn; try done; apply Hr. Qed.

Lemma as_str_raises v e : as_str v = Raised e -> e = Error.
Proof. destruct v; cbn; congruence. Qed.

Lemma as_optional_raises v e : as_optional v = Raised e -> e = Error.
Proof. unfold as_optional. destruct (truthy v); [|done]. destruct v; cbn; congruence. Qed.

Lemma result_bind_raises {A B} (r : result A) (k : A -> result B) e :
  (forall e, r = Raised e -> e = Error) ->
  (forall a e, k a = Raised e -> e = Error) ->
  result_bind r k = Raised e -> e = Error.
Proof. intros Hr Hk. destruct r as [a|e']; cbn; [apply Hk|]. intros [= <-]. by apply Hr. Qed.

(** Deriving the names raises nothing but the error of a configuration
    that has not the expected shape. *)
Lemma init_derived_raises U ts cn pn dn ep loaded e :
  init_derived U ts cn pn dn ep loaded = Raised e -> e = Error.
Proof.
  unfold init_derived. revert e.
  repeat (intros e; apply result_bind_raises;
          [intros e'; first [apply py_get_raises
                            |apply flag_or_raises; intros e''; apply py_get_raises
                            |apply as_str_raises
                            |apply as_optional_raises]
          |clear e; intros ?]).
  intros e. discriminate.
Qed.





(** X22: [init --non-interactive] takes the names that [apply] and
    [preview] would resolve from the same flags and saved configuration.
    Where these fail, [init] fails before it writes: it leaves with exit
    status 1 where they refuse the names with [BadParameter], having printed the
    same messages, and raises what they raise on a configuration that has not
    the expected shape. *)
Theorem init_refuses (loads : str -> option pyval) (dumps : pyval -> str) (U : Unicode)
    (ts cn pn dn ep : option str) (preview_now apply_now answer : bool) (st : state) (e : exn) :
  _ensure_names_from_sources U ts cn pn dn ep true (config_in loads (tree st)) = Raised e ->
  exists st',
    init loads dumps U ts cn pn dn ep preview_now apply_now answer st
    = (Raised match e with BadParameter _ => Exit 1 | _ => e end, st')
    /\ tree st' = tree st
    /\ match e with
       | BadParameter errs =>
           last (trace st') = Some (Printed "[red]Invalid names[/red]" (join_lines errs))
       | _ => True
       end.
Proof.
  rewrite init_derived_agrees. intros He.
  unfold init. rewrite run_bind, run_load_config.
  destruct (init_derived U ts cn pn dn ep (config_in loads (tree st))) as [names|e'] eqn:Hd;
    cbn [result_bind] in He; rewrite run_bind; cbn [of_result].
  - rewrite run_ret. destruct (is_valid_names names) as [[] errs]; [done|].
    injection He as <-. cbn [negb]. eexists. split; [reflexivity|]. split; [done|].
    cbn [logged trace]. apply last_snoc.
  - injection He as <-. rewrite (init_derived_raises _ _ _ _ _ _ _ _ Hd).
    eexists. split; [reflexivity|]. by split.
Qed.

Lemma init_refuses_witness :
  _ensure_names_from_sources no_unicode (Some (py "9lives")) None None None None true
    (config_in (fun _ => None) (tree ten_files))
  = Raised (BadParameter [err_tool_slug])
  /\ (init (fun _ => None) (fun _ => []) no_unicode (Some (py "9lives")) None None None None
        true true true ten_files).1 = Raised (Exit 1)
  /\ tree (init (fun _ => None) (fun _ => []) no_unicode (Some (py "9lives")) None None None None
             true true true ten_files).2 = tree ten_files.
Proof.
  assert (H : _ensure_names_from_sources no_unicode (Some (py "9lives")) None None None None true
                (config_in (fun _ => None) (tree ten_files))
              = Raised (BadParameter [err_tool_slug]))
    by (vm_compute; reflexivity).
  split; [exact H|].
  destruct (init_refuses (fun _ => None) (fun _ => []) no_unicode (Some (py "9lives"))
              None None None None true true true ten_files _ H) as (st' & Hrun & Htree & _).
  rewrite Hrun. by split.
Defined.



